(** * microcenter_scraper: schema, scrape protocol and catalog front-end

    A shallow embedding of the GPU tracker:
    - [Js]: the JavaScript values and string methods the front-end
      script relies on;
    - [Schema]: the four tables of the MySQL schema with their keys and
      foreign-key actions, and the row operations they govern;
    - [Controller]: the single-slot scrape job controller;
    - [Page]: the API payloads and the parts of the document the
      front-end scripts read and write;
    - [Legacy]: the first front-end script (brand filter only);
    - [Frontend]: the current front-end script (filters, rendering,
      scrape trigger and status polling);
    - [Expected]: the properties asked of the page, and [Sample]: data
      to run the scripts on;
    - [Statements]: INSERT and DELETE statements run on the schema;
    - [Stores] and [History]: the store list of the scrape panel and
      the price history dialog;
    - [Session]: the asynchronous calls of the current script in the
      event loop of the browser;
    - [Behaviour]: further properties asked of the page.
    The facts proved about each part follow the definitions. *)

From Stdlib Require Import ZArith String Ascii List Bool Lia DecimalString.
From stdpp Require Import base option list gmap.
Import ListNotations.

Local Open Scope string_scope.
Local Open Scope Z_scope.

(* ===================================================================== *)
(** ** JavaScript values and string methods *)
(* ===================================================================== *)

Module Js.

(** Scalar JSON values as they arrive in a row of the API.  Numbers are
    modelled on the integers: identifiers are integers and prices are
    delivered as decimal strings. *)
Inductive prim :=
| PUndef
| PNull
| PBool (b : bool)
| PNum (z : Z)
| PStr (s : string).

#[global] Instance prim_eq_dec : EqDecision prim.
Proof. solve_decision. Defined.

(** ToBoolean. *)
Definition truthy (v : prim) : bool :=
  match v with
  | PUndef | PNull => false
  | PBool b => b
  | PNum z => negb (z =? 0)
  | PStr s => negb (String.eqb s "")
  end.

(** [a || b]. *)
Definition or_else (a b : prim) : prim := if truthy a then a else b.

(** ToString on scalars, as a template literal applies it. *)
Definition toString (v : prim) : string :=
  match v with
  | PUndef => "undefined"
  | PNull => "null"
  | PBool true => "true"
  | PBool false => "false"
  | PNum z => NilZero.string_of_int (Z.to_int z)
  | PStr s => s
  end.

(** Outcome of a computation that may throw. *)
Inductive result (A : Type) :=
| Ok (a : A)
| Throw.
Arguments Ok {A} a.
Arguments Throw {A}.

Definition bind {A B} (r : result A) (k : A -> result B) : result B :=
  match r with
  | Ok a => k a
  | Throw => Throw
  end.

Notation "'try!' x := r 'in' k" := (bind r (fun x => k))
  (at level 10, x name, r at level 100, k at level 200).

(** A string method called on a value: only strings carry
    [toUpperCase], [toLowerCase], [includes] and [replace]; calling one
    of them on another scalar is a TypeError. *)
Definition as_string (v : prim) : result string :=
  match v with
  | PStr s => Ok s
  | _ => Throw
  end.

(** *** Case mapping

    [toUpperCase] and [toLowerCase] as they act on text of ASCII
    characters: the letters a-z resp. A-Z are mapped, every other
    character is kept.  On other text the methods of JavaScript also map
    letters outside ASCII; the facts below that depend on how letters
    are mapped are stated for [ascii_text]. *)

Definition upper_ascii (c : ascii) : ascii :=
  let n := N_of_ascii c in
  if ((97 <=? n) && (n <=? 122))%N then ascii_of_N (n - 32) else c.

Definition lower_ascii (c : ascii) : ascii :=
  let n := N_of_ascii c in
  if ((65 <=? n) && (n <=? 90))%N then ascii_of_N (n + 32) else c.

Fixpoint map_string (f : ascii -> ascii) (s : string) : string :=
  match s with
  | EmptyString => EmptyString
  | String c s' => String (f c) (map_string f s')
  end.

Definition toUpperCase (s : string) : string := map_string upper_ascii s.
Definition toLowerCase (s : string) : string := map_string lower_ascii s.

(** Text made of ASCII characters only. *)
Definition ascii_text (s : string) : bool :=
  forallb (λ c, (N_of_ascii c <? 128)%N) (list_ascii_of_string s).

(** A scalar that, if it is a string, is ASCII text. *)
Definition ascii_prim (v : prim) : bool :=
  match v with
  | PStr s => ascii_text s
  | _ => true
  end.

(** [s.includes(t)]: [t] occurs in [s] as a contiguous substring. *)
Fixpoint includes (s t : string) : bool :=
  String.prefix t s ||
  match s with
  | EmptyString => false
  | String _ s' => includes s' t
  end.

(** [s.replace(/'/g, "\\'")]: every apostrophe gets a backslash. *)
Fixpoint escape_quotes (s : string) : string :=
  match s with
  | EmptyString => EmptyString
  | String c s' =>
      if Ascii.eqb c "'"%char
      then String "\"%char (String "'"%char (escape_quotes s'))
      else String c (escape_quotes s')
  end.

(** *** Sets and sorting

    A [Set] keeps its elements in insertion order without duplicates;
    [Array.from(set).sort()] orders them by their string form. *)

Definition set_add (v : prim) (s : list prim) : list prim :=
  if decide (v ∈ s) then s else s ++ [v].

Definition set_has (v : prim) (s : list prim) : bool :=
  bool_decide (v ∈ s).

Fixpoint insert_sorted (v : prim) (l : list prim) : list prim :=
  match l with
  | [] => [v]
  | x :: l' =>
      if String.ltb (toString v) (toString x)
      then v :: x :: l'
      else x :: insert_sorted v l'
  end.

(** Stable insertion sort on the string forms. *)
Definition sort (l : list prim) : list prim :=
  fold_left (fun acc v => insert_sorted v acc) l [].

End Js.

(* ===================================================================== *)
(** ** The relational schema *)
(* ===================================================================== *)

Module Schema.

(** Rows of the four tables, without their AUTO_INCREMENT primary key:
    a table is a finite map from that key to the rest of the row.
    [NULL]-able columns are options; [DECIMAL(10,2)] is fixed point,
    held as the number of cents; [TIMESTAMP] is a number of seconds. *)

Record store_row := {
  name : string;
  city : string;
  state : string
}.

Record gpu_row := {
  brand : option string;
  model_name : string;
  manufacturer : option string;
  full_name : string
}.

Record product_row := {
  store_id : Z;
  gpu_id : Z;
  microcenter_sku : string;
  product_url : option string;
  last_seen_image_url : option string
}.

Record history_row := {
  product_id : Z;
  price_usd : Z;
  stock_status : string;
  scraped_at : Z
}.

#[global] Instance store_row_eq_dec : EqDecision store_row.
Proof. solve_decision. Defined.
#[global] Instance gpu_row_eq_dec : EqDecision gpu_row.
Proof. solve_decision. Defined.
#[global] Instance product_row_eq_dec : EqDecision product_row.
Proof. solve_decision. Defined.
#[global] Instance history_row_eq_dec : EqDecision history_row.
Proof. solve_decision. Defined.

(** The database: the tables and their AUTO_INCREMENT counters. *)
Record db := {
  stores : gmap Z store_row;
  gpus : gmap Z gpu_row;
  products : gmap Z product_row;
  price_history : gmap Z history_row;
  next_store_id : Z;
  next_gpu_id : Z;
  next_product_id : Z;
  next_history_id : Z
}.

Definition empty_db : db :=
  {| stores := ∅; gpus := ∅; products := ∅; price_history := ∅;
     next_store_id := 1; next_gpu_id := 1;
     next_product_id := 1; next_history_id := 1 |}.

(** Referential actions of a FOREIGN KEY constraint. *)
Inductive ref_action := RESTRICT | CASCADE.

Record foreign_key := {
  on_delete : ref_action;
  on_update : ref_action
}.

(** The three constraints, as declared. *)
Definition fk_products_stores : foreign_key :=
  {| on_delete := RESTRICT; on_update := CASCADE |}.
Definition fk_products_gpus : foreign_key :=
  {| on_delete := RESTRICT; on_update := CASCADE |}.
Definition fk_price_history_products : foreign_key :=
  {| on_delete := CASCADE; on_update := CASCADE |}.

Inductive sql_error :=
| ForeignKeyViolation
| DuplicateKey.

(** A statement either commits a new database or is rejected, and a
    rejected statement changes nothing. *)
Inductive outcome :=
| Done (d : db)
| Rejected (e : sql_error).

Definition commit (d : db) (o : outcome) : db :=
  match o with
  | Done d' => d'
  | Rejected _ => d
  end.

Definition set_stores (m : gmap Z store_row) (d : db) : db :=
  {| stores := m; gpus := gpus d; products := products d;
     price_history := price_history d;
     next_store_id := next_store_id d; next_gpu_id := next_gpu_id d;
     next_product_id := next_product_id d;
     next_history_id := next_history_id d |}.

Definition set_gpus (m : gmap Z gpu_row) (d : db) : db :=
  {| stores := stores d; gpus := m; products := products d;
     price_history := price_history d;
     next_store_id := next_store_id d; next_gpu_id := next_gpu_id d;
     next_product_id := next_product_id d;
     next_history_id := next_history_id d |}.

Definition set_products (m : gmap Z product_row) (d : db) : db :=
  {| stores := stores d; gpus := gpus d; products := m;
     price_history := price_history d;
     next_store_id := next_store_id d; next_gpu_id := next_gpu_id d;
     next_product_id := next_product_id d;
     next_history_id := next_history_id d |}.

Definition set_price_history (m : gmap Z history_row) (d : db) : db :=
  {| stores := stores d; gpus := gpus d; products := products d;
     price_history := m;
     next_store_id := next_store_id d; next_gpu_id := next_gpu_id d;
     next_product_id := next_product_id d;
     next_history_id := next_history_id d |}.

(** *** DELETE under the declared referential actions *)

(** Rows of [price_history] whose [product_id] is among [doomed]. *)
Definition history_of (doomed : gmap Z product_row)
    (h : gmap Z history_row) : gmap Z history_row :=
  filter (λ kv, is_Some (doomed !! product_id kv.2)) h.

(** Deleting the products [doomed]: the engine looks at
    [fk_price_history_products] for the rows that reference them. *)
Definition delete_products (doomed : gmap Z product_row) (d : db) : outcome :=
  match on_delete fk_price_history_products with
  | RESTRICT =>
      if decide (history_of doomed (price_history d) = ∅)
      then Done (set_products (products d ∖ doomed) d)
      else Rejected ForeignKeyViolation
  | CASCADE =>
      Done (set_price_history
              (filter (λ kv, doomed !! product_id kv.2 = None)
                 (price_history d))
              (set_products (products d ∖ doomed) d))
  end.

(** [DELETE FROM products WHERE product_id = pid]. *)
Definition delete_product (pid : Z) (d : db) : outcome :=
  delete_products (filter (λ kv, kv.1 = pid) (products d)) d.

(** Products that reference the store [sid]. *)
Definition products_of_store (sid : Z) (d : db) : gmap Z product_row :=
  filter (λ kv, store_id kv.2 = sid) (products d).

(** Products that reference the GPU [gid]. *)
Definition products_of_gpu (gid : Z) (d : db) : gmap Z product_row :=
  filter (λ kv, gpu_id kv.2 = gid) (products d).

(** [DELETE FROM stores WHERE store_id = sid]: a statement that matches
    no row succeeds and changes nothing. *)
Definition delete_store (sid : Z) (d : db) : outcome :=
  match stores d !! sid with
  | None => Done d
  | Some _ =>
      match on_delete fk_products_stores with
      | RESTRICT =>
          if decide (products_of_store sid d = ∅)
          then Done (set_stores (delete sid (stores d)) d)
          else Rejected ForeignKeyViolation
      | CASCADE =>
          match delete_products (products_of_store sid d) d with
          | Done d' => Done (set_stores (delete sid (stores d')) d')
          | Rejected e => Rejected e
          end
      end
  end.

(** [DELETE FROM gpus WHERE gpu_id = gid]. *)
Definition delete_gpu (gid : Z) (d : db) : outcome :=
  match gpus d !! gid with
  | None => Done d
  | Some _ =>
      match on_delete fk_products_gpus with
      | RESTRICT =>
          if decide (products_of_gpu gid d = ∅)
          then Done (set_gpus (delete gid (gpus d)) d)
          else Rejected ForeignKeyViolation
      | CASCADE =>
          match delete_products (products_of_gpu gid d) d with
          | Done d' => Done (set_gpus (delete gid (gpus d')) d')
          | Rejected e => Rejected e
          end
      end
  end.

(** *** INSERT under the keys and constraints

    The rows are taken to fit the declared column types, and the text
    of a key is compared as it is written: the widths of the columns
    and their collation are not modelled.  INSERT serves the scraper's
    upserts and the sample data; the facts proved about the schema are
    about the foreign keys. *)

(** First key of a table whose row satisfies [P]. *)
Definition find_key {R} (P : R → bool) (m : gmap Z R) : option Z :=
  fst <$> List.find (λ kv, P kv.2) (map_to_list m).

Definition same_location (r : store_row) (r' : store_row) : bool :=
  bool_decide (name r = name r' ∧ city r = city r' ∧ state r = state r').

(** [INSERT INTO stores]: [idx_store_location] is UNIQUE. *)
Definition insert_store (r : store_row) (d : db) : outcome :=
  match find_key (same_location r) (stores d), stores d !! next_store_id d with
  | None, None =>
      Done {| stores := <[next_store_id d := r]> (stores d);
              gpus := gpus d; products := products d;
              price_history := price_history d;
              next_store_id := next_store_id d + 1;
              next_gpu_id := next_gpu_id d;
              next_product_id := next_product_id d;
              next_history_id := next_history_id d |}
  | _, _ => Rejected DuplicateKey
  end.

(** [INSERT INTO gpus]: [idx_full_name] is UNIQUE. *)
Definition insert_gpu (r : gpu_row) (d : db) : outcome :=
  match find_key (λ r', bool_decide (full_name r' = full_name r)) (gpus d),
        gpus d !! next_gpu_id d with
  | None, None =>
      Done {| stores := stores d;
              gpus := <[next_gpu_id d := r]> (gpus d);
              products := products d;
              price_history := price_history d;
              next_store_id := next_store_id d;
              next_gpu_id := next_gpu_id d + 1;
              next_product_id := next_product_id d;
              next_history_id := next_history_id d |}
  | _, _ => Rejected DuplicateKey
  end.

(** [INSERT INTO products]: [idx_sku] is UNIQUE, and both parents must
    exist. *)
Definition insert_product (r : product_row) (d : db) : outcome :=
  match stores d !! store_id r, gpus d !! gpu_id r with
  | Some _, Some _ =>
      match find_key (λ r', bool_decide (microcenter_sku r' = microcenter_sku r))
              (products d),
            products d !! next_product_id d with
      | None, None =>
          Done {| stores := stores d; gpus := gpus d;
                  products := <[next_product_id d := r]> (products d);
                  price_history := price_history d;
                  next_store_id := next_store_id d;
                  next_gpu_id := next_gpu_id d;
                  next_product_id := next_product_id d + 1;
                  next_history_id := next_history_id d |}
      | _, _ => Rejected DuplicateKey
      end
  | _, _ => Rejected ForeignKeyViolation
  end.

(** [INSERT INTO price_history]: the product must exist. *)
Definition insert_history (r : history_row) (d : db) : outcome :=
  match products d !! product_id r with
  | None => Rejected ForeignKeyViolation
  | Some _ =>
      match price_history d !! next_history_id d with
      | Some _ => Rejected DuplicateKey
      | None =>
          Done {| stores := stores d; gpus := gpus d;
                  products := products d;
                  price_history :=
                    <[next_history_id d := r]> (price_history d);
                  next_store_id := next_store_id d;
                  next_gpu_id := next_gpu_id d;
                  next_product_id := next_product_id d;
                  next_history_id := next_history_id d + 1 |}
      end
  end.

(** *** The write path of the scraper *)

(** Modelled from the spec: the scraper's upsert of a Store by its
    natural key (the Python scraper is not part of the sources): an
    existing row with the same (name, city, state) is reused, otherwise
    the row is inserted; the identifier is returned. *)
Definition upsert_store (r : store_row) (d : db) : option Z * db :=
  match find_key (same_location r) (stores d) with
  | Some k => (Some k, d)
  | None =>
      match insert_store r d with
      | Done d' => (Some (next_store_id d), d')
      | Rejected _ => (None, d)
      end
  end.

(** Modelled from the spec: the scraper's upsert of a GPU by its full
    product name. *)
Definition upsert_gpu (r : gpu_row) (d : db) : option Z * db :=
  match find_key (λ r', bool_decide (full_name r' = full_name r)) (gpus d) with
  | Some k => (Some k, d)
  | None =>
      match insert_gpu r d with
      | Done d' => (Some (next_gpu_id d), d')
      | Rejected _ => (None, d)
      end
  end.

Definition with_image (img : option string) (r : product_row) : product_row :=
  {| store_id := store_id r; gpu_id := gpu_id r;
     microcenter_sku := microcenter_sku r; product_url := product_url r;
     last_seen_image_url := img |}.

(** Modelled from the spec: the scraper's upsert of a Product by its
    SKU; on a later observation of a known SKU only the last-seen image
    URL is overwritten. *)
Definition upsert_product (r : product_row) (d : db) : option Z * db :=
  match find_key (λ r', bool_decide (microcenter_sku r' = microcenter_sku r))
          (products d) with
  | Some k =>
      (Some k,
       set_products (alter (with_image (last_seen_image_url r)) k (products d)) d)
  | None =>
      match insert_product r d with
      | Done d' => (Some (next_product_id d), d')
      | Rejected _ => (None, d)
      end
  end.

(** Modelled from the spec: the operations that write to the database:
    the three upserts and the append of the scraper, and the deletion
    of a product, a store or a GPU.  No operation changes a primary
    key (they are AUTO_INCREMENT identifiers), so the ON UPDATE actions
    of the constraints never come into play. *)
Inductive op :=
| UpsertStore (r : store_row)
| UpsertGpu (r : gpu_row)
| UpsertProduct (r : product_row)
| AppendHistory (r : history_row)
| DeleteProduct (pid : Z)
| DeleteStore (sid : Z)
| DeleteGpu (gid : Z).

Definition apply_op (o : op) (d : db) : db :=
  match o with
  | UpsertStore r => (upsert_store r d).2
  | UpsertGpu r => (upsert_gpu r d).2
  | UpsertProduct r => (upsert_product r d).2
  | AppendHistory r => commit d (insert_history r d)
  | DeleteProduct pid => commit d (delete_product pid d)
  | DeleteStore sid => commit d (delete_store sid d)
  | DeleteGpu gid => commit d (delete_gpu gid d)
  end.

Definition run (ops : list op) (d : db) : db :=
  fold_left (λ d o, apply_op o d) ops d.

(** Referential integrity: every child row references an existing
    parent row. *)
Definition history_refs_ok (d : db) : Prop :=
  ∀ k h, price_history d !! k = Some h → is_Some (products d !! product_id h).

Definition product_refs_ok (d : db) : Prop :=
  ∀ k p, products d !! k = Some p →
    is_Some (stores d !! store_id p) ∧ is_Some (gpus d !! gpu_id p).

Definition ref_integrity (d : db) : Prop :=
  history_refs_ok d ∧ product_refs_ok d.

(** A small database: one store, one GPU, one product observed twice. *)
Definition tustin : store_row :=
  {| name := "Tustin"; city := "Tustin"; state := "CA" |}.

Definition rtx4090 : gpu_row :=
  {| brand := Some "NVIDIA"; model_name := "GeForce RTX 4090";
     manufacturer := Some "ASUS";
     full_name := "ASUS NVIDIA GeForce RTX 4090 TUF Gaming OC" |}.

Definition listing : product_row :=
  {| store_id := 1; gpu_id := 1; microcenter_sku := "123456";
     product_url := Some "/product/123456"; last_seen_image_url := None |}.

Definition observation (cents at_time : Z) : history_row :=
  {| product_id := 1; price_usd := cents; stock_status := "In Stock";
     scraped_at := at_time |}.

Definition example_ops : list op :=
  [UpsertStore tustin; UpsertGpu rtx4090; UpsertProduct listing;
   AppendHistory (observation 50000 600);
   AppendHistory (observation 48000 605)].

Definition example_db : db := run example_ops empty_db.

End Schema.

(* ===================================================================== *)
(** ** The scrape job controller *)
(* ===================================================================== *)

Module Controller.

Inductive phase := Idle | Running.

(** Modelled from the spec: the controller's shared slot (the server is
    not part of the sources): a single flag plus a message string. *)
Record controller := {
  is_scraping : phase;
  message : string
}.

(** The process: the slot, and the scrape tasks spawned and not yet
    finished, each named by the store it scrapes. *)
Record world := {
  ctl : controller;
  jobs : list Z
}.

Inductive response :=
| Started (store_id : Z)
| AlreadyInProgress
| StatusReport (running : bool) (msg : string).

(** Status code of [POST /api/scrape] and [GET /api/status]. *)
Definition status_code (r : response) : Z :=
  match r with
  | Started _ => 200
  | AlreadyInProgress => 409
  | StatusReport _ _ => 200
  end.

Inductive event :=
| Trigger (store_id : Z)
| Complete (msg : string)
| Status.

Section WithStartMessage.

(** The spec leaves open which progress message a starting job writes
    into the slot. *)
Variable start_message : Z → string.

(** The message in the body of a response. *)
Definition report (r : response) : string :=
  match r with
  | Started sid => start_message sid
  | AlreadyInProgress => "already in progress"
  | StatusReport _ msg => msg
  end.

(** Modelled from the spec: start only if Idle, as one atomic
    check-and-set; the task is spawned and the request answered without
    waiting for it. *)
Definition trigger (sid : Z) (w : world) : response * world :=
  match is_scraping (ctl w) with
  | Running => (AlreadyInProgress, w)
  | Idle =>
      (Started sid,
       {| ctl := {| is_scraping := Running; message := start_message sid |};
          jobs := jobs w ++ [sid] |})
  end.

(** Modelled from the spec: a finishing task (success or failure) sets
    the slot back to Idle and leaves its completion message. *)
Definition complete (msg : string) (w : world) : world :=
  match jobs w with
  | [] => w
  | _ :: rest =>
      {| ctl := {| is_scraping := Idle; message := msg |}; jobs := rest |}
  end.

(** Modelled from the spec: the status read. *)
Definition status (w : world) : response :=
  StatusReport
    (match is_scraping (ctl w) with Running => true | Idle => false end)
    (message (ctl w)).

Definition step (e : event) (w : world) : option response * world :=
  match e with
  | Trigger sid => let (r, w') := trigger sid w in (Some r, w')
  | Complete msg => (None, complete msg w)
  | Status => (Some (status w), w)
  end.

Definition run (evs : list event) (w : world) : world :=
  fold_left (λ w e, (step e w).2) evs w.

End WithStartMessage.

Definition initial : world :=
  {| ctl := {| is_scraping := Idle; message := "" |}; jobs := [] |}.

(** The slot and the task list agree. *)
Definition consistent (w : world) : Prop :=
  match is_scraping (ctl w) with
  | Idle => jobs w = []
  | Running => ∃ j, jobs w = [j]
  end.

End Controller.

(* ===================================================================== *)
(** ** The page: API payloads and the DOM the scripts work on *)
(* ===================================================================== *)

Module Page.
Import Js.

(** A row of [GET /api/gpus], with the properties the scripts read; a
    property that is absent reads as [PUndef]. *)
Record gpu := {
  product_id : prim;
  brand : prim;
  model_name : prim;
  price_usd : prim;
  stock_status : prim;
  product_url : prim;
  last_seen_image_url : prim;
  store_name : prim;
  scraped_at : prim
}.

(** An element of the array: an object, or [null]/[undefined], on which
    every property read throws. *)
Inductive row :=
| Nullish
| Obj (g : gpu).

(** The parsed body of the list: an array of rows, or some other JSON
    value (an error object, a number, and for the current script
    [null] as well), which has neither [forEach] nor [filter]. *)
Inductive payload :=
| NotArray
| Arr (rows : list row).

(** What a [fetch] followed by [response.json()] gives: the server
    cannot be reached, the body does not parse as JSON, or the parsed
    value.  Where the body is read as an object (the status and the
    scrape answer), a [null] body makes the first property read throw
    into the handler that also takes the parse error, so it counts as
    [Malformed]; for the list of the current script, [null] is a
    [NotArray] payload. *)
Inductive fetched (A : Type) :=
| Unreachable
| Malformed
| Json (a : A).
Arguments Unreachable {A}.
Arguments Malformed {A}.
Arguments Json {A} a.

(** A card of the grid: the values interpolated into its template. *)
Record card := {
  card_image : prim;
  card_brand : prim;
  card_store : option prim;
  card_model : prim;
  card_price : prim;
  card_stock_class : string;
  card_stock : prim;
  card_history_id : prim;
  card_history_name : string;
  card_href : prim
}.

(** Children of the [gpu-grid] element. *)
Inductive element :=
| Card (c : card)
| EmptyState
| ConnectionError.

(** A [<select>]: its options and the value of the selected one. *)
Record option_el := {
  opt_value : string;
  opt_text : string
}.

Record select := {
  options : list option_el;
  value : string
}.

(** Assigning [innerHTML]: the options are replaced and the first one
    is selected. *)
Definition set_innerHTML (opts : list option_el) : select :=
  {| options := opts;
     value := match opts with o :: _ => opt_value o | [] => "" end |}.

(** Assigning [value]: the option with that value is selected; without
    one, nothing is selected and the value reads as the empty string. *)
Definition set_value (v : string) (s : select) : select :=
  {| options := options s;
     value := if decide (v ∈ opt_value <$> options s) then v else "" |}.

(** Text that reads back from markup as it was written into it:
    printable ASCII characters other than the double quote, the
    ampersand and the angle brackets. *)
Definition markup_char (c : ascii) : bool :=
  let n := N_of_ascii c in
  ((32 <=? n) && (n <? 127) &&
   negb (n =? 34) && negb (n =? 38) && negb (n =? 60) && negb (n =? 62))%N.

Definition markup_free (s : string) : bool :=
  forallb markup_char (list_ascii_of_string s).

(** [<option value="${v}">${v}</option>], or an option whose [value]
    and [textContent] are assigned: the value and the text of the
    option are the string form of [v].  The template of the current
    script does not escape what it interpolates, so for that script
    this is the option the browser builds only when the text is
    [markup_free]; the facts about its dropdowns assume so. *)
Definition option_of (v : prim) : option_el :=
  {| opt_value := toString v; opt_text := toString v |}.

(** The scrape button and the status line next to it. *)
Record panel := {
  btn_disabled : bool;
  btn_text : string;
  status_text : prim;
  status_color : string
}.

Inductive request :=
| GetGpus (t : Z)
| GetStatus
| PostScrape (store_id : string).

(** A timer registered with [setInterval]. *)
Record interval := {
  handle : positive;
  period : Z;
  since : Z
}.

(** The script's globals, the parts of the document it touches, the
    browser's interval timers, and the requests sent so far with the
    time (in milliseconds) of each. *)
Record state := {
  allGPUs : payload;
  search_input : string;
  brand_filter : select;
  store_filter : select;
  gpu_grid : list element;
  last_updated : option prim;
  scrape_store_select : string;
  scrape : panel;
  pollInterval : option positive;
  intervals : list interval;
  next_handle : positive;
  requests : list (Z * request)
}.

(** A statement sequence run on the state: it completes, or it throws
    and leaves the state as it was at the throw. *)
Inductive completion :=
| Normal (st : state)
| Abrupt (st : state).

(** An event handler or timer callback: an exception that reaches the
    top is reported by the browser and the state stays as it is. *)
Definition settle (c : completion) : state :=
  match c with
  | Normal st => st
  | Abrupt st => st
  end.

(** Assignments. *)
Definition set_allGPUs (data : payload) (st : state) : state :=
  {| allGPUs := data; search_input := search_input st;
     brand_filter := brand_filter st; store_filter := store_filter st;
     gpu_grid := gpu_grid st; last_updated := last_updated st;
     scrape_store_select := scrape_store_select st; scrape := scrape st;
     pollInterval := pollInterval st; intervals := intervals st;
     next_handle := next_handle st; requests := requests st |}.

Definition set_brand_filter (s : select) (st : state) : state :=
  {| allGPUs := allGPUs st; search_input := search_input st;
     brand_filter := s; store_filter := store_filter st;
     gpu_grid := gpu_grid st; last_updated := last_updated st;
     scrape_store_select := scrape_store_select st; scrape := scrape st;
     pollInterval := pollInterval st; intervals := intervals st;
     next_handle := next_handle st; requests := requests st |}.

Definition set_store_filter (s : select) (st : state) : state :=
  {| allGPUs := allGPUs st; search_input := search_input st;
     brand_filter := brand_filter st; store_filter := s;
     gpu_grid := gpu_grid st; last_updated := last_updated st;
     scrape_store_select := scrape_store_select st; scrape := scrape st;
     pollInterval := pollInterval st; intervals := intervals st;
     next_handle := next_handle st; requests := requests st |}.

Definition set_gpu_grid (g : list element) (st : state) : state :=
  {| allGPUs := allGPUs st; search_input := search_input st;
     brand_filter := brand_filter st; store_filter := store_filter st;
     gpu_grid := g; last_updated := last_updated st;
     scrape_store_select := scrape_store_select st; scrape := scrape st;
     pollInterval := pollInterval st; intervals := intervals st;
     next_handle := next_handle st; requests := requests st |}.

Definition set_last_updated (v : option prim) (st : state) : state :=
  {| allGPUs := allGPUs st; search_input := search_input st;
     brand_filter := brand_filter st; store_filter := store_filter st;
     gpu_grid := gpu_grid st; last_updated := v;
     scrape_store_select := scrape_store_select st; scrape := scrape st;
     pollInterval := pollInterval st; intervals := intervals st;
     next_handle := next_handle st; requests := requests st |}.

Definition set_scrape (p : panel) (st : state) : state :=
  {| allGPUs := allGPUs st; search_input := search_input st;
     brand_filter := brand_filter st; store_filter := store_filter st;
     gpu_grid := gpu_grid st; last_updated := last_updated st;
     scrape_store_select := scrape_store_select st; scrape := p;
     pollInterval := pollInterval st; intervals := intervals st;
     next_handle := next_handle st; requests := requests st |}.

Definition set_pollInterval (h : option positive) (st : state) : state :=
  {| allGPUs := allGPUs st; search_input := search_input st;
     brand_filter := brand_filter st; store_filter := store_filter st;
     gpu_grid := gpu_grid st; last_updated := last_updated st;
     scrape_store_select := scrape_store_select st; scrape := scrape st;
     pollInterval := h; intervals := intervals st;
     next_handle := next_handle st; requests := requests st |}.

(** [fetch(url)]: the request leaves at time [now]. *)
Definition send (now : Z) (r : request) (st : state) : state :=
  {| allGPUs := allGPUs st; search_input := search_input st;
     brand_filter := brand_filter st; store_filter := store_filter st;
     gpu_grid := gpu_grid st; last_updated := last_updated st;
     scrape_store_select := scrape_store_select st; scrape := scrape st;
     pollInterval := pollInterval st; intervals := intervals st;
     next_handle := next_handle st;
     requests := requests st ++ [(now, r)] |}.

(** [setInterval(callback, ms)] at time [now]: the timer is registered
    under a fresh handle, which is returned. *)
Definition setInterval (ms now : Z) (st : state) : positive * state :=
  (next_handle st,
   {| allGPUs := allGPUs st; search_input := search_input st;
      brand_filter := brand_filter st; store_filter := store_filter st;
      gpu_grid := gpu_grid st; last_updated := last_updated st;
      scrape_store_select := scrape_store_select st; scrape := scrape st;
      pollInterval := pollInterval st;
      intervals :=
        intervals st ++
        [{| handle := next_handle st; period := ms; since := now |}];
      next_handle := Pos.succ (next_handle st);
      requests := requests st |}).

(** [clearInterval(h)]: the timer is removed; clearing [null] or an
    unknown handle does nothing. *)
Definition clearInterval (h : option positive) (st : state) : state :=
  match h with
  | None => st
  | Some h =>
      {| allGPUs := allGPUs st; search_input := search_input st;
         brand_filter := brand_filter st; store_filter := store_filter st;
         gpu_grid := gpu_grid st; last_updated := last_updated st;
         scrape_store_select := scrape_store_select st; scrape := scrape st;
         pollInterval := pollInterval st;
         intervals := filter (λ i, handle i ≠ h) (intervals st);
         next_handle := next_handle st; requests := requests st |}
  end.

Definition PLACEHOLDER_URL : string :=
  "https://placehold.co/200x200?text=No+Image".

(** The class of the stock line: [stock-in] when the stock text, in
    upper case, includes [IN STOCK]. *)
Definition stock_class (stockStatus : prim) : string :=
  if truthy stockStatus &&
     includes (toUpperCase (toString stockStatus)) "IN STOCK"
  then "stock-in" else "stock-out".

(** The image of a card: the placeholder when the row's URL is falsy,
    is ["N/A"] or includes [noimageproduct.gif]; a truthy value that is
    not a string has no [includes] method. *)
Definition image_of (imageUrl : prim) : result prim :=
  if negb (truthy imageUrl) || bool_decide (imageUrl = PStr "N/A")
  then Ok (PStr PLACEHOLDER_URL)
  else try! s := as_string imageUrl in
       Ok (if includes s "noimageproduct.gif"
           then PStr PLACEHOLDER_URL else imageUrl).

End Page.

(* ===================================================================== *)
(** ** The first front-end script *)
(* ===================================================================== *)

(** The earlier script knows no stores, no scrape trigger and no
    polling; it leaves those parts of the page alone. *)
Module Legacy.
Import Js Page.

Definition matches (searchTerm selectedBrand : string) (r : row)
    : result bool :=
  match r with
  | Nullish => Throw
  | Obj gpu =>
      try! name := as_string (model_name gpu) in
      let nameMatch := includes (toLowerCase name) searchTerm in
      try! b := as_string (or_else (brand gpu) (PStr "Unknown")) in
      let gpuBrand := toUpperCase b in
      let brandMatch :=
        String.eqb selectedBrand "all" || String.eqb gpuBrand selectedBrand in
      Ok (nameMatch && brandMatch)
  end.

Fixpoint filter_rows (keep : row → result bool) (rows : list row)
    : result (list row) :=
  match rows with
  | [] => Ok []
  | r :: rest =>
      try! k := keep r in
      try! rest' := filter_rows keep rest in
      Ok (if k then r :: rest' else rest')
  end.

Definition filtered (st : state) : result (list row) :=
  let searchTerm := toLowerCase (search_input st) in
  let selectedBrand := value (brand_filter st) in
  match allGPUs st with
  | NotArray => Throw
  | Arr rows => filter_rows (matches searchTerm selectedBrand) rows
  end.

Definition render_card (r : row) : result card :=
  match r with
  | Nullish => Throw
  | Obj gpu =>
      let stockStatus := or_else (stock_status gpu) (PStr "Unknown") in
      let stockClass := stock_class stockStatus in
      try! imageUrl := image_of (last_seen_image_url gpu) in
      let brand := or_else (brand gpu) (PStr "Unknown") in
      let modelName := or_else (model_name gpu) (PStr "Unknown Model") in
      let price := or_else (price_usd gpu) (PStr "0.00") in
      let productUrl := or_else (product_url gpu) (PStr "#") in
      let productId := product_id gpu in
      try! name := as_string modelName in
      let safeModelName := escape_quotes name in
      Ok {| card_image := imageUrl; card_brand := brand;
            card_store := None; card_model := modelName;
            card_price := price; card_stock_class := stockClass;
            card_stock := stockStatus; card_history_id := productId;
            card_history_name := safeModelName; card_href := productUrl |}
  end.

Definition update_last_scraped (st : state) : state :=
  match allGPUs st with
  | Arr (Obj first :: _) =>
      if truthy (scraped_at first)
      then set_last_updated (Some (scraped_at first)) st
      else st
  | _ => st
  end.

Definition append_card (st : state) (r : row) : state :=
  match render_card r with
  | Ok c => set_gpu_grid (gpu_grid st ++ [Card c]) st
  | Throw => st
  end.

Definition renderGPUs (gpus : payload) (st : state) : completion :=
  let st := set_gpu_grid [] st in
  match gpus with
  | NotArray | Arr [] => Normal (set_gpu_grid [EmptyState] st)
  | Arr rows => Normal (fold_left append_card rows (update_last_scraped st))
  end.

Definition filterGPUs (st : state) : completion :=
  match filtered st with
  | Throw => Abrupt st
  | Ok rows => renderGPUs (Arr rows) st
  end.

Definition on_filter_change (st : state) : state := settle (filterGPUs st).

(** [populateBrands]: the dropdown is reset to its [all] option before
    the rows are read, so a throw leaves it without brands. *)
Fixpoint collect_brands (rows : list row) (brands : list prim)
    : result (list prim) :=
  match rows with
  | [] => Ok brands
  | Nullish :: _ => Throw
  | Obj gpu :: rest =>
      if truthy (brand gpu) && negb (bool_decide (brand gpu = PStr "Unknown"))
      then try! b := as_string (brand gpu) in
           collect_brands rest (set_add (PStr (toUpperCase b)) brands)
      else collect_brands rest brands
  end.

Definition populateBrands (gpus : payload) (st : state) : completion :=
  let cleared :=
    set_innerHTML [{| opt_value := "all"; opt_text := "All Brands" |}] in
  let st := set_brand_filter cleared st in
  match gpus with
  | NotArray => Abrupt st
  | Arr rows =>
      match collect_brands rows [] with
      | Throw => Abrupt st
      | Ok brands =>
          Normal (set_brand_filter
                    {| options := options cleared ++ (option_of <$> sort brands);
                       value := value cleared |} st)
      end
  end.

(** The parsed body as [fetchGPUs] of this script meets it: before
    anything else it reads [data.length] for the console, which throws
    on [null] and is harmless on every other JSON value. *)
Inductive body :=
| Null
| Value (data : payload).

(** [fetchGPUs()] at time [now], where the server answers [answer]:
    the [try] block, then the [catch].  In [Value NotArray] the payload
    is a value other than an array and other than [null]. *)
Definition fetchGPUs (now : Z) (answer : fetched body) (st : state)
    : state :=
  let st := send now (GetGpus now) st in
  let attempt :=
    match answer with
    | Unreachable | Malformed => Abrupt st
    | Json Null => Abrupt st
    | Json (Value data) =>
        let st := set_allGPUs data st in
        match populateBrands data st with
        | Abrupt st => Abrupt st
        | Normal st => renderGPUs data st
        end
    end in
  match attempt with
  | Normal st => st
  | Abrupt st => set_gpu_grid [ConnectionError] st
  end.

End Legacy.

(* ===================================================================== *)
(** ** The current front-end script *)
(* ===================================================================== *)

Module Frontend.
Import Js Page.

(** *** 1. Filter logic *)

(** The callback of [allGPUs.filter]. *)
Definition matches (searchTerm selectedBrand selectedStore : string)
    (r : row) : result bool :=
  match r with
  | Nullish => Throw
  | Obj gpu =>
      try! name := as_string (model_name gpu) in
      let nameMatch := includes (toLowerCase name) searchTerm in
      try! b := as_string (or_else (brand gpu) (PStr "Unknown")) in
      let gpuBrand := toUpperCase b in
      let brandMatch :=
        String.eqb selectedBrand "all" || String.eqb gpuBrand selectedBrand in
      let gpuStore := or_else (store_name gpu) (PStr "Unknown") in
      let storeMatch :=
        String.eqb selectedStore "all" ||
        bool_decide (gpuStore = PStr selectedStore) in
      Ok (nameMatch && brandMatch && storeMatch)
  end.

(** [Array.prototype.filter] with a callback that may throw. *)
Fixpoint filter_rows (keep : row → result bool) (rows : list row)
    : result (list row) :=
  match rows with
  | [] => Ok []
  | r :: rest =>
      try! k := keep r in
      try! rest' := filter_rows keep rest in
      Ok (if k then r :: rest' else rest')
  end.

(** The rows [filterGPUs] hands to [renderGPUs]. *)
Definition filtered (st : state) : result (list row) :=
  let searchTerm := toLowerCase (search_input st) in
  let selectedBrand := value (brand_filter st) in
  let selectedStore := value (store_filter st) in
  match allGPUs st with
  | NotArray => Throw
  | Arr rows => filter_rows (matches searchTerm selectedBrand selectedStore) rows
  end.

(** *** 3. Rendering *)

(** The body of the [try] in the loop of [renderGPUs], up to the card
    that is appended. *)
Definition render_card (r : row) : result card :=
  match r with
  | Nullish => Throw
  | Obj gpu =>
      let stockStatus := or_else (stock_status gpu) (PStr "Unknown") in
      let stockClass := stock_class stockStatus in
      try! imageUrl := image_of (last_seen_image_url gpu) in
      let brand := or_else (brand gpu) (PStr "Unknown") in
      let modelName := or_else (model_name gpu) (PStr "Unknown Model") in
      let price := or_else (price_usd gpu) (PStr "0.00") in
      let productUrl := or_else (product_url gpu) (PStr "#") in
      let storeName := or_else (store_name gpu) (PStr "Unknown Store") in
      let productId := product_id gpu in
      try! name := as_string modelName in
      let safeModelName := escape_quotes name in
      Ok {| card_image := imageUrl; card_brand := brand;
            card_store := Some storeName; card_model := modelName;
            card_price := price; card_stock_class := stockClass;
            card_stock := stockStatus; card_history_id := productId;
            card_history_name := safeModelName; card_href := productUrl |}
  end.

(** The first [try] of [renderGPUs]: the label under the title shows
    when the first row of [allGPUs] was scraped. *)
Definition update_last_scraped (st : state) : state :=
  match allGPUs st with
  | Arr (Obj first :: _) =>
      if truthy (scraped_at first)
      then set_last_updated (Some (scraped_at first)) st
      else st
  | _ => st
  end.

(** One turn of [gpus.forEach]: a row whose card cannot be built is
    reported on the console and left out. *)
Definition append_card (st : state) (r : row) : state :=
  match render_card r with
  | Ok c => set_gpu_grid (gpu_grid st ++ [Card c]) st
  | Throw => st
  end.

Definition renderGPUs (gpus : payload) (st : state) : completion :=
  let st := set_gpu_grid [] st in
  match gpus with
  | NotArray | Arr [] => Normal (set_gpu_grid [EmptyState] st)
  | Arr rows => Normal (fold_left append_card rows (update_last_scraped st))
  end.

Definition filterGPUs (st : state) : completion :=
  match filtered st with
  | Throw => Abrupt st
  | Ok rows => renderGPUs (Arr rows) st
  end.

(** The listener of the three filter inputs. *)
Definition on_filter_change (st : state) : state := settle (filterGPUs st).

(** *** Filter dropdowns *)

(** The first loop of [populateFilters]: the upper-cased brands, except
    a falsy brand and ['Unknown']. *)
Fixpoint collect_brands (rows : list row) (brands : list prim)
    : result (list prim) :=
  match rows with
  | [] => Ok brands
  | Nullish :: _ => Throw
  | Obj gpu :: rest =>
      if truthy (brand gpu) && negb (bool_decide (brand gpu = PStr "Unknown"))
      then try! b := as_string (brand gpu) in
           collect_brands rest (set_add (PStr (toUpperCase b)) brands)
      else collect_brands rest brands
  end.

(** The second loop: the truthy store names.  It runs after the first
    one has read a property of every row, so no row is nullish here and
    a nullish one may be passed over. *)
Fixpoint collect_stores (rows : list row) (stores : list prim) : list prim :=
  match rows with
  | [] => stores
  | Nullish :: rest => collect_stores rest stores
  | Obj gpu :: rest =>
      collect_stores rest
        (if truthy (store_name gpu) then set_add (store_name gpu) stores
         else stores)
  end.

Definition all_option (text : string) : option_el :=
  {| opt_value := "all"; opt_text := text |}.

Definition populateFilters (gpus : payload) (st : state) : completion :=
  let currentBrand := value (brand_filter st) in
  let currentStore := value (store_filter st) in
  match gpus with
  | NotArray => Abrupt st
  | Arr rows =>
      match collect_brands rows [] with
      | Throw => Abrupt st
      | Ok brands =>
          let brandSelect :=
            set_innerHTML (all_option "All Brands" :: (option_of <$> sort brands)) in
          let stores := collect_stores rows [] in
          let storeFilter :=
            set_innerHTML (all_option "All Stores" :: (option_of <$> sort stores)) in
          let brandSelect :=
            if set_has (PStr currentBrand) brands || String.eqb currentBrand "all"
            then set_value currentBrand brandSelect else brandSelect in
          let storeFilter :=
            if set_has (PStr currentStore) stores || String.eqb currentStore "all"
            then set_value currentStore storeFilter else storeFilter in
          Normal (set_store_filter storeFilter (set_brand_filter brandSelect st))
      end
  end.

(** *** 3. Main data fetching *)

Definition show_connection_error (st : state) : state :=
  set_gpu_grid [ConnectionError] st.

(** [fetchGPUs(isPolling)] at time [now], where the server answers
    [answer]: the [try] block, then the [catch]. *)
Definition fetchGPUs (isPolling : bool) (now : Z) (answer : fetched payload)
    (st : state) : state :=
  let st := send now (GetGpus now) st in
  let attempt :=
    match answer with
    | Unreachable | Malformed => Abrupt st
    | Json data =>
        let st := set_allGPUs data st in
        match populateFilters data st with
        | Abrupt st => Abrupt st
        | Normal st => renderGPUs data st
        end
    end in
  match attempt with
  | Normal st => st
  | Abrupt st => if negb isPolling then show_connection_error st else st
  end.

(** *** 2. Scrape trigger and status polling *)

(** Body of [POST /api/scrape]. *)
Record scrape_body := {
  message : prim;
  error : prim
}.

(** Body of [GET /api/status]. *)
Record status_body := {
  is_scraping : prim;
  status_message : prim
}.

(** [response.ok]. *)
Definition ok (status : Z) : bool := (200 <=? status) && (status <=? 299).

Definition POLL_INTERVAL : Z := 5000.

(** What the server answers during one run of the polling callback. *)
Record poll_answers := {
  status_answer : fetched status_body;
  gpus_answer : fetched payload
}.

(** The callback given to [setInterval], run at time [now] with both
    answers at hand and nothing else happening before it has ended
    ([Session] has the callback in the two halves around its
    [await]). *)
Definition poll (now : Z) (a : poll_answers) (st : state) : state :=
  let st := send now GetStatus st in
  match status_answer a with
  | Unreachable | Malformed => st
  | Json statusData =>
      if truthy (is_scraping statusData)
      then
        let st :=
          set_scrape {| btn_disabled := true; btn_text := "Scraping...";
                        status_text := status_message statusData;
                        status_color := "blue" |} st in
        fetchGPUs true now (gpus_answer a) st
      else
        let st := clearInterval (pollInterval st) st in
        let st := set_pollInterval None st in
        let st :=
          set_scrape {| btn_disabled := false; btn_text := "Update Stock Now";
                        status_text :=
                          or_else (status_message statusData)
                            (PStr "Scrape complete.");
                        status_color := "green" |} st in
        fetchGPUs true now (gpus_answer a) st
  end.

Definition startPolling (now : Z) (st : state) : state :=
  match pollInterval st with
  | Some _ => st
  | None =>
      let (h, st) := setInterval POLL_INTERVAL now st in
      set_pollInterval (Some h) st
  end.

(** [triggerScrape()] at time [now], where the server answers with a
    status code and a body. *)
Definition triggerScrape (now : Z) (answer : fetched (Z * scrape_body))
    (st : state) : state :=
  let storeId := scrape_store_select st in
  if String.eqb storeId "" then st else
  let st :=
    set_scrape {| btn_disabled := true; btn_text := "Starting...";
                  status_text := PStr "Initializing...";
                  status_color := "blue" |} st in
  let st := send now (PostScrape storeId) st in
  match answer with
  | Json (status, data) =>
      if ok status || (status =? 409)
      then
        let st :=
          set_scrape {| btn_disabled := btn_disabled (scrape st);
                        btn_text := btn_text (scrape st);
                        status_text := or_else (message data) (error data);
                        status_color :=
                          if ok status then "green" else "orange" |} st in
        startPolling now st
      else
        set_scrape {| btn_disabled := false; btn_text := "Update Stock Now";
                      status_text :=
                        PStr ("Error: " ++ toString (error data));
                      status_color := "red" |} st
  | Unreachable | Malformed =>
      set_scrape {| btn_disabled := false; btn_text := "Update Stock Now";
                    status_text := PStr "Connection failed.";
                    status_color := "red" |} st
  end.

(** *** The browser's timer *)

(** The timer [h] comes due at time [now]: its callback runs if the
    timer is still registered. *)
Definition fire (h : positive) (now : Z) (a : poll_answers) (st : state)
    : state :=
  if bool_decide (h ∈ handle <$> intervals st) then poll now a st else st.

End Frontend.

(* ===================================================================== *)
(** ** What the page is expected to show *)
(* ===================================================================== *)

Module Expected.
Import Js Page.

(** [needle] occurs in [text] up to the case of letters. *)
Definition contains_ci (text needle : string) : Prop :=
  ∃ pre mid post,
    text = pre ++ mid ++ post ∧ toLowerCase mid = toLowerCase needle.

(** The row's brand, put in upper case, is [b]. *)
Definition brand_uppercases_to (b : string) (g : gpu) : Prop :=
  ∃ s, brand g = PStr s ∧ toUpperCase s = b.

(** The row's model name contains [needle], whatever the case. *)
Definition model_contains (needle : string) (g : gpu) : Prop :=
  ∃ m, model_name g = PStr m ∧ contains_ci m needle.

(** The store filter: everything under ["all"], otherwise the rows of
    exactly that store, a row without a store name counting as of the
    store ["Unknown"]. *)
Definition store_selected (sel : string) (g : gpu) : Prop :=
  sel = "all" ∨ or_else (store_name g) (PStr "Unknown") = PStr sel.

(** A row as the API delivers it: an object whose model name is a
    string and whose brand is a string or missing. *)
Definition well_formed (r : row) : Prop :=
  ∃ g, r = Obj g ∧ (∃ m, model_name g = PStr m) ∧
       (truthy (brand g) = false ∨ ∃ b, brand g = PStr b).

(** A row whose brand and model name, where they are strings, are
    ASCII text. *)
Definition ascii_named (r : row) : bool :=
  match r with
  | Obj g => ascii_prim (brand g) && ascii_prim (model_name g)
  | Nullish => true
  end.

(** A row whose names can be written into the options of a dropdown:
    the brand, if it is a string, is free of markup, and the store name
    is a string free of markup, or is missing or empty. *)
Definition plain_named (r : row) : bool :=
  match r with
  | Obj g =>
      match brand g with PStr b => markup_free b | _ => true end &&
      match store_name g with
      | PStr s => markup_free s
      | v => negb (truthy v)
      end
  | Nullish => true
  end.

(** Whether a filter callback keeps a row. *)
Definition kept (keep : row → result bool) (r : row) : bool :=
  match keep r with
  | Ok b => b
  | Throw => false
  end.

(** The cards of the rows that can be rendered, in the order of the
    rows. *)
Definition cards_of (render : row → result card) (rows : list row)
    : list element :=
  flat_map (λ r, match render r with Ok c => [Card c] | Throw => [] end) rows.

(** The grid for a list of rows. *)
Definition grid_of (render : row → result card) (rows : list row)
    : list element :=
  match rows with
  | [] => [EmptyState]
  | _ => cards_of render rows
  end.

(** A field that is missing or empty shows as an "Unknown" placeholder,
    that is, as a text that includes [Unknown]; this is asked of brand,
    model name, stock status and price alike. *)
Definition unknown_placeholder (shown : prim) : Prop :=
  ∃ s, shown = PStr s ∧ includes s "Unknown" = true.

Definition renders_unknown (render : row → result card) : Prop :=
  ∀ g c, render (Obj g) = Ok c →
    (truthy (brand g) = false → unknown_placeholder (card_brand c)) ∧
    (truthy (model_name g) = false → unknown_placeholder (card_model c)) ∧
    (truthy (stock_status g) = false → unknown_placeholder (card_stock c)) ∧
    (truthy (price_usd g) = false → unknown_placeholder (card_price c)).

(** The image URL is absent, or is one of the vendor's "no image"
    markers. *)
Definition no_image (v : prim) : Prop :=
  truthy v = false ∨ v = PStr "N/A" ∨
  ∃ s, v = PStr s ∧ includes s "noimageproduct.gif" = true.

(** What a card shows for a field: the placeholder when the field is
    missing or empty, the field itself otherwise. *)
Definition shows (v : prim) (placeholder : string) (shown : prim) : Prop :=
  (truthy v = false → shown = PStr placeholder) ∧
  (truthy v = true → shown = v).

(** The placeholders of a card, and its image. *)
Definition placeholders (render : row → result card) : Prop :=
  ∀ g c, render (Obj g) = Ok c →
    shows (brand g) "Unknown" (card_brand c) ∧
    shows (stock_status g) "Unknown" (card_stock c) ∧
    shows (model_name g) "Unknown Model" (card_model c) ∧
    shows (price_usd g) "0.00" (card_price c) ∧
    shows (product_url g) "#" (card_href c) ∧
    (no_image (last_seen_image_url g) → card_image c = PStr PLACEHOLDER_URL) ∧
    (¬ no_image (last_seen_image_url g) →
     card_image c = last_seen_image_url g).

(** Rendering never throws, shows the empty state for no rows, and
    leaves out exactly the rows whose card cannot be built. *)
Definition isolates (render : row → result card)
    (renderGPUs : payload → state → completion) : Prop :=
  (∀ gpus st, ∃ st', renderGPUs gpus st = Normal st')
  ∧ (∀ st, gpu_grid (settle (renderGPUs NotArray st)) = [EmptyState])
  ∧ (∀ st, gpu_grid (settle (renderGPUs (Arr []) st)) = [EmptyState])
  ∧ (∀ pre bad post st, render bad = Throw →
       gpu_grid (settle (renderGPUs (Arr (pre ++ bad :: post)) st)) =
       cards_of render (pre ++ post))
  ∧ (∀ rows r c st, r ∈ rows → render r = Ok c →
       Card c ∈ gpu_grid (settle (renderGPUs (Arr rows) st))).

(** A failed fetch of the list always shows the connection-error
    panel. *)
Definition failure_shows_panel
    (fetch : bool → Z → fetched payload → state → state) : Prop :=
  ∀ isPolling now st,
    gpu_grid (fetch isPolling now Unreachable st) = [ConnectionError].

(** The status endpoint answers, and says a scrape is running. *)
Definition reports_running (a : Frontend.poll_answers) : Prop :=
  ∃ sd, Frontend.status_answer a = Json sd ∧
        truthy (Frontend.is_scraping sd) = true.

(** The status endpoint answers, and says no scrape is running. *)
Definition reports_idle (a : Frontend.poll_answers) : Prop :=
  ∃ sd, Frontend.status_answer a = Json sd ∧
        truthy (Frontend.is_scraping sd) = false.


(** The timers and the request log. *)
Definition timers_and_log (st : state)
    : option positive * list interval * positive * list (Z * request) :=
  (pollInterval st, intervals st, next_handle st, requests st).

(** The brands offered by the dropdown for a list of rows. *)
Definition offered_brand (rows : list row) (b : string) : Prop :=
  ∃ g s, Obj g ∈ rows ∧ brand g = PStr s ∧ s ≠ "" ∧ s ≠ "Unknown" ∧
         toUpperCase s = b.

(** The stores offered by the dropdown for a list of rows. *)
Definition offered_store (rows : list row) (s : string) : Prop :=
  ∃ g, Obj g ∈ rows ∧ store_name g = PStr s ∧ s ≠ "".

End Expected.

(* ===================================================================== *)
(** ** Sample data *)
(* ===================================================================== *)

Module Sample.
Import Js Page.

Definition blank : gpu :=
  {| product_id := PUndef; brand := PUndef; model_name := PUndef;
     price_usd := PUndef; stock_status := PUndef; product_url := PUndef;
     last_seen_image_url := PUndef; store_name := PUndef;
     scraped_at := PUndef |}.

Definition rtx4090 : gpu :=
  {| product_id := PNum 1; brand := PStr "Nvidia";
     model_name := PStr "GeForce RTX 4090"; price_usd := PStr "1599.99";
     stock_status := PStr "In Stock"; product_url := PStr "/product/1";
     last_seen_image_url := PStr "https://img/noimageproduct.gif";
     store_name := PStr "Tustin";
     scraped_at := PStr "2024-01-01 10:00:00" |}.

Definition rx7900 : gpu :=
  {| product_id := PNum 2; brand := PStr "AMD";
     model_name := PStr "Radeon RX 7900 XTX"; price_usd := PStr "999.99";
     stock_status := PStr "Sold Out"; product_url := PStr "/product/2";
     last_seen_image_url := PStr "https://img/7900.jpg";
     store_name := PStr "Dallas";
     scraped_at := PStr "2024-01-01 10:00:00" |}.

(** A row whose model name is a number: [replace] is not a function. *)
Definition broken : gpu :=
  {| product_id := PNum 3; brand := PStr "Intel";
     model_name := PNum 770; price_usd := PStr "329.99";
     stock_status := PStr "In Stock"; product_url := PStr "/product/3";
     last_seen_image_url := PNull; store_name := PStr "Tustin";
     scraped_at := PStr "2024-01-01 10:00:00" |}.

Definition all_only (text : string) : select :=
  set_innerHTML [{| opt_value := "all"; opt_text := text |}].

(** The page as it is loaded. *)
Definition fresh : state :=
  {| allGPUs := Arr []; search_input := "";
     brand_filter := all_only "All Brands";
     store_filter := all_only "All Stores";
     gpu_grid := []; last_updated := None;
     scrape_store_select := "1";
     scrape := {| btn_disabled := false; btn_text := "Update Stock Now";
                  status_text := PStr ""; status_color := "" |};
     pollInterval := None; intervals := []; next_handle := 1%positive;
     requests := [] |}.

Definition catalog : list row := [Obj rtx4090; Obj rx7900].

(** The page after the catalog has been loaded at time 0. *)
Definition loaded : state :=
  Frontend.fetchGPUs false 0 (Json (Arr catalog)) fresh.

(** Answers of the server while a scrape runs, and once it is over. *)
Definition while_scraping : Frontend.poll_answers :=
  {| Frontend.status_answer :=
       Json {| Frontend.is_scraping := PBool true;
               Frontend.status_message := PStr "Scraping store 1..." |};
     Frontend.gpus_answer := Json (Arr catalog) |}.

Definition once_done : Frontend.poll_answers :=
  {| Frontend.status_answer :=
       Json {| Frontend.is_scraping := PBool false;
               Frontend.status_message := PStr "Scrape complete." |};
     Frontend.gpus_answer := Json (Arr catalog) |}.

Definition running_status : Frontend.status_body :=
  {| Frontend.is_scraping := PBool true;
     Frontend.status_message := PStr "Scraping store 1..." |}.

Definition idle_status : Frontend.status_body :=
  {| Frontend.is_scraping := PBool false;
     Frontend.status_message := PStr "Scrape complete." |}.

(** The user types 4090 and picks the brand NVIDIA. *)
Definition searching : state :=
  {| allGPUs := allGPUs loaded; search_input := "4090";
     brand_filter := set_value "NVIDIA" (brand_filter loaded);
     store_filter := store_filter loaded;
     gpu_grid := gpu_grid loaded; last_updated := last_updated loaded;
     scrape_store_select := scrape_store_select loaded;
     scrape := scrape loaded; pollInterval := pollInterval loaded;
     intervals := intervals loaded; next_handle := next_handle loaded;
     requests := requests loaded |}.

End Sample.

(* ===================================================================== *)
(** ** Statements against the schema *)
(* ===================================================================== *)

Module Statements.
Import Schema.

(** The INSERT and DELETE statements the four tables admit. *)
Inductive stmt :=
| InsertStore (r : store_row)
| InsertGpu (r : gpu_row)
| InsertProduct (r : product_row)
| InsertHistory (r : history_row)
| DeleteProduct (pid : Z)
| DeleteProductsOfStore (sid : Z)
| DeleteStore (sid : Z)
| DeleteGpu (gid : Z).

Definition exec (s : stmt) (d : db) : outcome :=
  match s with
  | InsertStore r => insert_store r d
  | InsertGpu r => insert_gpu r d
  | InsertProduct r => insert_product r d
  | InsertHistory r => insert_history r d
  | DeleteProduct pid => delete_product pid d
  | DeleteProductsOfStore sid => delete_products (products_of_store sid d) d
  | DeleteStore sid => delete_store sid d
  | DeleteGpu gid => delete_gpu gid d
  end.

(** A script: each statement commits or is rejected, and the next one
    runs on what is there. *)
Definition exec_all (script : list stmt) (d : db) : db :=
  fold_left (λ d s, commit d (exec s d)) script d.

(** A second store, and a second listing of the same GPU there. *)
Definition dallas : store_row :=
  {| name := "Dallas"; city := "Dallas"; state := "TX" |}.

Definition listing_at (sid : Z) (sku : string) : product_row :=
  {| store_id := sid; gpu_id := 1; microcenter_sku := sku;
     product_url := None; last_seen_image_url := None |}.

Definition two_stores : db :=
  exec_all [InsertStore tustin; InsertGpu rtx4090; InsertProduct listing;
            InsertHistory (observation 50000 600);
            InsertStore dallas; InsertProduct (listing_at 2 "654321")]
    empty_db.

End Statements.

(* ===================================================================== *)
(** ** The store list of the scrape panel *)
(* ===================================================================== *)

Module Stores.
Import Js Page.

(** An element of [GET /api/stores], with the properties the script
    reads. *)
Record store := {
  id : prim;
  name : prim;
  state : prim
}.

Inductive item :=
| NullItem
| StoreObj (s : store).

(** The parsed body: an array, or another JSON value ([null]
    included), which has no [forEach]. *)
Inductive store_list :=
| NotArray
| Arr (items : list item).

(** [select.appendChild(option)]: in a dropdown that has no option yet
    the first one appended becomes the selected one. *)
Definition appendChild (o : option_el) (s : select) : select :=
  {| options := options s ++ [o];
     value := match options s with [] => opt_value o | _ => value s end |}.

(** The option built for a store: its value is the store identifier,
    its text the name and the state. *)
Definition store_option (s : store) : option_el :=
  {| opt_value := toString (id s);
     opt_text := toString (name s) ++ ", " ++ toString (state s) |}.

(** [stores.forEach(...)] on the select: the loop ends at the first
    element whose properties cannot be read, with what it has appended
    so far. *)
Fixpoint append_stores (items : list item) (scrapeSelect : select)
    : select * bool :=
  match items with
  | [] => (scrapeSelect, true)
  | NullItem :: _ => (scrapeSelect, false)
  | StoreObj s :: rest =>
      append_stores rest (appendChild (store_option s) scrapeSelect)
  end.

(** [fetchSupportedStores()] on the [scrape-store-select] element; a
    failure is reported on the console only. *)
Definition fetchSupportedStores (answer : fetched store_list)
    (scrapeSelect : select) : select :=
  match answer with
  | Unreachable | Malformed => scrapeSelect
  | Json stores =>
      let scrapeSelect := set_innerHTML [] in
      match stores with
      | NotArray => scrapeSelect
      | Arr items => (append_stores items scrapeSelect).1
      end
  end.

(** The page with the value of [scrape-store-select] read from the
    element. *)
Definition with_store_select (sel : select) (st : Page.state) : Page.state :=
  {| allGPUs := allGPUs st; search_input := search_input st;
     brand_filter := brand_filter st; store_filter := store_filter st;
     gpu_grid := gpu_grid st; last_updated := last_updated st;
     scrape_store_select := value sel; scrape := scrape st;
     pollInterval := pollInterval st; intervals := intervals st;
     next_handle := next_handle st; requests := requests st |}.

Definition tustin : store :=
  {| id := PNum 1; name := PStr "Tustin"; state := PStr "CA" |}.

Definition dallas : store :=
  {| id := PNum 2; name := PStr "Dallas"; state := PStr "TX" |}.

End Stores.

(* ===================================================================== *)
(** ** The price history dialog *)
(* ===================================================================== *)

Module History.
Import Js Page.

(** An element of [GET /api/history/<id>]. *)
Record entry := {
  price_usd : prim;
  scraped_at : prim
}.

Inductive item :=
| NullItem
| EntryObj (e : entry).

(** The parsed body: an array, or another JSON value ([null]
    included), which has no [map]. *)
Inductive history :=
| NotArray
| Arr (items : list item).

(** A chart object: the capture times behind its labels (each shown in
    the locale's format), its prices, and whether [destroy] was called
    on it. *)
Record chart := {
  labels : list prim;
  data : list prim;
  destroyed : bool
}.

(** The dialog: the [display] style of the modal, its title, the
    global [myChart], and the product identifiers asked for so far. *)
Record dialog := {
  display : string;
  title : string;
  myChart : option chart;
  asked : list prim
}.

(** [historyData.map(f)] where [f] reads a property of the element. *)
Fixpoint map_items (f : entry → prim) (items : list item)
    : result (list prim) :=
  match items with
  | [] => Ok []
  | NullItem :: _ => Throw
  | EntryObj e :: rest =>
      try! rest' := map_items f rest in Ok (f e :: rest')
  end.

(** The [try] block of [showHistory], up to the chart it builds. *)
Definition build_chart (answer : fetched history) : result chart :=
  match answer with
  | Unreachable | Malformed | Json NotArray => Throw
  | Json (Arr historyData) =>
      try! labels := map_items scraped_at historyData in
      try! prices := map_items price_usd historyData in
      Ok {| labels := labels; data := prices; destroyed := false |}
  end.

Definition destroy (c : chart) : chart :=
  {| labels := labels c; data := data c; destroyed := true |}.

(** [showHistory] is [async].  Up to its [await]: the dialog opens
    under the title of the product, the chart of the last product is
    destroyed, and the request leaves.  The same in both scripts. *)
Definition opened (productId : prim) (modelName : string) (dg : dialog)
    : dialog :=
  {| display := "block"; title := "History: " ++ modelName;
     myChart := destroy <$> myChart dg;
     asked := (asked dg ++ [productId])%list |}.

(** The chart that is drawn, if any. *)
Definition drawn (dg : dialog) : option chart :=
  match myChart dg with
  | Some c => if destroyed c then None else Some c
  | None => None
  end.

Section WithChartLibrary.

(** [new Chart(ctx, ...)] is Chart.js, which the page loads and the
    sources do not contain.  On a canvas that still carries a chart
    that was not destroyed, the versions before 3 draw over it and the
    later ones throw; [overdraws] tells which library is loaded. *)
Variable overdraws : bool.

Definition new_chart (c : chart) (dg : dialog) : result dialog :=
  if bool_decide (is_Some (drawn dg)) && negb overdraws
  then Throw
  else Ok {| display := display dg; title := title dg;
             myChart := Some c; asked := asked dg |}.

(** [showHistory] of the current script from the answer on, run on the
    dialog as it is by then: a failure is reported on the console
    only. *)
Definition answered (answer : fetched history) (dg : dialog) : dialog :=
  match try! c := build_chart answer in new_chart c dg with
  | Ok dg' => dg'
  | Throw => dg
  end.

(** [showHistory] of the first script from the answer on: a failure
    changes the title. *)
Definition answered_legacy (answer : fetched history) (dg : dialog)
    : dialog :=
  match try! c := build_chart answer in new_chart c dg with
  | Ok dg' => dg'
  | Throw => {| display := display dg; title := "Error loading history";
                myChart := myChart dg; asked := asked dg |}
  end.

End WithChartLibrary.

(** What a click lands on. *)
Inductive target :=
| OnCloseButton
| OnModal
| Elsewhere.

(** [span.onclick] and [window.onclick]: a click on the close button
    or on the backdrop (the modal element itself) hides the dialog. *)
Definition click (t : target) (dg : dialog) : dialog :=
  match t with
  | OnCloseButton | OnModal =>
      {| display := "none"; title := title dg; myChart := myChart dg;
         asked := asked dg |}
  | Elsewhere => dg
  end.

Definition closed : dialog :=
  {| display := "none"; title := ""; myChart := None; asked := [] |}.

Definition two_prices : list item :=
  [EntryObj {| price_usd := PStr "500.00";
               scraped_at := PStr "2024-01-01 10:00:00" |};
   EntryObj {| price_usd := PStr "480.00";
               scraped_at := PStr "2024-01-01 10:05:00" |}].

End History.

(* ===================================================================== *)
(** ** A visit of the page *)
(* ===================================================================== *)

Module Session.
Import Js Page.

Definition set_search_input (text : string) (st : state) : state :=
  {| allGPUs := allGPUs st; search_input := text;
     brand_filter := brand_filter st; store_filter := store_filter st;
     gpu_grid := gpu_grid st; last_updated := last_updated st;
     scrape_store_select := scrape_store_select st; scrape := scrape st;
     pollInterval := pollInterval st; intervals := intervals st;
     next_handle := next_handle st; requests := requests st |}.

Definition set_scrape_store_select (v : string) (st : state) : state :=
  {| allGPUs := allGPUs st; search_input := search_input st;
     brand_filter := brand_filter st; store_filter := store_filter st;
     gpu_grid := gpu_grid st; last_updated := last_updated st;
     scrape_store_select := v; scrape := scrape st;
     pollInterval := pollInterval st; intervals := intervals st;
     next_handle := next_handle st; requests := requests st |}.

(** *** Asynchronous calls

    [fetchGPUs], [triggerScrape] and the callback of the poll timer are
    [async]: each runs up to its [await], where its request has left,
    and goes on when the answer is there.  In between the browser runs
    whatever else comes due: listeners, timer callbacks, the answers to
    other requests.  A call is therefore two steps, and the calls that
    wait for an answer are part of the session.  ([response.json()] is
    a second [await] of the same call, during which it reads and writes
    nothing; the two are taken as one.) *)

(** What a suspended call waits for: the polling callback for the
    status, [fetchGPUs(isPolling)] for the list, [triggerScrape] for
    the answer to its request. *)
Inductive awaiting :=
| StatusBody
| GpusBody (isPolling : bool)
| ScrapeBody.

#[global] Instance awaiting_eq_dec : EqDecision awaiting.
Proof. solve_decision. Defined.

Inductive answer :=
| OfStatus (a : fetched Frontend.status_body)
| OfGpus (a : fetched payload)
| OfScrape (a : fetched (Z * Frontend.scrape_body)).

Record session := {
  page : state;
  waiting : list awaiting
}.

(** [fetchGPUs(isPolling)] up to its [await]. *)
Definition fetchGPUs_sent (now : Z) (st : state) : state :=
  send now (GetGpus now) st.

(** [fetchGPUs(isPolling)] from the answer on. *)
Definition fetchGPUs_answered (isPolling : bool) (answer : fetched payload)
    (st : state) : state :=
  let attempt :=
    match answer with
    | Unreachable | Malformed => Abrupt st
    | Json data =>
        let st := set_allGPUs data st in
        match Frontend.populateFilters data st with
        | Abrupt st => Abrupt st
        | Normal st => Frontend.renderGPUs data st
        end
    end in
  match attempt with
  | Normal st => st
  | Abrupt st =>
      if negb isPolling then Frontend.show_connection_error st else st
  end.

(** The polling callback up to its first [await]. *)
Definition poll_sent (now : Z) (st : state) : state :=
  send now GetStatus st.

(** The polling callback from the status answer on, up to the [await]
    of [fetchGPUs(true)], with the call it then waits for. *)
Definition poll_answered (now : Z) (a : fetched Frontend.status_body)
    (st : state) : state * list awaiting :=
  match a with
  | Unreachable | Malformed => (st, [])
  | Json statusData =>
      if truthy (Frontend.is_scraping statusData)
      then
        let st :=
          set_scrape {| btn_disabled := true; btn_text := "Scraping...";
                        status_text := Frontend.status_message statusData;
                        status_color := "blue" |} st in
        (fetchGPUs_sent now st, [GpusBody true])
      else
        let st := clearInterval (pollInterval st) st in
        let st := set_pollInterval None st in
        let st :=
          set_scrape {| btn_disabled := false; btn_text := "Update Stock Now";
                        status_text :=
                          or_else (Frontend.status_message statusData)
                            (PStr "Scrape complete.");
                        status_color := "green" |} st in
        (fetchGPUs_sent now st, [GpusBody true])
  end.

(** [triggerScrape()] up to its [await]; without a store it returns at
    once. *)
Definition triggerScrape_sent (now : Z) (st : state) : option state :=
  let storeId := scrape_store_select st in
  if String.eqb storeId "" then None else
  let st :=
    set_scrape {| btn_disabled := true; btn_text := "Starting...";
                  status_text := PStr "Initializing...";
                  status_color := "blue" |} st in
  Some (send now (PostScrape storeId) st).

(** [triggerScrape()] from the answer on. *)
Definition triggerScrape_answered (now : Z)
    (answer : fetched (Z * Frontend.scrape_body)) (st : state) : state :=
  match answer with
  | Json (status, data) =>
      if Frontend.ok status || (status =? 409)
      then
        let st :=
          set_scrape {| btn_disabled := btn_disabled (scrape st);
                        btn_text := btn_text (scrape st);
                        status_text :=
                          or_else (Frontend.message data) (Frontend.error data);
                        status_color :=
                          if Frontend.ok status then "green" else "orange" |}
            st in
        Frontend.startPolling now st
      else
        set_scrape {| btn_disabled := false; btn_text := "Update Stock Now";
                      status_text :=
                        PStr ("Error: " ++ toString (Frontend.error data));
                      status_color := "red" |} st
  | Unreachable | Malformed =>
      set_scrape {| btn_disabled := false; btn_text := "Update Stock Now";
                    status_text := PStr "Connection failed.";
                    status_color := "red" |} st
  end.

(** *** The event loop *)

(** What happens to the page: the script loads the list, the user
    types in the search box or picks an entry of a dropdown (which
    fires the filter listener), picks the store to scrape, asks for a
    scrape, a timer comes due, and the answer to the request of the
    [k]-th waiting call arrives. *)
Inductive event :=
| Load (now : Z)
| TypeSearch (text : string)
| PickBrand (v : string)
| PickStore (v : string)
| PickScrapeStore (v : string)
| ClickScrape (now : Z)
| Tick (h : positive) (now : Z)
| Arrive (k : nat) (now : Z) (a : answer).

Definition on_page (f : state → state) (s : session) : session :=
  {| page := f (page s); waiting := waiting s |}.

(** A call reaches its [await]. *)
Definition suspend (st : state) (w : list awaiting) (s : session) : session :=
  {| page := st; waiting := (waiting s ++ w)%list |}.

(** The [k]-th waiting call goes on with its answer. *)
Definition resume (k : nat) (now : Z) (a : answer) (s : session) : session :=
  let rest := delete k (waiting s) in
  match waiting s !! k, a with
  | Some StatusBody, OfStatus a =>
      let '(st, next) := poll_answered now a (page s) in
      {| page := st; waiting := (rest ++ next)%list |}
  | Some (GpusBody isPolling), OfGpus a =>
      {| page := fetchGPUs_answered isPolling a (page s); waiting := rest |}
  | Some ScrapeBody, OfScrape a =>
      {| page := triggerScrape_answered now a (page s); waiting := rest |}
  | _, _ => s
  end.

Definition step (e : event) (s : session) : session :=
  match e with
  | Load now => suspend (fetchGPUs_sent now (page s)) [GpusBody false] s
  | TypeSearch text =>
      on_page (λ st, Frontend.on_filter_change (set_search_input text st)) s
  | PickBrand v =>
      on_page (λ st, Frontend.on_filter_change
                       (set_brand_filter (set_value v (brand_filter st)) st)) s
  | PickStore v =>
      on_page (λ st, Frontend.on_filter_change
                       (set_store_filter (set_value v (store_filter st)) st)) s
  | PickScrapeStore v => on_page (set_scrape_store_select v) s
  | ClickScrape now =>
      match triggerScrape_sent now (page s) with
      | Some st => suspend st [ScrapeBody] s
      | None => s
      end
  | Tick h now =>
      if bool_decide (h ∈ handle <$> intervals (page s))
      then suspend (poll_sent now (page s)) [StatusBody] s
      else s
  | Arrive k now a => resume k now a s
  end.

Definition run (evs : list event) (s : session) : session :=
  fold_left (λ s e, step e s) evs s.

(** The page as it is loaded, nothing being waited for. *)
Definition at_rest (st : state) : session :=
  {| page := st; waiting := [] |}.

(** An event that starts no call: anything but a load of the list and
    a click on the scrape button. *)
Definition quiet (e : event) : bool :=
  match e with
  | Load _ | ClickScrape _ => false
  | _ => true
  end.

(** *** Polls that do not overlap *)

(** One tick of the poll timer and what the server answers to it: the
    status after [status_after] milliseconds, then the list after
    another [gpus_after]. *)
Record exchange := {
  answers : Frontend.poll_answers;
  status_after : Z;
  gpus_after : Z
}.

(** Both answers are there before the timer comes due again. *)
Definition in_time (x : exchange) : Prop :=
  0 ≤ status_after x ∧ 0 ≤ gpus_after x ∧
  status_after x + gpus_after x < Frontend.POLL_INTERVAL.

(** The tick at time [t] with nothing else waiting, and its answers. *)
Definition round (h : positive) (t : Z) (x : exchange) : list event :=
  [Tick h t;
   Arrive 0 (t + status_after x)
     (OfStatus (Frontend.status_answer (answers x)));
   Arrive 0 (t + status_after x + gpus_after x)
     (OfGpus (Frontend.gpus_answer (answers x)))].

(** The timer set at time [now] comes due every [POLL_INTERVAL], each
    tick being answered in time. *)
Fixpoint rounds (h : positive) (now : Z) (xs : list exchange) : list event :=
  match xs with
  | [] => []
  | x :: rest =>
      (round h (now + Frontend.POLL_INTERVAL) x ++
       rounds h (now + Frontend.POLL_INTERVAL) rest)%list
  end.

(** The requests of such polls: every 5000 milliseconds the status,
    and the list as soon as the status is there. *)
Fixpoint poll_log (now : Z) (xs : list exchange) : list (Z * request) :=
  match xs with
  | [] => []
  | x :: rest =>
      let t := now + 5000 in
      (t, GetStatus) ::
      (t + status_after x, GetGpus (t + status_after x)) ::
      poll_log t rest
  end.

End Session.

(* ===================================================================== *)
(** ** Further properties asked of the page *)
(* ===================================================================== *)

Module Behaviour.
Import Js Page.

(** Each string is not greater than the next. *)
Fixpoint ascending (l : list string) : Prop :=
  match l with
  | a :: (b :: _) as rest => String.ltb b a = false ∧ ascending rest
  | _ => True
  end.

(** Every apostrophe of the string has a backslash before it. *)
Definition apostrophes_escaped (s : string) : Prop :=
  ∀ pre post, s = pre ++ String "'"%char post →
    ∃ pre', pre = pre' ++ String "\"%char "".

(** A field that holds a string, or is missing or empty. *)
Definition text_or_missing (v : prim) : Prop :=
  truthy v = false ∨ ∃ s, v = PStr s.

(** The poll timer is the only timer, and [pollInterval] holds its
    handle. *)
Definition one_poll_timer (st : state) : Prop :=
  match pollInterval st with
  | None => intervals st = []
  | Some h =>
      ∃ t, intervals st =
           [{| handle := h; period := Frontend.POLL_INTERVAL; since := t |}]
  end.

(** A request for the list. *)
Definition list_request (r : Z * request) : bool :=
  match r.2 with
  | GetGpus _ => true
  | _ => false
  end.

(** The polls that wait for their status answer. *)
Definition polls_waiting (s : Session.session) : nat :=
  length (filter (λ w, w = Session.StatusBody) (Session.waiting s)).

(** Polling has stopped: no timer is left, and no scrape request
    waits for an answer that could start it again. *)
Definition stopped (s : Session.session) : Prop :=
  pollInterval (Session.page s) = None ∧
  intervals (Session.page s) = [] ∧
  Session.ScrapeBody ∉ Session.waiting s.

(** C2 as stated: once a poll has found the status idle, the list is
    fetched one last time and nothing is sent after that, whatever
    ticks and answers follow. *)
Definition one_final_refresh : Prop :=
  ∀ (s : Session.session) (k : nat) (t : Z) (sd : Frontend.status_body)
    (evs : list Session.event),
    one_poll_timer (Session.page s) →
    Session.ScrapeBody ∉ Session.waiting s →
    Session.waiting s !! k = Some Session.StatusBody →
    truthy (Frontend.is_scraping sd) = false →
    Forall (λ e, Session.quiet e = true) evs →
    requests
      (Session.page
         (Session.run evs
            (Session.step (Session.Arrive k t (Session.OfStatus (Json sd))) s)))
    = (requests (Session.page s) ++ [(t, GetGpus t)])%list.

(** The scrape panel and the timers. *)
Definition controls (st : state)
    : panel * option positive * list interval * positive :=
  (scrape st, pollInterval st, intervals st, next_handle st).

(** A fetch of the first script that came to nothing: the brand
    dropdown and [allGPUs] are as they were, and the grid shows the
    connection error. *)
Definition legacy_fetch_failed (now : Z) (answer : fetched Legacy.body)
    (st : state) : Prop :=
  brand_filter (Legacy.fetchGPUs now answer st) = brand_filter st ∧
  allGPUs (Legacy.fetchGPUs now answer st) = allGPUs st ∧
  gpu_grid (Legacy.fetchGPUs now answer st) = [ConnectionError].

(** A row whose store name is a string, or is missing or empty. *)
Definition store_named (r : row) : Prop :=
  match r with
  | Obj g => text_or_missing (store_name g)
  | Nullish => True
  end.

(** A payload the list cannot be built from: not an array, or an
    array with a [null] among its rows. *)
Definition unusable (data : payload) : Prop :=
  data = NotArray ∨ ∃ rows, data = Arr rows ∧ Nullish ∈ rows.

End Behaviour.

(* ===================================================================== *)
(** ** Facts about the schema *)
(* ===================================================================== *)

Module SchemaFacts.
Import Schema.

Lemma products_of_store_empty (sid : Z) (d : db) :
  products_of_store sid d = ∅ ↔
  ∀ pid p, products d !! pid = Some p → store_id p ≠ sid.
Proof.
  unfold products_of_store. rewrite map_empty. split.
  - intros H pid p Hp Heq.
    specialize (H pid). apply map_lookup_filter_None in H.
    destruct H as [H | H]; [congruence | by apply (H p)].
  - intros H pid. apply map_lookup_filter_None. right.
    intros p Hp. simpl. by apply (H pid).
Qed.

Example example_db_store : stores example_db !! 1 = Some tustin.
Proof. vm_compute. reflexivity. Qed.

Example example_db_product : products example_db !! 1 = Some listing.
Proof. vm_compute. reflexivity. Qed.

(** C4: a store that exists and is referenced by at least one product
    cannot be deleted: the statement is rejected and the database (the
    store row and its products included) stays as it was; a store
    without referencing products is deleted, and nothing else changes;
    so a delete that removes a store row only ever removes one that no
    product references. *)
Theorem delete_store_restrict (sid : Z) (d : db) :
  is_Some (stores d !! sid) →
  ((∃ pid p, products d !! pid = Some p ∧ store_id p = sid) →
     delete_store sid d = Rejected ForeignKeyViolation ∧
     apply_op (DeleteStore sid) d = d)
  ∧ ((∀ pid p, products d !! pid = Some p → store_id p ≠ sid) →
     delete_store sid d = Done (set_stores (delete sid (stores d)) d))
  ∧ (∀ d', delete_store sid d = Done d' →
     ∀ pid p, products d !! pid = Some p → store_id p ≠ sid).
Proof.
  intros [s Hs]. unfold apply_op, delete_store. rewrite Hs. simpl.
  destruct (decide (products_of_store sid d = ∅)) as [He | Hne].
  - pose proof (proj1 (products_of_store_empty sid d) He) as Hno.
    split; [| split].
    + intros (pid & p & Hp & Hsid). by destruct (Hno pid p Hp).
    + done.
    + intros _ _. exact Hno.
  - split; [| split].
    + done.
    + intros Hno. destruct Hne. by apply products_of_store_empty.
    + intros d' Hd. discriminate.
Qed.

Lemma delete_store_restrict_witness :
  delete_store 1 example_db = Rejected ForeignKeyViolation ∧
  apply_op (DeleteStore 1) example_db = example_db.
Proof.
  apply (delete_store_restrict 1 example_db).
  - exists tustin. vm_compute. reflexivity.
  - exists 1, listing. split; vm_compute; reflexivity.
Defined.

(** *** The product cascade and referential integrity *)

Lemma delete_product_done (pid : Z) (d : db) :
  delete_product pid d =
  Done (set_price_history
          (filter (λ kv, filter (λ kv', kv'.1 = pid) (products d)
                           !! product_id kv.2 = None) (price_history d))
          (set_products
             (products d ∖ filter (λ kv', kv'.1 = pid) (products d)) d)).
Proof. reflexivity. Qed.

Lemma doomed_lookup (pid k : Z) (m : gmap Z product_row) :
  filter (λ kv : Z * product_row, kv.1 = pid) m !! k =
  if decide (k = pid) then m !! k else None.
Proof.
  case_decide as Hk.
  - destruct (m !! k) as [p |] eqn:Hp.
    + by apply map_lookup_filter_Some.
    + apply map_lookup_filter_None. by left.
  - apply map_lookup_filter_None. right. intros p _. exact Hk.
Qed.

Lemma delete_product_products (pid k : Z) (d : db) :
  products (commit d (delete_product pid d)) !! k =
  if decide (k = pid) then None else products d !! k.
Proof.
  rewrite delete_product_done. simpl.
  rewrite lookup_difference, doomed_lookup.
  case_decide; [| done]. by destruct (products d !! k).
Qed.

Lemma delete_product_history (pid k : Z) (h : history_row) (d : db) :
  price_history (commit d (delete_product pid d)) !! k = Some h ↔
  price_history d !! k = Some h ∧
  (product_id h = pid → products d !! pid = None).
Proof.
  rewrite delete_product_done. simpl.
  rewrite map_lookup_filter_Some. simpl. rewrite doomed_lookup.
  case_decide; naive_solver.
Qed.

Lemma insert_is_Some_mono {A} (m : gmap Z A) (i j : Z) (x : A) :
  is_Some (m !! j) → is_Some (<[i := x]> m !! j).
Proof. rewrite lookup_insert_is_Some'. auto. Qed.

Lemma upsert_store_keeps (r : store_row) (d : db) :
  let d' := (upsert_store r d).2 in
  products d' = products d ∧ price_history d' = price_history d ∧
  gpus d' = gpus d ∧ ∀ k, is_Some (stores d !! k) → is_Some (stores d' !! k).
Proof.
  unfold upsert_store, insert_store.
  destruct (find_key _ _); simpl; [done |].
  destruct (stores d !! next_store_id d); simpl; [done |].
  repeat split. intros k. apply insert_is_Some_mono.
Qed.

Lemma upsert_gpu_keeps (r : gpu_row) (d : db) :
  let d' := (upsert_gpu r d).2 in
  products d' = products d ∧ price_history d' = price_history d ∧
  stores d' = stores d ∧ ∀ k, is_Some (gpus d !! k) → is_Some (gpus d' !! k).
Proof.
  unfold upsert_gpu, insert_gpu.
  destruct (find_key _ _); simpl; [done |].
  destruct (gpus d !! next_gpu_id d); simpl; [done |].
  repeat split. intros k. apply insert_is_Some_mono.
Qed.

Lemma upsert_product_keeps (r : product_row) (d : db) :
  let d' := (upsert_product r d).2 in
  stores d' = stores d ∧ gpus d' = gpus d ∧
  price_history d' = price_history d ∧
  (∀ k, is_Some (products d !! k) → is_Some (products d' !! k)) ∧
  (∀ k p', products d' !! k = Some p' →
     (∃ p, products d !! k = Some p ∧
           store_id p' = store_id p ∧ gpu_id p' = gpu_id p) ∨
     (is_Some (stores d !! store_id p') ∧ is_Some (gpus d !! gpu_id p'))).
Proof.
  unfold upsert_product, insert_product.
  destruct (find_key _ (products d)) as [k0 |]; simpl.
  - repeat split.
    + intros k. rewrite lookup_alter_is_Some. auto.
    + intros k p'. rewrite lookup_alter_Some.
      intros [(-> & p & Hp & ->) | (_ & Hp)]; left; eauto.
  - destruct (stores d !! store_id r) eqn:Hs; simpl; [| naive_solver].
    destruct (gpus d !! gpu_id r) eqn:Hg; simpl; [| naive_solver].
    destruct (products d !! next_product_id d) eqn:Hn; simpl; [naive_solver |].
    repeat split.
    + intros k. apply insert_is_Some_mono.
    + intros k p'. rewrite lookup_insert_Some.
      intros [(_ & <-) | (_ & Hp)]; [right | left]; eauto.
Qed.

Lemma apply_op_integrity (o : op) (d : db) :
  ref_integrity d → ref_integrity (apply_op o d).
Proof.
  intros [Hh Hp]. destruct o as [r | r | r | r | pid | sid | gid]; cbn [apply_op].
  - destruct (upsert_store_keeps r d) as (Ep & Eh & Eg & Hs).
    split; intros k x; rewrite ?Eh, ?Ep, ?Eg; [by apply Hh |].
    intros Hx. destruct (Hp k x Hx). auto.
  - destruct (upsert_gpu_keeps r d) as (Ep & Eh & Es & Hg).
    split; intros k x; rewrite ?Eh, ?Ep, ?Es; [by apply Hh |].
    intros Hx. destruct (Hp k x Hx). auto.
  - destruct (upsert_product_keeps r d) as (Es & Eg & Eh & Hmono & Hnew).
    split; intros k x; rewrite ?Eh, ?Es, ?Eg.
    + intros Hx. apply Hmono. by apply (Hh k).
    + intros Hx. destruct (Hnew k x Hx) as [(p & Hk & -> & ->) | ?]; [| done].
      by apply (Hp k).
  - unfold insert_history.
    destruct (products d !! product_id r) eqn:Hr; simpl; [| done].
    destruct (price_history d !! next_history_id d) eqn:Hn; simpl; [done |].
    split; [| done]. intros k x. simpl. rewrite lookup_insert_Some.
    intros [(_ & <-) | (_ & Hx)]; [by rewrite Hr | by apply (Hh k)].
  - split.
    + intros k x Hx. apply delete_product_history in Hx as [Hx Hdead].
      rewrite delete_product_products.
      destruct (Hh k x Hx) as [p Hprod]. case_decide as Hk; [| by eauto].
      rewrite Hk, (Hdead Hk) in Hprod. done.
    + intros k p. rewrite delete_product_products.
      case_decide; [done |]. rewrite delete_product_done. simpl. apply Hp.
  - unfold delete_store. destruct (stores d !! sid) eqn:Hs; simpl; [| done].
    destruct (decide (products_of_store sid d = ∅)) as [He | ?]; simpl; [| done].
    split; [done |]. intros k p Hk. simpl.
    destruct (Hp k p Hk) as [Hst Hg]. split; [| done].
    rewrite lookup_delete_ne; [done |].
    intros Heq. by eapply (proj1 (products_of_store_empty sid d) He k p).
  - unfold delete_gpu. destruct (gpus d !! gid) eqn:Hs; simpl; [| done].
    destruct (decide (products_of_gpu gid d = ∅)) as [He | ?]; simpl; [| done].
    split; [done |]. intros k p Hk. simpl.
    destruct (Hp k p Hk) as [Hst Hg]. split; [done |].
    rewrite lookup_delete_ne; [done |].
    intros Heq. unfold products_of_gpu in He.
    by eapply (map_filter_empty_not_lookup _ _ k p He).
Qed.

Lemma run_integrity (ops : list op) (d : db) :
  ref_integrity d → ref_integrity (run ops d).
Proof.
  revert d. induction ops as [| o ops IH]; intros d Hd; [done |].
  apply IH. by apply apply_op_integrity.
Qed.

Lemma empty_db_integrity : ref_integrity empty_db.
Proof. split; intros k x; simpl; by rewrite lookup_empty. Qed.

Lemma history_row_fate (o : op) (d : db) (k : Z) (h : history_row) :
  price_history d !! k = Some h →
  price_history (apply_op o d) !! k = Some h ∨
  (o = DeleteProduct (product_id h) ∧
   price_history (apply_op o d) !! k = None).
Proof.
  intros Hk. destruct o as [r | r | r | r | pid | sid | gid]; cbn [apply_op].
  - left. destruct (upsert_store_keeps r d) as (_ & -> & _). done.
  - left. destruct (upsert_gpu_keeps r d) as (_ & -> & _). done.
  - left. destruct (upsert_product_keeps r d) as (_ & _ & -> & _). done.
  - left. unfold insert_history.
    destruct (products d !! product_id r); simpl; [| done].
    destruct (price_history d !! next_history_id d) eqn:Hn; simpl; [done |].
    rewrite lookup_insert_ne; [done | congruence].
  - destruct (decide (product_id h = pid ∧ is_Some (products d !! pid)))
      as [[<- Hsome] | Hnot].
    + right. split; [done |].
      apply eq_None_not_Some. intros [h' Hh'].
      apply delete_product_history in Hh' as [Hh' Hdead].
      assert (h' = h) as -> by congruence.
      rewrite Hdead in Hsome; [by destruct Hsome | done].
    + left. apply delete_product_history. split; [done |].
      intros Heq. apply eq_None_not_Some. intros ?. by apply Hnot.
  - left. unfold delete_store. destruct (stores d !! sid); simpl; [| done].
    by destruct (decide (products_of_store sid d = ∅)).
  - left. unfold delete_gpu. destruct (gpus d !! gid); simpl; [| done].
    by destruct (decide (products_of_gpu gid d = ∅)).
Qed.

(** C5: deleting an existing product succeeds, removes the product and
    exactly its price_history rows; after any sequence of write
    operations on the empty database every price_history row references
    an existing product (and every product an existing store and GPU);
    and a price_history row that exists before an operation is still
    there, unchanged, after it, unless the operation deleted the row's
    own product: no upsert, append, store deletion or GPU deletion
    updates or deletes a history row. *)
Theorem product_delete_cascade :
  (∀ pid d, is_Some (products d !! pid) →
     ∃ d', delete_product pid d = Done d' ∧
           products d' !! pid = None ∧
           ∀ k h, price_history d' !! k = Some h ↔
                  price_history d !! k = Some h ∧ product_id h ≠ pid)
  ∧ (∀ ops, ref_integrity (run ops empty_db))
  ∧ (∀ o d k h, price_history d !! k = Some h →
       price_history (apply_op o d) !! k = Some h ∨
       (o = DeleteProduct (product_id h) ∧
        price_history (apply_op o d) !! k = None)).
Proof.
  split; [| split].
  - intros pid d Hpid. exists (commit d (delete_product pid d)).
    split; [by rewrite delete_product_done |]. split.
    + rewrite delete_product_products. by case_decide.
    + intros k h. rewrite delete_product_history.
      split; intros [Hk Hne]; (split; [done |]).
      * intros Heq. rewrite (Hne Heq) in Hpid. by destruct Hpid.
      * intros Heq. done.
  - intros ops. apply run_integrity, empty_db_integrity.
  - apply history_row_fate.
Qed.

Lemma product_delete_cascade_witness :
  ∃ d', delete_product 1 example_db = Done d' ∧
        products d' !! 1 = None ∧
        ∀ k h, price_history d' !! k = Some h ↔
               price_history example_db !! k = Some h ∧ product_id h ≠ 1.
Proof.
  apply (proj1 product_delete_cascade 1 example_db).
  exists listing. vm_compute. reflexivity.
Defined.

Example example_db_history_after_delete :
  price_history (apply_op (DeleteProduct 1) example_db) = ∅ ∧
  size (price_history example_db) = 2%nat.
Proof. split; vm_compute; reflexivity. Qed.

End SchemaFacts.

(* ===================================================================== *)
(** ** Facts about the job controller *)
(* ===================================================================== *)

Module ControllerFacts.
Import Controller.

Section WithStartMessage.

Variable start_message : Z → string.

Lemma step_consistent (e : event) (w : world) :
  consistent w → consistent (step start_message e w).2.
Proof.
  unfold consistent. destruct w as [[ph msg] js], e as [sid | m |]; simpl.
  - destruct ph; simpl; [| done]. intros ->. by exists sid.
  - destruct ph; simpl.
    + intros ->. done.
    + intros [j ->]. done.
  - done.
Qed.

Lemma run_consistent (evs : list event) (w : world) :
  consistent w → consistent (run start_message evs w).
Proof.
  revert w. induction evs as [| e evs IH]; intros w Hw; [done |].
  simpl. apply IH. by apply step_consistent.
Qed.

Lemma consistent_at_most_one (w : world) :
  consistent w → (length (jobs w) ≤ 1)%nat.
Proof.
  unfold consistent. destruct (is_scraping (ctl w)).
  - intros ->. simpl. lia.
  - intros [j ->]. simpl. lia.
Qed.

Lemma triggers_while_running (sids : list Z) (msg : string) (js : list Z) :
  run start_message (Trigger <$> sids)
    {| ctl := {| is_scraping := Running; message := msg |}; jobs := js |} =
  {| ctl := {| is_scraping := Running; message := msg |}; jobs := js |}.
Proof. induction sids as [| sid sids IH]; [done |]. simpl. exact IH. Qed.

(** C1: whatever requests and completions arrive, at most one scrape
    task is running at any time.  A trigger that finds the slot Running
    is answered "already in progress" (status 409) and changes nothing:
    no task is added, the running task stays, the message stays, and
    this holds for any number of such triggers, until the task
    completes.  A trigger that finds the slot Idle sets it to Running,
    spawns the task and answers at once, with the task still running. *)
Theorem single_scrape_job :
  (∀ evs, (length (jobs (run start_message evs initial)) ≤ 1)%nat)
  ∧ (∀ sid msg js,
       trigger start_message sid
         {| ctl := {| is_scraping := Running; message := msg |}; jobs := js |} =
       (AlreadyInProgress,
        {| ctl := {| is_scraping := Running; message := msg |}; jobs := js |}))
  ∧ report start_message AlreadyInProgress = "already in progress"
  ∧ status_code AlreadyInProgress = 409
  ∧ (∀ sids msg js,
       run start_message (Trigger <$> sids)
         {| ctl := {| is_scraping := Running; message := msg |}; jobs := js |} =
       {| ctl := {| is_scraping := Running; message := msg |}; jobs := js |})
  ∧ (∀ sid msg js,
       trigger start_message sid
         {| ctl := {| is_scraping := Idle; message := msg |}; jobs := js |} =
       (Started sid,
        {| ctl := {| is_scraping := Running; message := start_message sid |};
           jobs := js ++ [sid] |})).
Proof.
  repeat split.
  - intros evs. apply consistent_at_most_one, run_consistent. reflexivity.
  - apply triggers_while_running.
Qed.

End WithStartMessage.

(** Two triggers in a row, then the completion of the first job, then a
    third trigger. *)
Example two_triggers :
  let started sid := String.append "scraping store " (Js.toString (Js.PNum sid)) in
  let w1 := run started [Trigger 1; Trigger 2] initial in
  let w2 := run started [Trigger 1; Trigger 2; Complete "done: 12 listings"] initial in
  jobs w1 = [1] ∧ message (ctl w1) = "scraping store 1" ∧
  jobs w2 = [] ∧ message (ctl w2) = "done: 12 listings" ∧
  (step started (Trigger 3) w2).1 = Some (Started 3).
Proof. vm_compute. repeat split. Qed.

End ControllerFacts.

(* ===================================================================== *)
(** ** Facts about strings, sets and sorting *)
(* ===================================================================== *)

Module JsFacts.
Import Js.

Lemma append_cons (c : ascii) (a b : string) :
  (String c a ++ b)%string = String c (a ++ b)%string.
Proof. reflexivity. Qed.

Lemma append_nil (b : string) : ("" ++ b)%string = b.
Proof. reflexivity. Qed.

Lemma prefix_app (t s : string) :
  String.prefix t s = true ↔ ∃ post, s = (t ++ post)%string.
Proof.
  revert s. induction t as [| c t IH]; intros s.
  - split; [intros _; by exists s | by destruct s].
  - destruct s as [| d s]; simpl.
    + split; [done | intros [post Hpost]; discriminate].
    + setoid_rewrite append_cons.
      destruct (ascii_dec c d) as [-> | Hne].
      * rewrite IH. split; intros [post Hpost]; exists post; congruence.
      * split; [done | intros [post Hpost]; congruence].
Qed.

Lemma includes_app (s t : string) :
  includes s t = true ↔ ∃ pre post, s = (pre ++ t ++ post)%string.
Proof.
  induction s as [| c s IH]; cbn [includes].
  - rewrite orb_false_r, prefix_app. split.
    + intros [post Hpost]. by exists "", post.
    + intros (pre & post & Heq).
      destruct pre; [eauto | rewrite append_cons in Heq; done].
  - rewrite orb_true_iff, prefix_app, IH. split.
    + intros [[post Hpost] | (pre & post & Heq)].
      * by exists "", post.
      * exists (String c pre), post. rewrite append_cons. congruence.
    + intros (pre & post & Heq). destruct pre as [| d pre].
      * left. eauto.
      * right. exists pre, post. rewrite append_cons in Heq. congruence.
Qed.

Lemma map_string_app (f : ascii → ascii) (a b : string) :
  map_string f (a ++ b) = (map_string f a ++ map_string f b)%string.
Proof.
  induction a as [| c a IH]; [done |].
  rewrite append_cons. simpl. rewrite append_cons. congruence.
Qed.

Lemma map_string_split (f : ascii → ascii) (s a b : string) :
  map_string f s = (a ++ b)%string →
  ∃ a' b', s = (a' ++ b')%string ∧ map_string f a' = a ∧ map_string f b' = b.
Proof.
  revert s. induction a as [| c a IH]; intros s Heq.
  - by exists "", s.
  - rewrite append_cons in Heq.
    destruct s as [| d s]; simpl in Heq; [done |].
    injection Heq as Hc Hs. destruct (IH s Hs) as (a' & b' & -> & Ha & Hb).
    exists (String d a'), b'. rewrite append_cons. simpl. by rewrite Hc, Ha.
Qed.

(** [text.toLowerCase().includes(needle.toLowerCase())] is containment
    up to case. *)
Lemma includes_lower (text needle : string) :
  includes (toLowerCase text) (toLowerCase needle) = true ↔
  ∃ pre mid post,
    text = (pre ++ mid ++ post)%string ∧
    toLowerCase mid = toLowerCase needle.
Proof.
  rewrite includes_app. unfold toLowerCase. split.
  - intros (pre & post & Heq).
    apply map_string_split in Heq as (pre' & rest & -> & Hpre & Hrest).
    apply map_string_split in Hrest as (mid & post' & -> & Hmid & Hpost).
    by exists pre', mid, post'.
  - intros (pre & mid & post & -> & Hmid).
    exists (map_string lower_ascii pre), (map_string lower_ascii post).
    by rewrite !map_string_app, Hmid.
Qed.

Lemma elem_of_set_add (x v : prim) (s : list prim) :
  x ∈ set_add v s ↔ x = v ∨ x ∈ s.
Proof.
  unfold set_add. case_decide.
  - naive_solver.
  - rewrite elem_of_app, list_elem_of_singleton. naive_solver.
Qed.

Lemma elem_of_insert_sorted (x v : prim) (l : list prim) :
  x ∈ insert_sorted v l ↔ x = v ∨ x ∈ l.
Proof.
  induction l as [| y l IH]; simpl.
  - rewrite list_elem_of_singleton. set_solver.
  - destruct (String.ltb _ _).
    + by rewrite elem_of_cons.
    + rewrite !elem_of_cons, IH. naive_solver.
Qed.

Lemma elem_of_sort_from (x : prim) (l acc : list prim) :
  x ∈ fold_left (λ acc v, insert_sorted v acc) l acc ↔ x ∈ l ∨ x ∈ acc.
Proof.
  revert acc. induction l as [| y l IH]; intros acc; simpl.
  - set_solver.
  - rewrite IH, elem_of_insert_sorted, elem_of_cons. naive_solver.
Qed.

Lemma elem_of_sort (x : prim) (l : list prim) : x ∈ sort l ↔ x ∈ l.
Proof. unfold sort. rewrite elem_of_sort_from. set_solver. Qed.

Example sort_brands :
  sort [PStr "NVIDIA"; PStr "AMD"; PStr "INTEL"] =
  [PStr "AMD"; PStr "INTEL"; PStr "NVIDIA"].
Proof. reflexivity. Qed.

Example upper_lower :
  toUpperCase "Nvidia" = "NVIDIA" ∧ toLowerCase "GeForce RTX 4090" = "geforce rtx 4090".
Proof. split; reflexivity. Qed.

Example escape_example : escape_quotes "Bob's" = String.append "Bob\" "'s".
Proof. reflexivity. Qed.

End JsFacts.

(* ===================================================================== *)
(** ** Facts about rendering *)
(* ===================================================================== *)

Module RenderFacts.
Import Js Page Expected.
Local Open Scope list_scope.

(** Appending cards touches the grid only, and only at its end. *)
Ltac fold_cards append :=
  let rows := fresh "rows" in
  let st := fresh "st" in
  let r := fresh "r" in
  let IH := fresh "IH" in
  intros rows; induction rows as [| r rows IH]; intros st; simpl;
  [ by rewrite app_nil_r
  | rewrite IH; unfold append;
    destruct (_ r); simpl; [by rewrite <- app_assoc | done] ].

Lemma fold_append_card :
  ∀ rows st,
    gpu_grid (fold_left Frontend.append_card rows st) =
    gpu_grid st ++ cards_of Frontend.render_card rows.
Proof. fold_cards Frontend.append_card. Qed.

Lemma legacy_fold_append_card :
  ∀ rows st,
    gpu_grid (fold_left Legacy.append_card rows st) =
    gpu_grid st ++ cards_of Legacy.render_card rows.
Proof. fold_cards Legacy.append_card. Qed.

Lemma update_last_scraped_grid (st : state) :
  gpu_grid (Frontend.update_last_scraped st) = gpu_grid st.
Proof.
  unfold Frontend.update_last_scraped.
  destruct (allGPUs st) as [| [| [| g] ?]]; try done.
  by destruct (truthy (scraped_at g)).
Qed.

Lemma legacy_update_last_scraped_grid (st : state) :
  gpu_grid (Legacy.update_last_scraped st) = gpu_grid st.
Proof.
  unfold Legacy.update_last_scraped.
  destruct (allGPUs st) as [| [| [| g] ?]]; try done.
  by destruct (truthy (scraped_at g)).
Qed.

Lemma renderGPUs_grid (gpus : payload) (st : state) :
  ∃ st', Frontend.renderGPUs gpus st = Normal st' ∧
         gpu_grid st' =
         grid_of Frontend.render_card
           (match gpus with Arr rows => rows | NotArray => [] end).
Proof.
  destruct gpus as [| [| r rows]].
  - eexists. split; [reflexivity | done].
  - eexists. split; [reflexivity | done].
  - exists (fold_left Frontend.append_card (r :: rows)
              (Frontend.update_last_scraped (set_gpu_grid [] st))).
    split; [reflexivity |].
    rewrite fold_append_card, update_last_scraped_grid. done.
Qed.

Lemma legacy_renderGPUs_grid (gpus : payload) (st : state) :
  ∃ st', Legacy.renderGPUs gpus st = Normal st' ∧
         gpu_grid st' =
         grid_of Legacy.render_card
           (match gpus with Arr rows => rows | NotArray => [] end).
Proof.
  destruct gpus as [| [| r rows]].
  - eexists. split; [reflexivity | done].
  - eexists. split; [reflexivity | done].
  - exists (fold_left Legacy.append_card (r :: rows)
              (Legacy.update_last_scraped (set_gpu_grid [] st))).
    split; [reflexivity |].
    rewrite legacy_fold_append_card, legacy_update_last_scraped_grid. done.
Qed.

Lemma settled_grid (rows : list row) (st : state) :
  gpu_grid (settle (Frontend.renderGPUs (Arr rows) st)) =
  grid_of Frontend.render_card rows.
Proof.
  destruct (renderGPUs_grid (Arr rows) st) as (st' & -> & Hg). exact Hg.
Qed.

Lemma legacy_settled_grid (rows : list row) (st : state) :
  gpu_grid (settle (Legacy.renderGPUs (Arr rows) st)) =
  grid_of Legacy.render_card rows.
Proof.
  destruct (legacy_renderGPUs_grid (Arr rows) st) as (st' & -> & Hg).
  exact Hg.
Qed.

Lemma cards_of_app (render : row → result card) (a b : list row) :
  cards_of render (a ++ b) = cards_of render a ++ cards_of render b.
Proof. unfold cards_of. by rewrite flat_map_app. Qed.

Lemma cards_of_skip (render : row → result card) (pre post : list row)
    (bad : row) :
  render bad = Throw →
  cards_of render (pre ++ bad :: post) = cards_of render (pre ++ post).
Proof.
  intros Hbad. rewrite !cards_of_app. f_equal.
  unfold cards_of. simpl. by rewrite Hbad.
Qed.

Lemma cards_of_elem (render : row → result card) (rows : list row)
    (r : row) (c : card) :
  r ∈ rows → render r = Ok c → Card c ∈ cards_of render rows.
Proof.
  intros Hr Hc. unfold cards_of. apply list_elem_of_In, in_flat_map.
  exists r. split; [by apply list_elem_of_In |]. rewrite Hc. by left.
Qed.

Lemma isolates_from (render : row → result card)
    (renderGPUs : payload → state → completion) :
  (∀ gpus st, ∃ st', renderGPUs gpus st = Normal st' ∧
     gpu_grid st' =
     grid_of render (match gpus with Arr rows => rows | NotArray => [] end)) →
  isolates render renderGPUs.
Proof.
  intros H. repeat split.
  - intros gpus st. destruct (H gpus st) as (st' & -> & _). eauto.
  - intros st. destruct (H NotArray st) as (st' & -> & Hg). exact Hg.
  - intros st. destruct (H (Arr []) st) as (st' & -> & Hg). exact Hg.
  - intros pre bad post st Hbad.
    destruct (H (Arr (pre ++ bad :: post)) st) as (st' & -> & Hg).
    simpl. rewrite Hg.
    rewrite <- (cards_of_skip render pre post bad Hbad).
    by destruct pre.
  - intros rows r c st Hr Hc. destruct (H (Arr rows) st) as (st' & -> & Hg).
    simpl. rewrite Hg.
    destruct rows as [| r0 rows]; [by apply elem_of_nil in Hr |].
    by apply (cards_of_elem render (r0 :: rows) r c).
Qed.

(** C10: in both scripts [renderGPUs] always completes; for a value
    that is not an array and for the empty array the grid holds the
    empty-state message and nothing else; a row whose card cannot be
    built is left out, the grid being the cards of the other rows in
    their order; and every row whose card can be built has its card in
    the grid. *)
Theorem render_isolates_rows :
  isolates Frontend.render_card Frontend.renderGPUs ∧
  isolates Legacy.render_card Legacy.renderGPUs.
Proof.
  split; apply isolates_from.
  - apply renderGPUs_grid.
  - apply legacy_renderGPUs_grid.
Qed.

Lemma render_isolates_rows_witness :
  gpu_grid (settle (Frontend.renderGPUs
    (Arr ([Obj Sample.rtx4090] ++ Obj Sample.broken :: [Obj Sample.rx7900]))
    Sample.fresh)) =
  cards_of Frontend.render_card ([Obj Sample.rtx4090] ++ [Obj Sample.rx7900]).
Proof.
  apply (proj1 render_isolates_rows). reflexivity.
Defined.

Example broken_row_skipped :
  length (gpu_grid (settle (Frontend.renderGPUs
    (Arr [Obj Sample.rtx4090; Obj Sample.broken; Nullish; Obj Sample.rx7900])
    Sample.fresh))) = 2%nat.
Proof. reflexivity. Qed.

(** *** Placeholders *)

Lemma shows_or_else (v : prim) (placeholder : string) :
  shows v placeholder (or_else v (PStr placeholder)).
Proof. unfold shows, or_else. by destruct (truthy v). Qed.

Lemma image_of_spec (v img : prim) :
  image_of v = Ok img →
  (no_image v → img = PStr PLACEHOLDER_URL) ∧ (¬ no_image v → img = v).
Proof.
  unfold image_of, no_image.
  destruct (truthy v) eqn:Ht; simpl; [| intros [= <-]; naive_solver].
  case_bool_decide as Hna; simpl; [intros [= <-]; naive_solver |].
  destruct v as [| | b | z | s]; simpl; try done.
  destruct (includes s "noimageproduct.gif") eqn:Hinc; intros [= <-].
  - naive_solver.
  - split; [| done]. intros [? | [? | (s' & [= <-] & Hs')]]; congruence.
Qed.

Ltac card_fields :=
  let g := fresh "g" in
  let c := fresh "c" in
  let H := fresh "H" in
  let img := fresh "img" in
  let Himg := fresh "Himg" in
  intros g c H; simpl in H;
  destruct (image_of (last_seen_image_url g)) as [img |] eqn:Himg;
    simpl in H; [| done];
  destruct (as_string _); simpl in H; [| done];
  injection H as <-; simpl;
  repeat split; try (apply shows_or_else);
    by apply (image_of_spec _ _ Himg).

Lemma frontend_placeholders : placeholders Frontend.render_card.
Proof. card_fields. Qed.

Lemma legacy_placeholders : placeholders Legacy.render_card.
Proof. card_fields. Qed.

(** C6, as the scripts have it: a card is a function of its row alone,
    and the grid a function of the rows alone.  A missing or empty
    brand and stock status show as ["Unknown"], a missing model name as
    ["Unknown Model"], a missing price as ["0.00"], a missing product
    link as ["#"] and, in the current script, a missing store as
    ["Unknown Store"]; a field that is present shows as it is.  The
    image is the placeholder image exactly when the row's image URL is
    missing or empty, is ["N/A"] or includes [noimageproduct.gif], and
    is the row's own URL otherwise. *)
Theorem card_placeholders :
  placeholders Frontend.render_card
  ∧ placeholders Legacy.render_card
  ∧ (∀ g c, Frontend.render_card (Obj g) = Ok c →
       ∃ s, card_store c = Some s ∧ shows (store_name g) "Unknown Store" s)
  ∧ (∀ rows st,
       gpu_grid (settle (Frontend.renderGPUs (Arr rows) st)) =
       grid_of Frontend.render_card rows)
  ∧ (∀ rows st,
       gpu_grid (settle (Legacy.renderGPUs (Arr rows) st)) =
       grid_of Legacy.render_card rows).
Proof.
  split; [apply frontend_placeholders |].
  split; [apply legacy_placeholders |].
  split; [| split].
  - intros g c H. simpl in H.
    destruct (image_of _); simpl in H; [| done].
    destruct (as_string _); simpl in H; [| done].
    injection H as <-. simpl. eexists. split; [done |].
    apply shows_or_else.
  - apply settled_grid.
  - apply legacy_settled_grid.
Qed.

Lemma card_placeholders_witness :
  ∃ c, Frontend.render_card (Obj Sample.blank) = Ok c ∧
       shows (brand Sample.blank) "Unknown" (card_brand c) ∧
       shows (stock_status Sample.blank) "Unknown" (card_stock c) ∧
       shows (model_name Sample.blank) "Unknown Model" (card_model c) ∧
       shows (price_usd Sample.blank) "0.00" (card_price c).
Proof.
  eexists. split; [reflexivity |].
  pose proof (proj1 card_placeholders Sample.blank _ eq_refl) as H.
  repeat split; apply H.
Defined.

(** C6, as stated, fails on the price: the card of a row without a
    price shows ["0.00"], in which no [Unknown] occurs. *)
Lemma price_placeholder_differs : ¬ renders_unknown Frontend.render_card.
Proof.
  intros H.
  destruct (H Sample.blank _ eq_refl) as (_ & _ & _ & Hprice).
  destruct (Hprice eq_refl) as (s & [= <-] & Hs). discriminate Hs.
Qed.

Example blank_card :
  Frontend.render_card (Obj Sample.blank) =
  Ok {| card_image := PStr PLACEHOLDER_URL; card_brand := PStr "Unknown";
        card_store := Some (PStr "Unknown Store");
        card_model := PStr "Unknown Model"; card_price := PStr "0.00";
        card_stock_class := "stock-out"; card_stock := PStr "Unknown";
        card_history_id := PUndef; card_history_name := "Unknown Model";
        card_href := PStr "#" |}.
Proof. reflexivity. Qed.

End RenderFacts.

(* ===================================================================== *)
(** ** Facts about the filter *)
(* ===================================================================== *)

Module FilterFacts.
Import Js Page Expected.
Local Open Scope list_scope.

Lemma filter_rows_total (keep : row → result bool) (rows : list row) :
  Forall (λ r, ∃ b, keep r = Ok b) rows →
  Frontend.filter_rows keep rows = Ok (List.filter (kept keep) rows).
Proof.
  induction 1 as [| r rows [b Hb] _ IH]; [done |].
  simpl. unfold kept at 1. rewrite Hb, IH. simpl. by destruct b.
Qed.

Lemma legacy_filter_rows_total (keep : row → result bool) (rows : list row) :
  Forall (λ r, ∃ b, keep r = Ok b) rows →
  Legacy.filter_rows keep rows = Ok (List.filter (kept keep) rows).
Proof.
  induction 1 as [| r rows [b Hb] _ IH]; [done |].
  simpl. unfold kept at 1. rewrite Hb, IH. simpl. by destruct b.
Qed.

Lemma string_eqb_true (a b : string) : String.eqb a b = true ↔ a = b.
Proof. apply String.eqb_eq. Qed.

(** The brand test of the callback, for a brand the dropdown can
    offer. *)
Lemma brand_match (g : gpu) (sel : string) :
  sel ≠ "all" → sel ≠ "UNKNOWN" → sel ≠ "" →
  truthy (brand g) = false ∨ (∃ b, brand g = PStr b) →
  ∃ b, as_string (or_else (brand g) (PStr "Unknown")) = Ok b ∧
       (String.eqb sel "all" || String.eqb (toUpperCase b) sel = true ↔
        brand_uppercases_to sel g).
Proof.
  intros Hall Hunk Hempty Hwf. unfold or_else, brand_uppercases_to.
  apply String.eqb_neq in Hall. rewrite Hall. simpl.
  destruct (truthy (brand g)) eqn:Ht.
  - destruct Hwf as [? | [b Hb]]; [done |]. rewrite Hb. simpl.
    exists b. split; [done |]. rewrite string_eqb_true. split.
    + intros Hup. by exists b.
    + intros (s & [= <-] & Hup). done.
  - exists "Unknown". split; [done |]. rewrite string_eqb_true. split.
    + intros Hup. by destruct Hunk.
    + intros (s & Hs & Hup). rewrite Hs in Ht. simpl in Ht.
      destruct s; [by destruct Hempty | done].
Qed.

Lemma store_match (g : gpu) (sel : string) :
  String.eqb sel "all" ||
  bool_decide (or_else (store_name g) (PStr "Unknown") = PStr sel) = true ↔
  store_selected sel g.
Proof.
  unfold store_selected.
  rewrite orb_true_iff, string_eqb_true, bool_decide_eq_true. done.
Qed.

Lemma name_match (m q : string) :
  includes (toLowerCase m) (toLowerCase q) = true ↔ contains_ci m q.
Proof. apply JsFacts.includes_lower. Qed.

(** The callback on a well-formed row. *)
Lemma matches_spec (q brand_sel store_sel : string) (r : row) :
  brand_sel ≠ "all" → brand_sel ≠ "UNKNOWN" → brand_sel ≠ "" →
  well_formed r →
  ∃ b, Frontend.matches (toLowerCase q) brand_sel store_sel r = Ok b ∧
       (b = true ↔
        ∃ g, r = Obj g ∧ brand_uppercases_to brand_sel g ∧
             model_contains q g ∧ store_selected store_sel g).
Proof.
  intros Hall Hunk Hempty (g & -> & [m Hm] & Hbrand).
  destruct (brand_match g brand_sel Hall Hunk Hempty Hbrand) as (b & Hb & Hbm).
  unfold Frontend.matches. rewrite Hm, Hb. simpl.
  eexists. split; [reflexivity |].
  rewrite !andb_true_iff, Hbm, store_match, name_match.
  unfold model_contains. split.
  - intros [[Hn Hbr] Hst]. exists g. rewrite Hm. naive_solver.
  - intros (g' & [= <-] & Hbr & (m' & Hm' & Hn) & Hst).
    rewrite Hm in Hm'. injection Hm' as <-. done.
Qed.

Lemma legacy_matches_spec (q brand_sel : string) (r : row) :
  brand_sel ≠ "all" → brand_sel ≠ "UNKNOWN" → brand_sel ≠ "" →
  well_formed r →
  ∃ b, Legacy.matches (toLowerCase q) brand_sel r = Ok b ∧
       (b = true ↔
        ∃ g, r = Obj g ∧ brand_uppercases_to brand_sel g ∧
             model_contains q g).
Proof.
  intros Hall Hunk Hempty (g & -> & [m Hm] & Hbrand).
  destruct (brand_match g brand_sel Hall Hunk Hempty Hbrand) as (b & Hb & Hbm).
  unfold Legacy.matches. rewrite Hm, Hb. simpl.
  eexists. split; [reflexivity |].
  rewrite !andb_true_iff, Hbm, name_match.
  unfold model_contains. split.
  - intros [Hn Hbr]. exists g. rewrite Hm. naive_solver.
  - intros (g' & [= <-] & Hbr & (m' & Hm' & Hn)).
    rewrite Hm in Hm'. injection Hm' as <-. done.
Qed.

Lemma nvidia_offered : "NVIDIA" ≠ "all" ∧ "NVIDIA" ≠ "UNKNOWN" ∧ "NVIDIA" ≠ "".
Proof. repeat split; discriminate. Qed.

(** C3: with 4090 in the search box and NVIDIA as the brand, on a list
    of well-formed rows whose brands and model names are ASCII text,
    [filterGPUs] keeps, in their order, exactly the rows whose brand
    upper-cases to NVIDIA, whose model name contains 4090 whatever the
    case, and which the store filter lets through (any store under
    ["all"], otherwise the store of that very name).  The rows kept are
    computed from the whole list and the three inputs alone, and the
    grid shown after a filter change is the rendering of just those
    rows, whatever it held before.  The first script does the same
    without the store filter. *)
Theorem filter_nvidia_4090 (st : state) (rows : list row) (store_sel : string) :
  allGPUs st = Arr rows →
  Forall well_formed rows →
  Forall (λ r, ascii_named r = true) rows →
  search_input st = "4090" →
  value (brand_filter st) = "NVIDIA" →
  value (store_filter st) = store_sel →
  let keep := kept (Frontend.matches "4090" "NVIDIA" store_sel) in
  let keep1 := kept (Legacy.matches "4090" "NVIDIA") in
  (∀ r, r ∈ rows →
     (keep r = true ↔
      ∃ g, r = Obj g ∧ brand_uppercases_to "NVIDIA" g ∧
           model_contains "4090" g ∧ store_selected store_sel g))
  ∧ Frontend.filtered st = Ok (List.filter keep rows)
  ∧ gpu_grid (Frontend.on_filter_change st) =
    grid_of Frontend.render_card (List.filter keep rows)
  ∧ (∀ r, r ∈ rows →
       (keep1 r = true ↔
        ∃ g, r = Obj g ∧ brand_uppercases_to "NVIDIA" g ∧
             model_contains "4090" g))
  ∧ Legacy.filtered st = Ok (List.filter keep1 rows)
  ∧ gpu_grid (Legacy.on_filter_change st) =
    grid_of Legacy.render_card (List.filter keep1 rows).
Proof.
  intros Hall Hwf _ Hq Hb Hs keep keep1.
  destruct nvidia_offered as (N1 & N2 & N3).
  assert (Hspec : ∀ r, r ∈ rows →
            ∃ b, Frontend.matches "4090" "NVIDIA" store_sel r = Ok b ∧
                 (b = true ↔
                  ∃ g, r = Obj g ∧ brand_uppercases_to "NVIDIA" g ∧
                       model_contains "4090" g ∧ store_selected store_sel g)).
  { intros r Hr. rewrite Forall_forall in Hwf.
    apply (matches_spec "4090" "NVIDIA" store_sel r N1 N2 N3), Hwf, Hr. }
  assert (Hspec1 : ∀ r, r ∈ rows →
            ∃ b, Legacy.matches "4090" "NVIDIA" r = Ok b ∧
                 (b = true ↔
                  ∃ g, r = Obj g ∧ brand_uppercases_to "NVIDIA" g ∧
                       model_contains "4090" g)).
  { intros r Hr. rewrite Forall_forall in Hwf.
    apply (legacy_matches_spec "4090" "NVIDIA" r N1 N2 N3), Hwf, Hr. }
  assert (Hf : Frontend.filtered st = Ok (List.filter keep rows)).
  { unfold Frontend.filtered. rewrite Hall, Hq, Hb, Hs.
    apply filter_rows_total, Forall_forall. intros r Hr.
    destruct (Hspec r Hr) as (b & Hm & _). eauto. }
  assert (Hf1 : Legacy.filtered st = Ok (List.filter keep1 rows)).
  { unfold Legacy.filtered. rewrite Hall, Hq, Hb.
    apply legacy_filter_rows_total, Forall_forall. intros r Hr.
    destruct (Hspec1 r Hr) as (b & Hm & _). eauto. }
  split; [| split; [done | split; [| split; [| split; [done |]]]]].
  - intros r Hr. destruct (Hspec r Hr) as (b & Hm & Hiff).
    unfold keep, kept. by rewrite Hm.
  - unfold Frontend.on_filter_change, Frontend.filterGPUs. rewrite Hf.
    apply RenderFacts.settled_grid.
  - intros r Hr. destruct (Hspec1 r Hr) as (b & Hm & Hiff).
    unfold keep1, kept. by rewrite Hm.
  - unfold Legacy.on_filter_change, Legacy.filterGPUs. rewrite Hf1.
    apply RenderFacts.legacy_settled_grid.
Qed.

Lemma catalog_well_formed : Forall well_formed Sample.catalog.
Proof.
  repeat constructor; eexists; (split; [reflexivity |]); split; eauto.
Qed.

Lemma filter_nvidia_4090_witness :
  Frontend.filtered Sample.searching =
  Ok (List.filter (kept (Frontend.matches "4090" "NVIDIA" "all"))
        Sample.catalog).
Proof.
  refine (proj1 (proj2 (filter_nvidia_4090 Sample.searching Sample.catalog
                          "all" _ _ _ _ _ _))).
  - reflexivity.
  - apply catalog_well_formed.
  - repeat constructor.
  - reflexivity.
  - reflexivity.
  - reflexivity.
Defined.

Example searching_shows_the_4090 :
  Frontend.filtered Sample.searching = Ok [Obj Sample.rtx4090] ∧
  length (gpu_grid (Frontend.on_filter_change Sample.searching)) = 1%nat ∧
  length (gpu_grid Sample.searching) = 2%nat.
Proof. repeat split. Qed.

(** A row without a model name makes the callback throw: the listener
    ends there and the grid keeps what it showed. *)
Example filter_throws_on_blank :
  Frontend.filterGPUs
    (set_allGPUs (Arr [Obj Sample.blank]) Sample.searching) =
  Abrupt (set_allGPUs (Arr [Obj Sample.blank]) Sample.searching).
Proof. reflexivity. Qed.

End FilterFacts.

(* ===================================================================== *)
(** ** Facts about the filter dropdowns *)
(* ===================================================================== *)

Module DropdownFacts.
Import Js Page Expected.
Local Open Scope list_scope.

Lemma truthy_str (s : string) : truthy (PStr s) = true ↔ s ≠ "".
Proof.
  simpl. rewrite negb_true_iff. split.
  - intros H ->. done.
  - intros H. by apply String.eqb_neq.
Qed.

Lemma offered_brand_cons (r : row) (rows : list row) (b : string) :
  offered_brand (r :: rows) b ↔
  (∃ g s, r = Obj g ∧ brand g = PStr s ∧ s ≠ "" ∧ s ≠ "Unknown" ∧
          toUpperCase s = b) ∨ offered_brand rows b.
Proof.
  unfold offered_brand. setoid_rewrite elem_of_cons. naive_solver.
Qed.

Lemma offered_store_cons (r : row) (rows : list row) (s : string) :
  offered_store (r :: rows) s ↔
  (∃ g, r = Obj g ∧ store_name g = PStr s ∧ s ≠ "") ∨ offered_store rows s.
Proof.
  unfold offered_store. setoid_rewrite elem_of_cons. naive_solver.
Qed.

(** The set built by the first loop holds what it held before and the
    brands the rows offer. *)
Lemma collect_brands_spec (rows : list row) (acc brands : list prim) :
  Frontend.collect_brands rows acc = Ok brands →
  ∀ b, PStr b ∈ brands ↔ PStr b ∈ acc ∨ offered_brand rows b.
Proof.
  revert acc. induction rows as [| [| g] rows IH]; intros acc H b;
    simpl in H.
  - injection H as <-. unfold offered_brand.
    setoid_rewrite elem_of_nil. naive_solver.
  - done.
  - rewrite offered_brand_cons.
    destruct (truthy (brand g)) eqn:Ht; simpl in H.
    + case_bool_decide as Hunk; simpl in H.
      * rewrite (IH _ H). split; [naive_solver |].
        intros [Hacc | [(g' & s' & [= <-] & Hs' & _ & Hne & _) | Hrest]];
          [by left | congruence | by right].
      * destruct (brand g) as [| | ? | ? | s] eqn:Hb; simpl in H; try done.
        rewrite (IH _ H), JsFacts.elem_of_set_add.
        apply truthy_str in Ht. split.
        -- intros [[[= ->] | Hacc] | Hrest]; [| by left | by right; right].
           right. left. exists g, s. rewrite Hb.
           repeat split; [done | congruence].
        -- intros [Hacc | [(g' & s' & [= <-] & Hs' & _ & _ & <-) | Hrest]];
             [by left; right | | by right].
           left. left. rewrite Hb in Hs'. by injection Hs' as ->.
    + rewrite (IH _ H). split; [naive_solver |].
      intros [Hacc | [(g' & s' & [= <-] & Hs' & Hne & _) | Hrest]];
        [by left | | by right].
      rewrite Hs' in Ht. apply truthy_str in Hne. congruence.
Qed.

Lemma collect_stores_spec (rows : list row) (acc : list prim) (s : string) :
  PStr s ∈ Frontend.collect_stores rows acc ↔
  PStr s ∈ acc ∨ offered_store rows s.
Proof.
  revert acc. induction rows as [| [| g] rows IH]; intros acc; simpl.
  - unfold offered_store. setoid_rewrite elem_of_nil. naive_solver.
  - rewrite IH, offered_store_cons. naive_solver.
  - rewrite IH, offered_store_cons.
    destruct (truthy (store_name g)) eqn:Ht.
    + rewrite JsFacts.elem_of_set_add. split.
      * intros [[Heq | Hacc] | Hrest]; [| by left | by right; right].
        right. left. exists g. rewrite <- Heq in Ht.
        apply truthy_str in Ht. done.
      * intros [Hacc | [(g' & [= <-] & Hs & _) | Hrest]];
          [by left; right | by left; left | by right].
    + split; [naive_solver |].
      intros [Hacc | [(g' & [= <-] & Hs & Hne) | Hrest]];
        [by left | | by right].
      rewrite Hs in Ht. apply truthy_str in Hne. congruence.
Qed.

(** Re-selecting the old value among the new options. *)
Lemma reselect (cur text : string) (set : list prim) :
  cur = "all" ∨ PStr cur ∈ set →
  value
    (if set_has (PStr cur) set || String.eqb cur "all"
     then set_value cur
            (set_innerHTML (Frontend.all_option text :: (option_of <$> sort set)))
     else set_innerHTML (Frontend.all_option text :: (option_of <$> sort set)))
  = cur.
Proof.
  intros Hcur.
  assert (set_has (PStr cur) set || String.eqb cur "all" = true) as ->.
  { apply orb_true_iff. destruct Hcur as [-> | Hin]; [by right | left].
    by apply bool_decide_eq_true. }
  unfold set_value. simpl. case_decide as Hopt; [done |].
  destruct Hopt. destruct Hcur as [-> | Hin]; [by left |].
  right. apply list_elem_of_fmap. exists (option_of (PStr cur)).
  split; [done |]. apply list_elem_of_fmap. exists (PStr cur).
  split; [done |]. by apply JsFacts.elem_of_sort.
Qed.

Lemma populate_keeps (rows : list row) (st : state) :
  let st' := settle (Frontend.populateFilters (Arr rows) st) in
  ((value (brand_filter st) = "all" ∨
    offered_brand rows (value (brand_filter st))) →
   value (brand_filter st') = value (brand_filter st))
  ∧ ((value (store_filter st) = "all" ∨
      offered_store rows (value (store_filter st))) →
     value (store_filter st') = value (store_filter st)).
Proof.
  unfold Frontend.populateFilters.
  destruct (Frontend.collect_brands rows []) as [brands |] eqn:Hb;
    simpl; [| done].
  split; intros Hcur; apply reselect.
  - destruct Hcur as [? | Hoff]; [by left | right].
    apply (collect_brands_spec rows [] brands Hb). by right.
  - destruct Hcur as [? | Hoff]; [by left | right].
    apply collect_stores_spec. by right.
Qed.

Lemma populate_abrupt (gpus : payload) (st s : state) :
  Frontend.populateFilters gpus st = Abrupt s → s = st.
Proof.
  unfold Frontend.populateFilters. destruct gpus as [| rows].
  - by intros [= <-].
  - destruct (Frontend.collect_brands rows []); [done | by intros [= <-]].
Qed.

Lemma append_cards_keep_filters (rows : list row) (st : state) :
  brand_filter (fold_left Frontend.append_card rows st) = brand_filter st ∧
  store_filter (fold_left Frontend.append_card rows st) = store_filter st.
Proof.
  revert st. induction rows as [| r rows IH]; intros st; [done |].
  simpl. destruct (IH (Frontend.append_card st r)) as [-> ->].
  unfold Frontend.append_card. by destruct (Frontend.render_card r).
Qed.

Lemma render_keeps_filters (gpus : payload) (st : state) :
  brand_filter (settle (Frontend.renderGPUs gpus st)) = brand_filter st ∧
  store_filter (settle (Frontend.renderGPUs gpus st)) = store_filter st.
Proof.
  destruct gpus as [| [| r rows]]; [done | done |].
  unfold Frontend.renderGPUs, settle.
  destruct (append_cards_keep_filters (r :: rows)
              (Frontend.update_last_scraped (set_gpu_grid [] st))) as [-> ->].
  unfold Frontend.update_last_scraped. simpl.
  destruct (allGPUs st) as [| [| [| g] ?]]; try done.
  by destruct (truthy (scraped_at g)).
Qed.

Lemma fetch_filters (isPolling : bool) (now : Z) (rows : list row)
    (st : state) :
  let st0 := set_allGPUs (Arr rows) (send now (GetGpus now) st) in
  let st' := Frontend.fetchGPUs isPolling now (Json (Arr rows)) st in
  brand_filter st' =
    brand_filter (settle (Frontend.populateFilters (Arr rows) st0)) ∧
  store_filter st' =
    store_filter (settle (Frontend.populateFilters (Arr rows) st0)).
Proof.
  unfold Frontend.fetchGPUs. cbv zeta.
  destruct (Frontend.populateFilters (Arr rows) _) as [s | s] eqn:Hp.
  - pose proof (render_keeps_filters (Arr rows) s) as Hk.
    destruct (RenderFacts.renderGPUs_grid (Arr rows) s) as (s' & Hr & _).
    rewrite Hr in Hk |- *. exact Hk.
  - simpl. by destruct isPolling.
Qed.

(** C9: when the dropdowns are rebuilt from a list of rows whose
    brands and store names are free of markup characters, a brand
    selection that is ["all"] or is among the brands the list offers
    (the upper-cased brands other than a missing one and ['Unknown'])
    is selected again, and so is a store selection that is ["all"] or
    is among the store names of the list; a refresh of the list by the
    polling callback rebuilds the dropdowns the same way and keeps such
    selections as well. *)
Theorem refresh_keeps_selection (rows : list row) (st : state) (now : Z) :
  Forall (λ r, plain_named r = true) rows →
  let repopulated := settle (Frontend.populateFilters (Arr rows) st) in
  let refreshed := Frontend.fetchGPUs true now (Json (Arr rows)) st in
  ((value (brand_filter st) = "all" ∨
    offered_brand rows (value (brand_filter st))) →
   value (brand_filter repopulated) = value (brand_filter st) ∧
   value (brand_filter refreshed) = value (brand_filter st))
  ∧ ((value (store_filter st) = "all" ∨
      offered_store rows (value (store_filter st))) →
     value (store_filter repopulated) = value (store_filter st) ∧
     value (store_filter refreshed) = value (store_filter st)).
Proof.
  intros _ repopulated refreshed.
  destruct (populate_keeps rows st) as [Hb Hs].
  destruct (fetch_filters true now rows st) as [Eb Es].
  destruct (populate_keeps rows
              (set_allGPUs (Arr rows) (send now (GetGpus now) st)))
    as [Hb' Hs'].
  split; intros Hcur.
  - split; [by apply Hb |]. unfold refreshed. rewrite Eb. by apply Hb'.
  - split; [by apply Hs |]. unfold refreshed. rewrite Es. by apply Hs'.
Qed.

Lemma refresh_keeps_selection_witness :
  value (brand_filter
           (settle (Frontend.populateFilters (Arr Sample.catalog)
                      Sample.searching))) = "NVIDIA" ∧
  value (brand_filter
           (Frontend.fetchGPUs true 5000 (Json (Arr Sample.catalog))
              Sample.searching)) = "NVIDIA".
Proof.
  refine (proj1 (refresh_keeps_selection Sample.catalog Sample.searching 5000
                  _) _).
  - repeat constructor.
  - right. exists Sample.rtx4090, "Nvidia".
    repeat split; [| discriminate | discriminate].
    apply list_elem_of_In. simpl. by left.
Defined.

(** A brand that the new list no longer offers falls back to ["all"]. *)
Example selection_reset_when_gone :
  value (brand_filter
           (Frontend.fetchGPUs true 5000 (Json (Arr [Obj Sample.rx7900]))
              Sample.searching)) = "all".
Proof. reflexivity. Qed.

End DropdownFacts.

(* ===================================================================== *)
(** ** Facts about fetching, the scrape trigger and polling *)
(* ===================================================================== *)

Module ScrapeFacts.
Import Js Page Expected.
Local Open Scope list_scope.

(** C8, as the scripts have it: when the server cannot be reached (or
    its body does not parse), the first script and the current script
    outside polling replace the grid by the connection-error panel;
    a refresh made by the polling callback fails silently and leaves
    the grid as it was. *)
Theorem fetch_failure_panel (now : Z) (st : state) :
  gpu_grid (Legacy.fetchGPUs now Unreachable st) = [ConnectionError]
  ∧ gpu_grid (Legacy.fetchGPUs now Malformed st) = [ConnectionError]
  ∧ gpu_grid (Frontend.fetchGPUs false now Unreachable st) = [ConnectionError]
  ∧ gpu_grid (Frontend.fetchGPUs false now Malformed st) = [ConnectionError]
  ∧ gpu_grid (Frontend.fetchGPUs true now Unreachable st) = gpu_grid st
  ∧ gpu_grid (Frontend.fetchGPUs true now Malformed st) = gpu_grid st.
Proof. repeat split. Qed.

(** C8, as stated, fails for a refresh made while polling: the server
    being unreachable, the grid still shows the two cards it had. *)
Lemma polling_failure_is_silent : ¬ failure_shows_panel Frontend.fetchGPUs.
Proof.
  intros H. specialize (H true 5000 Sample.loaded). discriminate H.
Qed.

Example polling_failure_keeps_cards :
  gpu_grid (Frontend.fetchGPUs true 5000 Unreachable Sample.loaded) =
  gpu_grid Sample.loaded ∧
  length (gpu_grid Sample.loaded) = 2%nat.
Proof. split; reflexivity. Qed.

(** *** The scrape trigger *)

Lemma startPolling_polls (now : Z) (st : state) :
  is_Some (pollInterval (Frontend.startPolling now st)).
Proof.
  unfold Frontend.startPolling. destruct (pollInterval st) eqn:Hp; simpl.
  - rewrite Hp. eauto.
  - eauto.
Qed.



(** *** Polling *)

(** Rendering and the dropdowns leave the timers and the log alone. *)
Lemma append_cards_frame (rows : list row) (st : state) :
  timers_and_log (fold_left Frontend.append_card rows st) = timers_and_log st.
Proof.
  revert st. induction rows as [| r rows IH]; intros st; [done |].
  simpl. rewrite IH. unfold Frontend.append_card.
  by destruct (Frontend.render_card r).
Qed.

Lemma render_frame (gpus : payload) (st : state) :
  timers_and_log (settle (Frontend.renderGPUs gpus st)) = timers_and_log st.
Proof.
  destruct gpus as [| [| r rows]]; [done | done |].
  unfold Frontend.renderGPUs, settle. rewrite append_cards_frame.
  unfold Frontend.update_last_scraped. simpl.
  destruct (allGPUs st) as [| [| [| g] ?]]; try done.
  by destruct (truthy (scraped_at g)).
Qed.

Lemma populate_frame (gpus : payload) (st : state) :
  timers_and_log (settle (Frontend.populateFilters gpus st)) =
  timers_and_log st.
Proof.
  unfold Frontend.populateFilters. destruct gpus as [| rows]; [done |].
  by destruct (Frontend.collect_brands rows []).
Qed.

(** A fetch of the list sends one request and leaves the timers alone. *)
Lemma fetch_frame (isPolling : bool) (now : Z) (answer : fetched payload)
    (st : state) :
  timers_and_log (Frontend.fetchGPUs isPolling now answer st) =
  (pollInterval st, intervals st, next_handle st,
   requests st ++ [(now, GetGpus now)]).
Proof.
  unfold Frontend.fetchGPUs. cbv zeta.
  destruct answer as [| | data]; [by destruct isPolling .. |].
  pose proof (populate_frame data
                (set_allGPUs data (send now (GetGpus now) st))) as Hp.
  destruct (Frontend.populateFilters data _) as [s | s]; simpl in Hp.
  - pose proof (render_frame data s) as Hr.
    destruct (RenderFacts.renderGPUs_grid data s) as (s' & Hs' & _).
    rewrite Hs' in Hr |- *. simpl in Hr. by rewrite Hr, Hp.
  - destruct isPolling; simpl; exact Hp.
Qed.

(** A poll whose status request fails sends nothing else and keeps the
    timer. *)
Example failed_poll_keeps_polling :
  let st := Frontend.startPolling 0 Sample.loaded in
  let a := {| Frontend.status_answer := Unreachable;
              Frontend.gpus_answer := Unreachable |} in
  pollInterval (Frontend.fire 1 5000 a st) = Some 1%positive ∧
  requests (Frontend.fire 1 5000 a st) = requests st ++ [(5000, GetStatus)].
Proof. split; reflexivity. Qed.

End ScrapeFacts.

(* ===================================================================== *)
(** ** Facts about statements on the schema *)
(* ===================================================================== *)

Module StatementFacts.
Import Schema Statements.

Lemma delete_products_done (doomed : gmap Z product_row) (d : db) :
  delete_products doomed d =
  Done (set_price_history
          (filter (λ kv, doomed !! product_id kv.2 = None) (price_history d))
          (set_products (products d ∖ doomed) d)).
Proof. reflexivity. Qed.

Lemma products_of_gpu_empty (gid : Z) (d : db) :
  products_of_gpu gid d = ∅ ↔
  ∀ pid p, products d !! pid = Some p → gpu_id p ≠ gid.
Proof.
  unfold products_of_gpu. rewrite map_empty. split.
  - intros H pid p Hp Heq.
    specialize (H pid). apply map_lookup_filter_None in H.
    destruct H as [H | H]; [congruence | by apply (H p)].
  - intros H pid. apply map_lookup_filter_None. right.
    intros p Hp. simpl. by apply (H pid).
Qed.

(** X2: a GPU that is listed by at least one product cannot be deleted
    ([fk_products_gpus] is ON DELETE RESTRICT): the statement is
    rejected and nothing changes; a GPU that no product lists is
    deleted, and only its row goes. *)
Theorem delete_gpu_restrict (gid : Z) (d : db) :
  is_Some (gpus d !! gid) →
  ((∃ pid p, products d !! pid = Some p ∧ gpu_id p = gid) →
     delete_gpu gid d = Rejected ForeignKeyViolation ∧
     commit d (exec (DeleteGpu gid) d) = d)
  ∧ ((∀ pid p, products d !! pid = Some p → gpu_id p ≠ gid) →
     delete_gpu gid d = Done (set_gpus (delete gid (gpus d)) d)).
Proof.
  intros [g Hg]. cbn [exec]. unfold delete_gpu. rewrite Hg. simpl.
  destruct (decide (products_of_gpu gid d = ∅)) as [He | Hne].
  - pose proof (proj1 (products_of_gpu_empty gid d) He) as Hno. split.
    + intros (pid & p & Hp & Hgid). by destruct (Hno pid p Hp).
    + done.
  - split; [done |].
    intros Hno. destruct Hne. by apply products_of_gpu_empty.
Qed.

Lemma delete_gpu_restrict_witness :
  delete_gpu 1 two_stores = Rejected ForeignKeyViolation ∧
  commit two_stores (exec (DeleteGpu 1) two_stores) = two_stores.
Proof.
  apply (delete_gpu_restrict 1 two_stores).
  - exists rtx4090. vm_compute. reflexivity.
  - exists 1, listing. split; vm_compute; reflexivity.
Defined.

(** Deleting the products of a store: what is left. *)
Lemma without_store_products (sid k : Z) (p : product_row) (d : db) :
  products (commit d (exec (DeleteProductsOfStore sid) d)) !! k = Some p ↔
  products d !! k = Some p ∧ store_id p ≠ sid.
Proof.
  cbn [exec]. rewrite delete_products_done. simpl.
  rewrite lookup_difference_Some. unfold products_of_store.
  rewrite map_lookup_filter_None. simpl. split.
  - intros [Hk [Hnone | Hne]]; [congruence |]. split; [done |].
    by apply (Hne p).
  - intros [Hk Hne]. split; [done |]. right. intros p' Hp'. congruence.
Qed.

Lemma without_store_history (sid k : Z) (h : history_row) (d : db) :
  price_history (commit d (exec (DeleteProductsOfStore sid) d)) !! k = Some h ↔
  price_history d !! k = Some h ∧
  ∀ p, products d !! product_id h = Some p → store_id p ≠ sid.
Proof.
  cbn [exec]. rewrite delete_products_done. simpl.
  rewrite map_lookup_filter_Some. simpl. unfold products_of_store.
  rewrite map_lookup_filter_None. simpl. split.
  - intros [Hk [Hnone | Hne]]; (split; [done |]); [congruence | done].
  - intros [Hk Hne]. split; [done |]. by right.
Qed.

(** X5: a store that products reference can still be removed in two
    statements: deleting the products of the store (which takes their
    price history along and nothing else) always succeeds, and the
    deletion of the store then succeeds too; the products and the
    history of the other stores are all still there, and a database
    whose references were sound stays sound. *)
Theorem store_removal (sid : Z) (d : db) :
  is_Some (stores d !! sid) →
  let d1 := commit d (exec (DeleteProductsOfStore sid) d) in
  let d2 := commit d1 (exec (DeleteStore sid) d1) in
  exec (DeleteStore sid) d1 = Done d2
  ∧ stores d2 = delete sid (stores d)
  ∧ gpus d2 = gpus d
  ∧ (∀ k p, products d2 !! k = Some p ↔
            products d !! k = Some p ∧ store_id p ≠ sid)
  ∧ (∀ k h, price_history d2 !! k = Some h ↔
            price_history d !! k = Some h ∧
            ∀ p, products d !! product_id h = Some p → store_id p ≠ sid)
  ∧ (ref_integrity d → ref_integrity d2).
Proof.
  intros [s Hs] d1 d2.
  assert (Hstores : stores d1 = stores d) by done.
  assert (Hgpus : gpus d1 = gpus d) by done.
  assert (Hempty : products_of_store sid d1 = ∅).
  { apply SchemaFacts.products_of_store_empty. intros pid p Hp.
    by apply without_store_products in Hp as [_ Hne]. }
  assert (Hdone : delete_store sid d1 = Done (set_stores (delete sid (stores d1)) d1)).
  { unfold delete_store. rewrite Hstores, Hs. simpl.
    by destruct (decide (products_of_store sid d1 = ∅)). }
  assert (Hd2 : d2 = set_stores (delete sid (stores d1)) d1).
  { unfold d2. cbn [exec]. by rewrite Hdone. }
  split_and!.
  - cbn [exec]. by rewrite Hdone, Hd2.
  - by rewrite Hd2.
  - by rewrite Hd2.
  - intros k p. rewrite Hd2. simpl. apply without_store_products.
  - intros k h. rewrite Hd2. simpl. apply without_store_history.
  - intros [Hh Hp]. rewrite Hd2. split.
    + intros k h Hk. simpl in *.
      apply without_store_history in Hk as [Hk Hne].
      destruct (Hh k h Hk) as [p Hprod]. exists p.
      apply without_store_products. split; [done | by apply Hne].
    + intros k p Hk. simpl in *.
      apply without_store_products in Hk as [Hk Hne].
      destruct (Hp k p Hk) as [Hst Hg]. split; [| done].
      by rewrite lookup_delete_ne.
Qed.

Lemma store_removal_witness :
  let d1 := commit two_stores (exec (DeleteProductsOfStore 1) two_stores) in
  let d2 := commit d1 (exec (DeleteStore 1) d1) in
  exec (DeleteStore 1) d1 = Done d2 ∧ stores d2 = delete 1 (stores two_stores).
Proof.
  intros d1 d2.
  assert (H : is_Some (stores two_stores !! 1)).
  { exists tustin. vm_compute. reflexivity. }
  destruct (store_removal 1 two_stores H) as (H1 & H2 & _).
  split; [exact H1 | exact H2].
Defined.

Example store_removal_leaves_dallas :
  let d1 := commit two_stores (exec (DeleteProductsOfStore 1) two_stores) in
  let d2 := commit d1 (exec (DeleteStore 1) d1) in
  stores d2 !! 2 = Some dallas ∧ products d2 !! 2 = Some (listing_at 2 "654321") ∧
  products d2 !! 1 = None ∧ price_history d2 = ∅ ∧
  exec (DeleteStore 1) two_stores = Rejected ForeignKeyViolation.
Proof. vm_compute. repeat split. Qed.

End StatementFacts.

(* ===================================================================== *)
(** ** Facts about the cards: stock badge and history button *)
(* ===================================================================== *)

Module CardFacts.
Import Js Page Expected Behaviour.

Lemma lower_upper_ascii (c : ascii) :
  lower_ascii (upper_ascii c) = lower_ascii c.
Proof. destruct c as [[] [] [] [] [] [] [] []]; reflexivity. Qed.

Lemma upper_lower_ascii (c : ascii) :
  upper_ascii (lower_ascii c) = upper_ascii c.
Proof. destruct c as [[] [] [] [] [] [] [] []]; reflexivity. Qed.

Lemma lower_of_upper (s : string) : toLowerCase (toUpperCase s) = toLowerCase s.
Proof.
  induction s as [| c s IH]; [done |].
  unfold toLowerCase, toUpperCase in *. simpl.
  by rewrite lower_upper_ascii, IH.
Qed.

Lemma upper_of_lower (s : string) : toUpperCase (toLowerCase s) = toUpperCase s.
Proof.
  induction s as [| c s IH]; [done |].
  unfold toLowerCase, toUpperCase in *. simpl.
  by rewrite upper_lower_ascii, IH.
Qed.

(** [text.toUpperCase().includes(NEEDLE)], for a needle in upper case,
    is containment up to case. *)
Lemma includes_upper (text needle : string) :
  includes (toUpperCase text) (toUpperCase needle) = true ↔
  contains_ci text needle.
Proof.
  rewrite JsFacts.includes_app. unfold contains_ci. split.
  - intros (pre & post & Heq). unfold toUpperCase in Heq.
    apply JsFacts.map_string_split in Heq as (pre' & rest & -> & Hpre & Hrest).
    apply JsFacts.map_string_split in Hrest as (mid & post' & -> & Hmid & Hpost).
    exists pre', mid, post'. split; [done |].
    fold (toUpperCase mid) in Hmid.
    by rewrite <- (lower_of_upper mid), Hmid, lower_of_upper.
  - intros (pre & mid & post & -> & Hmid).
    exists (toUpperCase pre), (toUpperCase post).
    unfold toUpperCase. rewrite !JsFacts.map_string_app.
    fold (toUpperCase mid) (toUpperCase needle).
    by rewrite <- (upper_of_lower mid), Hmid, upper_of_lower.
Qed.

Lemma stock_class_text (s : string) :
  stock_class (PStr s) = "stock-in" ↔ contains_ci s "in stock".
Proof.
  rewrite <- (includes_upper s "in stock"). unfold stock_class.
  change (toString (PStr s)) with s.
  change (toUpperCase "in stock") with "IN STOCK".
  destruct (includes (toUpperCase s) "IN STOCK") eqn:Hinc.
  - destruct s; [done |]. simpl. done.
  - rewrite andb_false_r. done.
Qed.

Lemma card_stock_class_of (g : gpu) (c : card) :
  Frontend.render_card (Obj g) = Ok c ∨ Legacy.render_card (Obj g) = Ok c →
  card_stock_class c = stock_class (or_else (stock_status g) (PStr "Unknown")) ∧
  ∃ m, or_else (model_name g) (PStr "Unknown Model") = PStr m ∧
       card_history_name c = escape_quotes m.
Proof.
  intros [H | H]; simpl in H;
    destruct (image_of _); simpl in H; try done;
    destruct (or_else (model_name g) _) as [| | | | m]; simpl in H; try done;
    injection H as <-; simpl; eauto.
Qed.

(** X6: in both scripts, for a row whose stock text is ASCII text, a
    card carries the green [stock-in] badge exactly when that text
    contains "in stock", whatever the case of the letters; any other
    text, and a missing or empty one, gives [stock-out]. *)
Theorem stock_badge (g : gpu) (c : card) :
  text_or_missing (stock_status g) →
  ascii_prim (stock_status g) = true →
  Frontend.render_card (Obj g) = Ok c ∨ Legacy.render_card (Obj g) = Ok c →
  (card_stock_class c = "stock-in" ↔
   ∃ s, stock_status g = PStr s ∧ contains_ci s "in stock")
  ∧ (card_stock_class c = "stock-in" ∨ card_stock_class c = "stock-out").
Proof.
  intros Htext _ Hc. destruct (card_stock_class_of g c Hc) as [-> _].
  unfold or_else. destruct (truthy (stock_status g)) eqn:Ht.
  - destruct Htext as [? | [s Hs]]; [congruence |]. rewrite Hs. split.
    + rewrite stock_class_text. split; [eauto |].
      by intros (s' & [= <-] & H).
    + unfold stock_class. destruct (_ && _); auto.
  - split; [| by right]. split; [done |].
    intros (s & Hs & Hin). rewrite Hs in Ht.
    apply stock_class_text in Hin. unfold stock_class in Hin.
    by rewrite Ht in Hin.
Qed.

Lemma stock_badge_witness :
  card_stock_class
    {| card_image := PStr PLACEHOLDER_URL; card_brand := PStr "Nvidia";
       card_store := Some (PStr "Tustin");
       card_model := PStr "GeForce RTX 4090"; card_price := PStr "1599.99";
       card_stock_class := "stock-in"; card_stock := PStr "In Stock";
       card_history_id := PNum 1; card_history_name := "GeForce RTX 4090";
       card_href := PStr "/product/1" |} = "stock-in" ↔
  ∃ s, stock_status Sample.rtx4090 = PStr s ∧ contains_ci s "in stock".
Proof.
  apply (stock_badge Sample.rtx4090).
  - right. by exists "In Stock".
  - reflexivity.
  - left. reflexivity.
Defined.

Example stock_classes :
  stock_class (PStr "25+ IN STOCK at Tustin") = "stock-in" ∧
  stock_class (PStr "in stock") = "stock-in" ∧
  stock_class (PStr "Sold Out") = "stock-out" ∧
  stock_class (PStr "Unknown") = "stock-out".
Proof. repeat split. Qed.

Lemma escape_quotes_escaped (s : string) :
  apostrophes_escaped (escape_quotes s).
Proof.
  unfold apostrophes_escaped.
  induction s as [| c s IH]; intros pre post Heq; simpl in Heq.
  - destruct pre; discriminate Heq.
  - destruct (Ascii.eqb_spec c "'"%char) as [-> | Hc].
    + destruct pre as [| a [| b pre]].
      * discriminate Heq.
      * rewrite JsFacts.append_cons in Heq. injection Heq as <- _.
        by exists "".
      * rewrite !JsFacts.append_cons in Heq. injection Heq as <- <- Heq.
        destruct (IH pre post Heq) as [pre' ->].
        exists (String "\"%char (String "'"%char pre')).
        by rewrite !JsFacts.append_cons.
    + destruct pre as [| a pre].
      * injection Heq as Heq _. by destruct Hc.
      * rewrite JsFacts.append_cons in Heq. injection Heq as <- Heq.
        destruct (IH pre post Heq) as [pre' ->].
        exists (String c pre'). by rewrite JsFacts.append_cons.
Qed.

Lemma escape_quotes_plain (s : string) :
  includes s "'" = false → escape_quotes s = s.
Proof.
  induction s as [| c s IH]; [done |]. cbn [includes escape_quotes].
  intros H. apply orb_false_iff in H as [Hp H].
  destruct (Ascii.eqb_spec c "'"%char) as [-> | Hc].
  - assert (String.prefix "'" (String "'"%char s) = true) as Ht.
    { apply JsFacts.prefix_app. by exists s. }
    congruence.
  - by rewrite IH.
Qed.

(** X7: the model name handed to the History button of a card has a
    backslash before every apostrophe, so that no apostrophe of a
    product name ends the quoted argument of the click handler; a name
    without apostrophes is handed over as it is (the placeholder
    [Unknown Model] when the row has none). *)
Theorem history_name_escaped (g : gpu) (c : card) :
  Frontend.render_card (Obj g) = Ok c ∨ Legacy.render_card (Obj g) = Ok c →
  apostrophes_escaped (card_history_name c)
  ∧ (∀ m, or_else (model_name g) (PStr "Unknown Model") = PStr m →
          includes m "'" = false → card_history_name c = m).
Proof.
  intros Hc. destruct (card_stock_class_of g c Hc) as (_ & m & Hm & ->).
  split; [apply escape_quotes_escaped |].
  intros m' Hm' Hplain. rewrite Hm in Hm'. injection Hm' as <-.
  by apply escape_quotes_plain.
Qed.

Lemma history_name_escaped_witness :
  ∃ c, Frontend.render_card (Obj Sample.rtx4090) = Ok c ∧
       apostrophes_escaped (card_history_name c) ∧
       card_history_name c = "GeForce RTX 4090".
Proof.
  eexists. split; [reflexivity |].
  destruct (history_name_escaped Sample.rtx4090 _ (or_introl eq_refl))
    as [H1 H2].
  split; [exact H1 |]. apply H2; reflexivity.
Defined.

Example escaped_name :
  escape_quotes "Bob's 24'' GPU" =
  String.append "Bob\" (String.append "'s 24\" (String.append "'\" "' GPU")).
Proof. reflexivity. Qed.

End CardFacts.

(* ===================================================================== *)
(** ** Facts about the options of the dropdowns *)
(* ===================================================================== *)

Module OptionFacts.
Import Js Page Expected Behaviour.
Local Open Scope list_scope.

Lemma ltb_asym (a b : string) : String.ltb a b = true → String.ltb b a = false.
Proof.
  unfold String.ltb. rewrite (String.compare_antisym a b).
  by destruct (String.compare b a).
Qed.

Lemma insert_sorted_ascending (v : prim) (l : list prim) :
  ascending (toString <$> l) → ascending (toString <$> insert_sorted v l).
Proof.
  induction l as [| x l IH]; [done |]. intros Hl. cbn [insert_sorted].
  destruct (String.ltb (toString v) (toString x)) eqn:Hvx.
  - split; [by apply ltb_asym | done].
  - destruct l as [| y l]; [by split |].
    destruct Hl as [Hxy Hl]. specialize (IH Hl). cbn [insert_sorted] in *.
    destruct (String.ltb (toString v) (toString y)); by split.
Qed.

Lemma sort_ascending (l : list prim) : ascending (toString <$> sort l).
Proof.
  unfold sort. assert (Hnil : ascending (toString <$> [])) by done.
  revert Hnil. generalize (@nil prim).
  induction l as [| v l IH]; intros acc Hacc; [done |].
  simpl. by apply IH, insert_sorted_ascending.
Qed.

Lemma insert_sorted_perm (v : prim) (l : list prim) :
  insert_sorted v l ≡ₚ v :: l.
Proof.
  induction l as [| x l IH]; [done |]. simpl.
  destruct (String.ltb _ _); [done |]. rewrite IH. apply Permutation_swap.
Qed.

Lemma sort_perm (l : list prim) : sort l ≡ₚ l.
Proof.
  unfold sort. rewrite <- (app_nil_r l) at 2. generalize (@nil prim).
  induction l as [| v l IH]; intros acc; [done |].
  simpl. rewrite IH, insert_sorted_perm. by rewrite Permutation_middle.
Qed.

Lemma set_add_NoDup (v : prim) (s : list prim) :
  NoDup s → NoDup (set_add v s).
Proof.
  intros Hs. unfold set_add. case_decide; [done |].
  apply NoDup_app. split_and!; [done | | apply NoDup_singleton].
  intros x Hx Hxv. apply list_elem_of_singleton in Hxv. by subst.
Qed.

(** The sets of the two loops hold strings only and nothing twice. *)
Lemma collect_brands_set (rows : list row) (acc brands : list prim) :
  Frontend.collect_brands rows acc = Ok brands →
  NoDup acc → Forall (λ v, ∃ s, v = PStr s) acc →
  NoDup brands ∧ Forall (λ v, ∃ s, v = PStr s) brands.
Proof.
  revert acc. induction rows as [| [| g] rows IH]; intros acc H Hnd Hstr;
    simpl in H.
  - by injection H as <-.
  - done.
  - destruct (truthy (brand g) && _); [| by apply (IH acc)].
    destruct (brand g) as [| | | | b]; simpl in H; try done.
    apply (IH _ H); [by apply set_add_NoDup |].
    unfold set_add. case_decide; [done |].
    apply Forall_app. split; [done |]. constructor; [eauto | done].
Qed.

Lemma collect_stores_set (rows : list row) (acc : list prim) :
  Forall store_named rows →
  NoDup acc → Forall (λ v, ∃ s, v = PStr s) acc →
  NoDup (Frontend.collect_stores rows acc) ∧
  Forall (λ v, ∃ s, v = PStr s) (Frontend.collect_stores rows acc).
Proof.
  revert acc. induction rows as [| [| g] rows IH]; intros acc Hrows Hnd Hstr;
    simpl; [done | ..]; inversion Hrows as [| ? ? Hg Hrest]; subst.
  - by apply IH.
  - destruct (truthy (store_name g)) eqn:Ht; [| by apply IH].
    destruct Hg as [? | [s Hs]]; [congruence |].
    apply IH; [done | by apply set_add_NoDup |].
    unfold set_add. case_decide; [done |].
    apply Forall_app. split; [done |]. constructor; [eauto | done].
Qed.

(** The values of the options built from a set of strings. *)
Lemma option_values (set : list prim) :
  NoDup set → Forall (λ v, ∃ s, v = PStr s) set →
  let values := toString <$> sort set in
  opt_value <$> (option_of <$> sort set) = values ∧
  NoDup values ∧ ascending values ∧
  ∀ s, s ∈ values ↔ PStr s ∈ set.
Proof.
  intros Hnd Hstr values.
  assert (Hstr' : Forall (λ v, ∃ s, v = PStr s) (sort set)).
  { by rewrite sort_perm. }
  rewrite Forall_forall in Hstr'. split_and!.
  - by rewrite <- list_fmap_compose.
  - apply NoDup_fmap_2_strong; [| by rewrite sort_perm].
    intros x y Hx Hy Heq.
    destruct (Hstr' x Hx) as [sx ->], (Hstr' y Hy) as [sy ->].
    simpl in Heq. by subst.
  - apply sort_ascending.
  - intros s. unfold values. rewrite list_elem_of_fmap.
    setoid_rewrite JsFacts.elem_of_sort. split.
    + intros (v & -> & Hv). rewrite <- JsFacts.elem_of_sort in Hv.
      destruct (Hstr' v Hv) as [sv ->]. simpl.
      by apply JsFacts.elem_of_sort.
    + intros Hs. by exists (PStr s).
Qed.

(** The dropdown after the old value has been looked for among the new
    options. *)
Lemma reselect_value (cur text : string) (set : list prim) :
  let rebuilt :=
    set_innerHTML (Frontend.all_option text :: (option_of <$> sort set)) in
  let sel :=
    if set_has (PStr cur) set || String.eqb cur "all"
    then set_value cur rebuilt else rebuilt in
  options sel = Frontend.all_option text :: (option_of <$> sort set) ∧
  value sel = (if decide (cur = "all" ∨ PStr cur ∈ set) then cur else "all") ∧
  value sel ∈ opt_value <$> options sel.
Proof.
  intros rebuilt sel.
  assert (Hopts : options sel =
                  Frontend.all_option text :: (option_of <$> sort set)).
  { unfold sel. by destruct (_ || _). }
  assert (Hval : value sel =
                 if decide (cur = "all" ∨ PStr cur ∈ set) then cur else "all").
  { case_decide as Hcur.
    - by apply DropdownFacts.reselect.
    - unfold sel.
      assert (set_has (PStr cur) set || String.eqb cur "all" = false) as ->;
        [| done].
      apply orb_false_iff. split.
      + apply bool_decide_eq_false. tauto.
      + apply String.eqb_neq. tauto. }
  split_and!; [done | done |]. rewrite Hval, Hopts.
  case_decide as Hcur; [| by left].
  destruct Hcur as [-> | Hin]; [by left | right].
  apply list_elem_of_fmap. exists (option_of (PStr cur)). split; [done |].
  apply list_elem_of_fmap. exists (PStr cur). split; [done |].
  by apply JsFacts.elem_of_sort.
Qed.

(** What [populateFilters] leaves in the two dropdowns. *)
Lemma populated (rows : list row) (st st' : state) :
  Frontend.populateFilters (Arr rows) st = Normal st' →
  ∃ brands,
    Frontend.collect_brands rows [] = Ok brands ∧
    brand_filter st' =
      (if set_has (PStr (value (brand_filter st))) brands ||
          String.eqb (value (brand_filter st)) "all"
       then set_value (value (brand_filter st))
              (set_innerHTML (Frontend.all_option "All Brands" ::
                              (option_of <$> sort brands)))
       else set_innerHTML (Frontend.all_option "All Brands" ::
                           (option_of <$> sort brands))) ∧
    store_filter st' =
      (if set_has (PStr (value (store_filter st)))
            (Frontend.collect_stores rows []) ||
          String.eqb (value (store_filter st)) "all"
       then set_value (value (store_filter st))
              (set_innerHTML (Frontend.all_option "All Stores" ::
                              (option_of <$> sort (Frontend.collect_stores rows []))))
       else set_innerHTML (Frontend.all_option "All Stores" ::
                           (option_of <$> sort (Frontend.collect_stores rows [])))).
Proof.
  unfold Frontend.populateFilters.
  destruct (Frontend.collect_brands rows []) as [brands |]; [| done].
  intros [= <-]. by exists brands.
Qed.

(** X8: after [populateFilters] has run through on rows whose brands
    and store names are free of markup characters, each dropdown lists
    ["all"] first and then, in ascending order and each once, the
    brands the rows offer (upper-cased, so that [Nvidia] and [NVIDIA]
    are one entry; a missing brand and ['Unknown'] are left out) resp.
    the store names of the rows. *)
Theorem dropdown_options (rows : list row) (st st' : state) :
  Forall (λ r, plain_named r = true) rows →
  Frontend.populateFilters (Arr rows) st = Normal st' →
  (∃ brands,
     opt_value <$> options (brand_filter st') = "all" :: brands ∧
     NoDup brands ∧ ascending brands ∧
     ∀ b, b ∈ brands ↔ offered_brand rows b)
  ∧ (Forall store_named rows →
     ∃ stores,
       opt_value <$> options (store_filter st') = "all" :: stores ∧
       NoDup stores ∧ ascending stores ∧
       ∀ s, s ∈ stores ↔ offered_store rows s).
Proof.
  intros _ Hpop.
  destruct (populated rows st st' Hpop) as (brands & Hb & -> & ->).
  split.
  - destruct (collect_brands_set rows [] brands Hb) as [Hnd Hstr];
      [constructor | constructor |].
    destruct (option_values brands Hnd Hstr) as (Hv & Hn & Ha & Hin).
    destruct (reselect_value (value (brand_filter st)) "All Brands" brands)
      as (-> & _ & _).
    exists (toString <$> sort brands). cbn [fmap list_fmap]. rewrite Hv.
    split_and!; [done | done | done |].
    intros b. rewrite Hin.
    rewrite (DropdownFacts.collect_brands_spec rows [] brands Hb b).
    rewrite elem_of_nil. tauto.
  - intros Hrows.
    destruct (collect_stores_set rows [] Hrows) as [Hnd Hstr];
      [constructor | constructor |].
    destruct (option_values _ Hnd Hstr) as (Hv & Hn & Ha & Hin).
    destruct (reselect_value (value (store_filter st)) "All Stores"
                (Frontend.collect_stores rows [])) as (-> & _ & _).
    exists (toString <$> sort (Frontend.collect_stores rows [])).
    cbn [fmap list_fmap]. rewrite Hv.
    split_and!; [done | done | done |].
    intros s. rewrite Hin, DropdownFacts.collect_stores_spec.
    rewrite elem_of_nil. tauto.
Qed.

Lemma dropdown_options_witness :
  ∃ brands,
    opt_value <$> options
      (brand_filter
         (settle (Frontend.populateFilters
                    (Arr (Obj Sample.rtx4090 :: Sample.catalog)) Sample.fresh)))
    = "all" :: brands ∧
    NoDup brands ∧ ascending brands ∧
    ∀ b, b ∈ brands ↔
         offered_brand (Obj Sample.rtx4090 :: Sample.catalog) b.
Proof.
  refine (proj1 (dropdown_options (Obj Sample.rtx4090 :: Sample.catalog)
                   Sample.fresh _ _ eq_refl)).
  repeat constructor.
Defined.

Example brand_options_of_catalog :
  opt_value <$> options
    (brand_filter
       (settle (Frontend.populateFilters
                  (Arr (Obj Sample.rtx4090 :: Sample.catalog)) Sample.fresh)))
  = ["all"; "AMD"; "NVIDIA"].
Proof. reflexivity. Qed.

(** X9: after [populateFilters] has run through on rows whose brands
    and store names are free of markup characters, a brand selection
    other than ["all"] that the rows no longer offer has fallen back to
    ["all"], and so has such a store selection; in every case the value
    of each dropdown is the value of one of its options. *)
Theorem selection_falls_back (rows : list row) (st st' : state) :
  Forall (λ r, plain_named r = true) rows →
  Frontend.populateFilters (Arr rows) st = Normal st' →
  (value (brand_filter st) ≠ "all" →
   ¬ offered_brand rows (value (brand_filter st)) →
   value (brand_filter st') = "all")
  ∧ (value (store_filter st) ≠ "all" →
     ¬ offered_store rows (value (store_filter st)) →
     value (store_filter st') = "all")
  ∧ value (brand_filter st') ∈ opt_value <$> options (brand_filter st')
  ∧ value (store_filter st') ∈ opt_value <$> options (store_filter st').
Proof.
  intros _ Hpop.
  destruct (populated rows st st' Hpop) as (brands & Hb & -> & ->).
  destruct (reselect_value (value (brand_filter st)) "All Brands" brands)
    as (_ & Hbv & Hbin).
  destruct (reselect_value (value (store_filter st)) "All Stores"
              (Frontend.collect_stores rows [])) as (_ & Hsv & Hsin).
  split_and!; [| | done | done].
  - intros Hne Hoff. rewrite Hbv. clear Hbv Hbin Hsv Hsin.
    case_decide as Hcur; [| done].
    destruct Hcur as [? | Hin]; [done |]. destruct Hoff.
    apply (DropdownFacts.collect_brands_spec rows [] brands Hb) in Hin
      as [Hin | Hin]; [by apply elem_of_nil in Hin | done].
  - intros Hne Hoff. rewrite Hsv. clear Hbv Hbin Hsv Hsin.
    case_decide as Hcur; [| done].
    destruct Hcur as [? | Hin]; [done |]. destruct Hoff.
    apply DropdownFacts.collect_stores_spec in Hin
      as [Hin | Hin]; [by apply elem_of_nil in Hin | done].
Qed.

Lemma selection_falls_back_witness :
  value (brand_filter
           (settle (Frontend.populateFilters (Arr [Obj Sample.rx7900])
                      Sample.searching))) = "all".
Proof.
  refine (proj1 (selection_falls_back [Obj Sample.rx7900] Sample.searching
                   _ _ eq_refl) _ _).
  - repeat constructor.
  - discriminate.
  - intros (g & s & Hg & Hs & _ & _ & Hup).
    apply list_elem_of_singleton in Hg. injection Hg as ->.
    injection Hs as <-. discriminate Hup.
Defined.

End OptionFacts.

(* ===================================================================== *)
(** ** Facts about loading and refreshing the list *)
(* ===================================================================== *)

Module RefreshFacts.
Import Js Page Expected Behaviour.
Local Open Scope list_scope.

(** The loop of [renderGPUs] as one assignment to the grid. *)
Lemma append_cards_state (rows : list row) (st : state) :
  fold_left Frontend.append_card rows st =
  set_gpu_grid (gpu_grid st ++ cards_of Frontend.render_card rows) st.
Proof.
  revert st. induction rows as [| r rows IH]; intros st.
  - simpl. rewrite app_nil_r. by destruct st.
  - cbn [fold_left]. rewrite IH. unfold Frontend.append_card, cards_of.
    cbn [flat_map]. destruct (Frontend.render_card r); simpl.
    + by rewrite <- app_assoc.
    + done.
Qed.

Lemma render_state (r : row) (rows : list row) (st : state) :
  settle (Frontend.renderGPUs (Arr (r :: rows)) st) =
  set_gpu_grid (cards_of Frontend.render_card (r :: rows))
    (Frontend.update_last_scraped (set_gpu_grid [] st)).
Proof.
  unfold Frontend.renderGPUs, settle. rewrite append_cards_state.
  rewrite RenderFacts.update_last_scraped_grid. done.
Qed.

Lemma collect_brands_null (rows : list row) (acc : list prim) :
  Nullish ∈ rows → Frontend.collect_brands rows acc = Throw.
Proof.
  revert acc. induction rows as [| [| g] rows IH]; intros acc Hin.
  - by apply elem_of_nil in Hin.
  - done.
  - apply elem_of_cons in Hin as [? | Hin]; [done |]. simpl.
    destruct (_ && _); [| by apply IH].
    destruct (as_string (brand g)); simpl; [by apply IH | done].
Qed.

Lemma filter_rows_null (keep : row → result bool) (rows : list row) :
  keep Nullish = Throw → Nullish ∈ rows →
  Frontend.filter_rows keep rows = Throw.
Proof.
  intros Hk. induction rows as [| r rows IH]; intros Hin.
  - by apply elem_of_nil in Hin.
  - apply elem_of_cons in Hin as [<- | Hin]; simpl.
    + by rewrite Hk.
    + destruct (keep r); simpl; [| done]. by rewrite IH.
Qed.

Lemma populate_unusable (data : payload) (st : state) :
  unusable data → Frontend.populateFilters data st = Abrupt st.
Proof.
  intros [-> | (rows & -> & Hnull)]; [done |].
  unfold Frontend.populateFilters. by rewrite collect_brands_null.
Qed.

Lemma filter_unusable (data : payload) (st : state) :
  unusable data → allGPUs st = data → Frontend.filterGPUs st = Abrupt st.
Proof.
  intros Hdata Hall. unfold Frontend.filterGPUs, Frontend.filtered.
  rewrite Hall. destruct Hdata as [-> | (rows & -> & Hnull)]; [done |].
  by rewrite filter_rows_null.
Qed.

(** X10: when the server answers the list request with something that
    is not an array, or with an array that has a [null] among its rows,
    the load outside polling ends in the connection-error panel although
    the server was reached, and a refresh by the polling callback
    leaves the grid as it was; either way the payload has replaced
    [allGPUs], the dropdowns are as before, and from then on a change
    of a filter input throws and changes nothing. *)
Theorem unusable_payload (data : payload) (now : Z) (st : state) :
  unusable data →
  let shown := Frontend.fetchGPUs false now (Json data) st in
  let polled := Frontend.fetchGPUs true now (Json data) st in
  gpu_grid shown = [ConnectionError]
  ∧ gpu_grid polled = gpu_grid st
  ∧ allGPUs shown = data ∧ allGPUs polled = data
  ∧ brand_filter shown = brand_filter st
  ∧ store_filter shown = store_filter st
  ∧ Frontend.on_filter_change shown = shown
  ∧ Frontend.on_filter_change polled = polled.
Proof.
  intros Hdata shown polled.
  assert (Hs : shown = Frontend.show_connection_error
                         (set_allGPUs data (send now (GetGpus now) st))).
  { unfold shown, Frontend.fetchGPUs. by rewrite populate_unusable. }
  assert (Hp : polled = set_allGPUs data (send now (GetGpus now) st)).
  { unfold polled, Frontend.fetchGPUs. by rewrite populate_unusable. }
  split_and!; try (by rewrite ?Hs, ?Hp).
  - unfold Frontend.on_filter_change.
    rewrite (filter_unusable data shown Hdata); [done | by rewrite Hs].
  - unfold Frontend.on_filter_change.
    rewrite (filter_unusable data polled Hdata); [done | by rewrite Hp].
Qed.

Lemma unusable_payload_witness :
  let shown :=
    Frontend.fetchGPUs false 0
      (Json (Arr [Obj Sample.rtx4090; Nullish])) Sample.loaded in
  gpu_grid shown = [ConnectionError] ∧
  Frontend.on_filter_change shown = shown.
Proof.
  intros shown.
  assert (H : unusable (Arr [Obj Sample.rtx4090; Nullish])).
  { right. eexists. split; [reflexivity |].
    apply list_elem_of_In. simpl. auto. }
  destruct (unusable_payload _ 0 Sample.loaded H)
    as (H1 & _ & _ & _ & _ & _ & H7 & _).
  split; [exact H1 | exact H7].
Defined.





Example refresh_undoes_the_filter :
  let filtering := Frontend.on_filter_change Sample.searching in
  let refreshed :=
    Frontend.fetchGPUs true 5000 (Json (Arr Sample.catalog)) filtering in
  length (gpu_grid filtering) = 1%nat ∧
  length (gpu_grid refreshed) = 2%nat ∧
  search_input refreshed = "4090" ∧
  value (brand_filter refreshed) = "NVIDIA".
Proof. repeat split. Qed.

(** X12: after a change of a filter input the "Last Scraped" label
    shows the capture time of the first row of the whole list, also
    when the filter hides that row; when no row passes the filter the
    label keeps what it showed. *)
Theorem last_scraped_label (st : state) (first : gpu) (rest out : list row) :
  allGPUs st = Arr (Obj first :: rest) →
  truthy (scraped_at first) = true →
  Frontend.filtered st = Ok out →
  last_updated (Frontend.on_filter_change st) =
  match out with
  | [] => last_updated st
  | _ => Some (scraped_at first)
  end.
Proof.
  intros Hall Hfirst Hout.
  unfold Frontend.on_filter_change, Frontend.filterGPUs. rewrite Hout.
  destruct out as [| r out]; [done |].
  rewrite render_state. unfold Frontend.update_last_scraped. simpl.
  by rewrite Hall, Hfirst.
Qed.

Lemma last_scraped_label_witness :
  last_updated
    (Frontend.on_filter_change (Session.set_search_input "7900" Sample.loaded))
  = Some (scraped_at Sample.rtx4090).
Proof.
  apply (last_scraped_label (Session.set_search_input "7900" Sample.loaded)
           Sample.rtx4090 [Obj Sample.rx7900] [Obj Sample.rx7900]);
    reflexivity.
Defined.

End RefreshFacts.

(* ===================================================================== *)
(** ** Further facts about the filter *)
(* ===================================================================== *)

Module NarrowingFacts.
Import Js Page Expected Behaviour.
Local Open Scope list_scope.

Lemma filter_rows_sublist (keep : row → result bool) (rows out : list row) :
  Frontend.filter_rows keep rows = Ok out → out `sublist_of` rows.
Proof.
  revert out. induction rows as [| r rows IH]; intros out H; simpl in H.
  - injection H as <-. constructor.
  - destruct (keep r) as [k |]; simpl in H; [| done].
    destruct (Frontend.filter_rows keep rows) as [rest |]; simpl in H;
      [| done].
    injection H as <-. destruct k; constructor; by apply IH.
Qed.

Lemma includes_empty (s : string) : includes s "" = true.
Proof. apply JsFacts.includes_app. by exists "", s. Qed.

Lemma matches_everything (r : row) :
  well_formed r → Frontend.matches "" "all" "all" r = Ok true.
Proof.
  intros (g & -> & [m Hm] & Hb). unfold Frontend.matches.
  rewrite Hm. simpl. rewrite includes_empty. unfold or_else.
  destruct (truthy (brand g)) eqn:Ht; [| done].
  destruct Hb as [? | [b Hb]]; [congruence |]. by rewrite Hb.
Qed.

(** X13: the rows [filterGPUs] keeps are always rows of the list, in
    the order of the list (nothing is added, doubled or moved); and
    with an empty search box and both dropdowns on ["all"] every row of
    a well-formed list is kept and the grid shows the cards of all of
    them. *)
Theorem filter_keeps_order (st : state) (rows : list row) :
  allGPUs st = Arr rows →
  (∀ out, Frontend.filtered st = Ok out → out `sublist_of` rows)
  ∧ (Forall well_formed rows →
     search_input st = "" →
     value (brand_filter st) = "all" →
     value (store_filter st) = "all" →
     Frontend.filtered st = Ok rows ∧
     gpu_grid (Frontend.on_filter_change st) =
     grid_of Frontend.render_card rows).
Proof.
  intros Hall. split.
  - intros out. unfold Frontend.filtered. rewrite Hall.
    apply filter_rows_sublist.
  - intros Hrows Hq Hb Hs.
    assert (Hf : Frontend.filtered st = Ok rows).
    { unfold Frontend.filtered. rewrite Hall, Hq, Hb, Hs.
      change (toLowerCase "") with "".
      clear Hall. induction Hrows as [| r rows Hr _ IH]; [done |].
      simpl. by rewrite (matches_everything r Hr), IH. }
    split; [done |].
    unfold Frontend.on_filter_change, Frontend.filterGPUs. rewrite Hf.
    apply RenderFacts.settled_grid.
Qed.

Lemma filter_keeps_order_witness :
  Frontend.filtered Sample.loaded = Ok Sample.catalog ∧
  gpu_grid (Frontend.on_filter_change Sample.loaded) =
  grid_of Frontend.render_card Sample.catalog.
Proof.
  apply (proj2 (filter_keeps_order Sample.loaded Sample.catalog eq_refl));
    try reflexivity.
  repeat constructor; eexists; (split; [reflexivity |]); split; eauto.
Defined.

Lemma append_assoc (a b c : string) :
  ((a ++ b) ++ c)%string = (a ++ (b ++ c))%string.
Proof.
  induction a as [| x a IH]; [done |].
  rewrite !JsFacts.append_cons. by rewrite IH.
Qed.

Lemma includes_trans (text mid needle : string) :
  includes text mid = true → includes mid needle = true →
  includes text needle = true.
Proof.
  rewrite !JsFacts.includes_app.
  intros (a & b & ->) (c & d & ->).
  exists (a ++ c)%string, (d ++ b)%string.
  by rewrite !append_assoc.
Qed.

(** A longer search text keeps a row only if the shorter one does, and
    the callback throws for the one exactly when it throws for the
    other. *)
Lemma matches_narrower (long short brand_sel store_sel : string) (r : row)
    (k : bool) :
  includes long short = true →
  Frontend.matches long brand_sel store_sel r = Ok k →
  ∃ k', Frontend.matches short brand_sel store_sel r = Ok k' ∧
        (k = true → k' = true).
Proof.
  intros Hinc. destruct r as [| g]; [done |]. unfold Frontend.matches.
  destruct (as_string (model_name g)) as [m |]; simpl; [| done].
  destruct (as_string (or_else (brand g) (PStr "Unknown"))) as [b |]; simpl;
    [| done].
  intros [= <-]. eexists. split; [reflexivity |].
  rewrite !andb_true_iff. intros [[Hn Hb] Hs]. split_and!; [| done | done].
  by apply (includes_trans _ long).
Qed.

Lemma filter_rows_narrower (long short brand_sel store_sel : string)
    (rows out : list row) :
  includes long short = true →
  Frontend.filter_rows (Frontend.matches long brand_sel store_sel) rows = Ok out →
  ∃ out',
    Frontend.filter_rows (Frontend.matches short brand_sel store_sel) rows
      = Ok out' ∧ out `sublist_of` out'.
Proof.
  intros Hinc. revert out. induction rows as [| r rows IH]; intros out H;
    simpl in H.
  - injection H as <-. exists []. split; [done | constructor].
  - destruct (Frontend.matches long _ _ r) as [k |] eqn:Hk; simpl in H;
      [| done].
    destruct (Frontend.filter_rows _ rows) as [rest |]; simpl in H; [| done].
    injection H as <-.
    destruct (matches_narrower _ _ _ _ _ _ Hinc Hk) as (k' & Hk' & Himp).
    destruct (IH rest eq_refl) as (rest' & Hrest' & Hsub).
    simpl. rewrite Hk', Hrest'. simpl. eexists. split; [reflexivity |].
    destruct k; [rewrite (Himp eq_refl); by constructor |].
    destruct k'; [by constructor | done].
Qed.

(** X14: typing more into the search box never brings a row back: if
    the new search text contains the old one (up to case), the rows
    kept under the new text are, in order, among the rows kept under
    the old one, the dropdowns being the same. *)
Theorem search_narrows (st st' : state) (out' : list row) :
  allGPUs st' = allGPUs st →
  value (brand_filter st') = value (brand_filter st) →
  value (store_filter st') = value (store_filter st) →
  includes (toLowerCase (search_input st')) (toLowerCase (search_input st))
    = true →
  Frontend.filtered st' = Ok out' →
  ∃ out, Frontend.filtered st = Ok out ∧ out' `sublist_of` out.
Proof.
  unfold Frontend.filtered. intros -> -> -> Hinc.
  destruct (allGPUs st) as [| rows]; [done |].
  by apply filter_rows_narrower.
Qed.

Lemma search_narrows_witness :
  ∃ out,
    Frontend.filtered (Session.set_search_input "RTX" Sample.loaded) = Ok out ∧
    [Obj Sample.rtx4090] `sublist_of` out.
Proof.
  apply (search_narrows (Session.set_search_input "RTX" Sample.loaded)
           (Session.set_search_input "rtx 40" Sample.loaded));
    reflexivity.
Defined.

End NarrowingFacts.

(* ===================================================================== *)
(** ** Facts about a visit of the page *)
(* ===================================================================== *)

Module SessionFacts.
Import Js Page Expected Behaviour.
Local Open Scope list_scope.

(** Rendering, the dropdowns, loading and filtering leave the scrape
    panel and the timers alone. *)
Lemma render_controls (gpus : payload) (st : state) :
  controls (settle (Frontend.renderGPUs gpus st)) = controls st.
Proof.
  destruct gpus as [| [| r rows]]; [done | done |].
  rewrite RefreshFacts.render_state. unfold Frontend.update_last_scraped.
  simpl. destruct (allGPUs st) as [| [| [| g] ?]]; try done.
  by destruct (truthy (scraped_at g)).
Qed.

Lemma populate_controls (gpus : payload) (st : state) :
  controls (settle (Frontend.populateFilters gpus st)) = controls st.
Proof.
  unfold Frontend.populateFilters. destruct gpus as [| rows]; [done |].
  by destruct (Frontend.collect_brands rows []).
Qed.


Lemma filter_controls (st : state) :
  controls (Frontend.on_filter_change st) = controls st.
Proof.
  unfold Frontend.on_filter_change, Frontend.filterGPUs.
  destruct (Frontend.filtered st); [| done]. apply render_controls.
Qed.

(** *** The halves of the asynchronous calls *)

(** A call whose answer is there before anything else happens is its
    two halves, one after the other. *)
Lemma fetchGPUs_halves (isPolling : bool) (now : Z) (answer : fetched payload)
    (st : state) :
  Frontend.fetchGPUs isPolling now answer st =
  Session.fetchGPUs_answered isPolling answer (Session.fetchGPUs_sent now st).
Proof. reflexivity. Qed.

Lemma poll_halves (now : Z) (a : Frontend.poll_answers) (st : state) :
  Frontend.poll now a st =
  match Session.poll_answered now (Frontend.status_answer a)
          (Session.poll_sent now st) with
  | (st', []) => st'
  | (st', _) => Session.fetchGPUs_answered true (Frontend.gpus_answer a) st'
  end.
Proof.
  unfold Frontend.poll, Session.poll_answered.
  destruct (Frontend.status_answer a) as [| | sd]; [done | done |].
  by destruct (truthy (Frontend.is_scraping sd)).
Qed.

Lemma triggerScrape_halves (now : Z)
    (answer : fetched (Z * Frontend.scrape_body)) (st : state) :
  Frontend.triggerScrape now answer st =
  match Session.triggerScrape_sent now st with
  | Some st' => Session.triggerScrape_answered now answer st'
  | None => st
  end.
Proof.
  unfold Frontend.triggerScrape, Session.triggerScrape_sent.
  by destruct (String.eqb (scrape_store_select st) "").
Qed.

Lemma same_log (st st' : state) :
  timers_and_log st' = timers_and_log st → requests st' = requests st.
Proof. unfold timers_and_log. by intros [= _ _ _ ->]. Qed.

(** The second half of [fetchGPUs] sends nothing and leaves the scrape
    panel and the timers alone. *)
Lemma answered_frame (isPolling : bool) (answer : fetched payload)
    (st : state) :
  controls (Session.fetchGPUs_answered isPolling answer st) = controls st ∧
  requests (Session.fetchGPUs_answered isPolling answer st) = requests st.
Proof.
  unfold Session.fetchGPUs_answered. cbv zeta.
  destruct answer as [| | data]; [by destruct isPolling .. |].
  pose proof (populate_controls data (set_allGPUs data st)) as Hp.
  pose proof (ScrapeFacts.populate_frame data (set_allGPUs data st)) as Hq.
  destruct (Frontend.populateFilters data _) as [s | s]; simpl in Hp, Hq.
  - pose proof (render_controls data s) as Hr.
    pose proof (ScrapeFacts.render_frame data s) as Ht.
    destruct (RenderFacts.renderGPUs_grid data s) as (s' & Hs' & _).
    rewrite Hs' in Hr, Ht |- *. simpl in Hr, Ht.
    rewrite Hr, Hp. split; [done |].
    by rewrite (same_log _ _ Ht), (same_log _ _ Hq).
  - destruct isPolling; simpl; (split; [exact Hp | exact (same_log _ _ Hq)]).
Qed.

Lemma filter_frame (st : state) :
  controls (Frontend.on_filter_change st) = controls st ∧
  requests (Frontend.on_filter_change st) = requests st.
Proof.
  split; [apply filter_controls |].
  unfold Frontend.on_filter_change, Frontend.filterGPUs.
  destruct (Frontend.filtered st) as [rows |]; [| done].
  exact (same_log _ _ (ScrapeFacts.render_frame (Arr rows) st)).
Qed.

(** [one_poll_timer] only looks at the timers. *)
Lemma one_poll_timer_controls (st st' : state) :
  controls st' = controls st → one_poll_timer st → one_poll_timer st'.
Proof. unfold controls, one_poll_timer. by intros [= _ -> -> _]. Qed.

Lemma startPolling_one_timer (now : Z) (st : state) :
  one_poll_timer st → one_poll_timer (Frontend.startPolling now st).
Proof.
  unfold Frontend.startPolling, one_poll_timer.
  destruct (pollInterval st) as [h |] eqn:Hp; simpl.
  - by rewrite Hp.
  - intros ->. by eexists.
Qed.

(** The first poll that finds the status idle leaves no timer. *)
Lemma clear_one_timer (st : state) :
  one_poll_timer st →
  intervals (clearInterval (pollInterval st) st) = [].
Proof.
  unfold one_poll_timer. destruct (pollInterval st) as [h |]; [| done].
  intros [t Ht]. simpl. rewrite Ht.
  by rewrite filter_cons_False by (simpl; intros Hne; by apply Hne).
Qed.

Lemma poll_answered_one_timer (now : Z) (a : fetched Frontend.status_body)
    (st : state) :
  one_poll_timer st → one_poll_timer (Session.poll_answered now a st).1.
Proof.
  intros Ht. unfold Session.poll_answered.
  destruct a as [| | sd]; [done | done |].
  destruct (truthy (Frontend.is_scraping sd)); [done |].
  unfold one_poll_timer. simpl. by apply clear_one_timer.
Qed.

Lemma triggerScrape_answered_one_timer (now : Z)
    (answer : fetched (Z * Frontend.scrape_body)) (st : state) :
  one_poll_timer st →
  one_poll_timer (Session.triggerScrape_answered now answer st).
Proof.
  intros Ht. unfold Session.triggerScrape_answered.
  destruct answer as [| | [status data]]; [done | done |].
  destruct (Frontend.ok status || (status =? 409)); [| done].
  by apply startPolling_one_timer.
Qed.

Lemma step_one_timer (e : Session.event) (s : Session.session) :
  one_poll_timer (Session.page s) →
  one_poll_timer (Session.page (Session.step e s)).
Proof.
  intros Ht. destruct e as [now | text | v | v | v | now | h now | k now a];
    simpl.
  - done.
  - eapply one_poll_timer_controls; [apply filter_frame | done].
  - eapply one_poll_timer_controls; [apply filter_frame | done].
  - eapply one_poll_timer_controls; [apply filter_frame | done].
  - done.
  - unfold Session.triggerScrape_sent.
    by destruct (String.eqb (scrape_store_select (Session.page s)) "").
  - by case_bool_decide.
  - unfold Session.resume.
    destruct (Session.waiting s !! k) as [[| isPolling |] |]; [| | | done];
      destruct a as [a | a | a]; try done.
    + pose proof (poll_answered_one_timer now a (Session.page s) Ht) as H.
      by destruct (Session.poll_answered now a (Session.page s)).
    + eapply one_poll_timer_controls; [apply answered_frame | done].
    + by apply triggerScrape_answered_one_timer.
Qed.

(** X15: on a page that starts without a timer, whatever the user and
    the server do, and in whatever order the answers to the requests
    arrive (loads, filter changes, clicks on the scrape button, timer
    ticks, answers of any content to any waiting call), there is never
    more than one timer: [pollInterval] holds the handle of the one
    registered timer, of period 5000, or none is registered. *)
Theorem one_timer_always (evs : list Session.event) (st : state) :
  pollInterval st = None → intervals st = [] →
  let s' := Session.run evs (Session.at_rest st) in
  one_poll_timer (Session.page s') ∧
  (length (intervals (Session.page s')) ≤ 1)%nat.
Proof.
  intros Hp Hi s'.
  assert (H0 : one_poll_timer (Session.page (Session.at_rest st))).
  { unfold one_poll_timer. simpl. by rewrite Hp. }
  assert (Ht : one_poll_timer (Session.page s')).
  { subst s'. revert H0. generalize (Session.at_rest st). clear Hp Hi.
    induction evs as [| e evs IH]; intros s H0; [done |].
    simpl. by apply IH, step_one_timer. }
  split; [done |].
  unfold one_poll_timer in Ht. destruct (pollInterval (Session.page s')).
  - destruct Ht as [t ->]. simpl. lia.
  - rewrite Ht. simpl. lia.
Qed.

Lemma one_timer_always_witness :
  let started := {| Frontend.message := PStr "Scrape started";
                    Frontend.error := PUndef |} in
  let busy := {| Frontend.message := PUndef;
                 Frontend.error := PStr "Scrape already in progress" |} in
  let s' :=
    Session.run
      [Session.Load 0;
       Session.ClickScrape 100;
       Session.Arrive 0 150 (Session.OfGpus (Json (Arr Sample.catalog)));
       Session.ClickScrape 200;
       Session.Arrive 1 300 (Session.OfScrape (Json (409, busy)));
       Session.Arrive 0 400 (Session.OfScrape (Json (200, started)));
       Session.Tick 1 5300;
       Session.Tick 1 10300;
       Session.Arrive 1 10400 (Session.OfStatus (Json Sample.idle_status));
       Session.ClickScrape 10500;
       Session.Arrive 0 10600 (Session.OfStatus (Json Sample.running_status))]
      (Session.at_rest Sample.fresh) in
  one_poll_timer (Session.page s') ∧
  (length (intervals (Session.page s')) ≤ 1)%nat.
Proof.
  intros started busy s'.
  apply (one_timer_always _ Sample.fresh); reflexivity.
Defined.

(** Two clicks whose answers cross start one timer. *)
Example two_clicks_one_timer :
  let started := {| Frontend.message := PStr "Scrape started";
                    Frontend.error := PUndef |} in
  let s' :=
    Session.run
      [Session.ClickScrape 100; Session.ClickScrape 200;
       Session.Arrive 1 300 (Session.OfScrape (Json (200, started)));
       Session.Arrive 0 400 (Session.OfScrape (Json (200, started)))]
      (Session.at_rest Sample.fresh) in
  intervals (Session.page s') =
    [{| handle := 1; period := 5000; since := 300 |}] ∧
  pollInterval (Session.page s') = Some 1%positive ∧
  requests (Session.page s') = [(100, PostScrape "1"); (200, PostScrape "1")] ∧
  Session.waiting s' = [].
Proof. repeat split. Qed.

(** A status answer that says "running" and arrives after the one that
    said "idle" disables the button again when no timer is left to
    enable it. *)
Example late_answer_disables_the_button :
  let s' :=
    Session.run
      [Session.Tick 1 5000; Session.Tick 1 10000;
       Session.Arrive 1 10100 (Session.OfStatus (Json Sample.idle_status));
       Session.Arrive 0 10200 (Session.OfStatus (Json Sample.running_status));
       Session.Arrive 0 10300 (Session.OfGpus (Json (Arr Sample.catalog)));
       Session.Arrive 0 10400 (Session.OfGpus (Json (Arr Sample.catalog)))]
      (Session.at_rest (Frontend.startPolling 0 Sample.loaded)) in
  btn_disabled (scrape (Session.page s')) = true ∧
  pollInterval (Session.page s') = None ∧
  intervals (Session.page s') = [] ∧
  Session.waiting s' = [].
Proof. repeat split. Qed.

End SessionFacts.

(* ===================================================================== *)
(** ** Facts about polling with answers that take their time *)
(* ===================================================================== *)

Module PollingFacts.
Import Js Page Expected Behaviour.
Local Open Scope list_scope.

Lemma run_app (a b : list Session.event) (s : Session.session) :
  Session.run (a ++ b) s = Session.run b (Session.run a s).
Proof. apply fold_left_app. Qed.

Lemma answered_log (isPolling : bool) (answer : fetched payload) (st : state) :
  timers_and_log (Session.fetchGPUs_answered isPolling answer st) =
  timers_and_log st.
Proof.
  destruct (SessionFacts.answered_frame isPolling answer st) as [Hc Hr].
  unfold controls in Hc. injection Hc as _ Hp Hi Hn.
  unfold timers_and_log. by rewrite Hp, Hi, Hn, Hr.
Qed.

(** *** Polls that are answered in time *)

(** A tick that finds the scrape running: the status is fetched, then
    the list, and the timer stays. *)
Lemma round_running (h : positive) (t : Z) (x : Session.exchange)
    (s : Session.session) :
  reports_running (Session.answers x) →
  Session.waiting s = [] →
  h ∈ handle <$> intervals (Session.page s) →
  let s' := Session.run (Session.round h t x) s in
  Session.waiting s' = [] ∧
  timers_and_log (Session.page s') =
  (pollInterval (Session.page s), intervals (Session.page s),
   next_handle (Session.page s),
   requests (Session.page s) ++
   [(t, GetStatus);
    (t + Session.status_after x, GetGpus (t + Session.status_after x))]).
Proof.
  intros (sd & Hsd & Hrun) Hw Hh. destruct s as [st w]. simpl in Hw, Hh.
  subst w. unfold Session.run, Session.round. cbn [fold_left Session.step].
  cbn [Session.page]. rewrite bool_decide_eq_true_2 by done.
  unfold Session.suspend, Session.resume. simpl. rewrite Hsd.
  unfold Session.poll_answered. rewrite Hrun. simpl.
  split; [done |]. rewrite answered_log. unfold timers_and_log. simpl.
  by rewrite <- app_assoc.
Qed.

(** The tick that finds the status idle: the status is fetched, the
    timer is cleared, and the list is fetched. *)
Lemma round_idle (h : positive) (t : Z) (x : Session.exchange)
    (s : Session.session) :
  reports_idle (Session.answers x) →
  Session.waiting s = [] →
  one_poll_timer (Session.page s) →
  h ∈ handle <$> intervals (Session.page s) →
  let s' := Session.run (Session.round h t x) s in
  Session.waiting s' = [] ∧
  timers_and_log (Session.page s') =
  (None, [], next_handle (Session.page s),
   requests (Session.page s) ++
   [(t, GetStatus);
    (t + Session.status_after x, GetGpus (t + Session.status_after x))]).
Proof.
  intros (sd & Hsd & Hidle) Hw Ht Hh. destruct s as [st w]. simpl in Hw, Ht, Hh.
  subst w. unfold Session.run, Session.round. cbn [fold_left Session.step].
  cbn [Session.page]. rewrite bool_decide_eq_true_2 by done.
  unfold Session.suspend, Session.resume. simpl. rewrite Hsd.
  unfold Session.poll_answered. rewrite Hidle. simpl.
  split; [done |]. rewrite answered_log. unfold timers_and_log. simpl.
  pose proof (SessionFacts.clear_one_timer st Ht) as Hc.
  destruct (pollInterval st); simpl in Hc |- *;
    by rewrite ?Hc, <- app_assoc.
Qed.

Lemma rounds_running (h : positive) (xs : list Session.exchange) :
  ∀ (now : Z) (s : Session.session),
    Forall (λ x, reports_running (Session.answers x)) xs →
    Session.waiting s = [] →
    h ∈ handle <$> intervals (Session.page s) →
    let s' := Session.run (Session.rounds h now xs) s in
    Session.waiting s' = [] ∧
    timers_and_log (Session.page s') =
    (pollInterval (Session.page s), intervals (Session.page s),
     next_handle (Session.page s),
     requests (Session.page s) ++ Session.poll_log now xs).
Proof.
  induction xs as [| x xs IH]; intros now s Hrun Hw Hh.
  - simpl. split; [done |]. unfold timers_and_log. by rewrite app_nil_r.
  - inversion Hrun as [| ? ? Hx Hxs]; subst.
    cbn [Session.rounds Session.poll_log]. rewrite run_app.
    destruct (round_running h (now + Frontend.POLL_INTERVAL) x s Hx Hw Hh)
      as [Hw1 Hl1].
    set (s1 := Session.run (Session.round h (now + Frontend.POLL_INTERVAL) x) s)
      in *.
    injection Hl1 as Hp1 Hi1 Hn1 Hr1.
    destruct (IH (now + Frontend.POLL_INTERVAL) s1 Hxs Hw1) as [Hw2 Hl2];
      [by rewrite Hi1 |].
    split; [done |]. rewrite Hl2, Hp1, Hi1, Hn1, Hr1.
    unfold Frontend.POLL_INTERVAL. by rewrite <- app_assoc.
Qed.

Lemma poll_log_snoc (now : Z) (xs : list Session.exchange)
    (x : Session.exchange) :
  Session.poll_log now (xs ++ [x]) =
  Session.poll_log now xs ++
  Session.poll_log (now + 5000 * Z.of_nat (length xs)) [x].
Proof.
  revert now. induction xs as [| y xs IH]; intros now.
  - simpl. by rewrite Z.add_0_r.
  - cbn [app Session.poll_log length]. rewrite IH.
    by replace (now + 5000 + 5000 * Z.of_nat (length xs))
      with (now + 5000 * Z.of_nat (S (length xs))) by lia.
Qed.

Lemma rounds_snoc (h : positive) (now : Z) (xs : list Session.exchange)
    (x : Session.exchange) :
  Session.rounds h now (xs ++ [x]) =
  Session.rounds h now xs ++
  Session.round h (now + 5000 * Z.of_nat (length xs) + 5000) x.
Proof.
  revert now. induction xs as [| y xs IH]; intros now.
  - cbn [app Session.rounds length]. rewrite app_nil_r.
    unfold Frontend.POLL_INTERVAL.
    by replace (now + 5000 * Z.of_nat 0 + 5000) with (now + 5000) by lia.
  - cbn [app Session.rounds length]. rewrite IH, <- app_assoc.
    unfold Frontend.POLL_INTERVAL.
    by replace (now + 5000 + 5000 * Z.of_nat (length xs) + 5000)
      with (now + 5000 * Z.of_nat (S (length xs)) + 5000) by lia.
Qed.

(** *** After the first poll that finds the status idle *)

Lemma polls_waiting_app (st : state) (w w' : list Session.awaiting) :
  polls_waiting {| Session.page := st; Session.waiting := w ++ w' |} =
  (polls_waiting {| Session.page := st; Session.waiting := w |} +
   length (filter (λ a, a = Session.StatusBody) w'))%nat.
Proof. unfold polls_waiting. simpl. by rewrite filter_app, length_app. Qed.

(** Taking a call off the waiting list. *)
Lemma waiting_delete (w : list Session.awaiting) (k : nat)
    (a : Session.awaiting) :
  w !! k = Some a →
  (length (filter (λ a, a = Session.StatusBody) w) =
   length (filter (λ a, a = Session.StatusBody) (delete k w)) +
   (if decide (a = Session.StatusBody) then 1 else 0))%nat
  ∧ ∀ b, b ∈ delete k w → b ∈ w.
Proof.
  intros Hk. pose proof (take_drop_middle w k a Hk) as Hw.
  rewrite delete_take_drop. split.
  - rewrite <- Hw at 1. rewrite !filter_app, !length_app, filter_cons.
    case_decide; simpl; lia.
  - intros b Hb. rewrite <- Hw. apply elem_of_app in Hb as [Hb | Hb].
    + apply elem_of_app. by left.
    + apply elem_of_app. right. by right.
Qed.

(** Once no timer is left and no scrape request is waiting, an event
    that starts no call sends at most one request, for the list, and
    only by taking a poll off the waiting list. *)
Lemma stopped_step (e : Session.event) (s : Session.session) :
  stopped s → Session.quiet e = true →
  stopped (Session.step e s) ∧
  ∃ extra,
    requests (Session.page (Session.step e s)) =
      requests (Session.page s) ++ extra ∧
    Forall (λ r, list_request r = true) extra ∧
    (length extra + polls_waiting (Session.step e s) ≤ polls_waiting s)%nat.
Proof.
  intros (Hp & Hi & Hs) Hq.
  assert (Hsame : ∀ st', controls st' = controls (Session.page s) →
            requests st' = requests (Session.page s) →
            stopped {| Session.page := st'; Session.waiting := Session.waiting s |} ∧
            ∃ extra,
              requests st' = requests (Session.page s) ++ extra ∧
              Forall (λ r, list_request r = true) extra ∧
              (length extra +
               polls_waiting {| Session.page := st';
                                Session.waiting := Session.waiting s |}
               ≤ polls_waiting s)%nat).
  { intros st' Hc Hr. unfold controls in Hc. injection Hc as _ Hp' Hi' _.
    split; [unfold stopped; simpl; by rewrite Hp', Hi' |].
    exists []. rewrite app_nil_r. split_and!; [done | done |].
    unfold polls_waiting. simpl. lia. }
  destruct e as [now | text | v | v | v | now | h now | k now a];
    try discriminate Hq; cbn [Session.step Session.on_page].
  - destruct (SessionFacts.filter_frame
                (Session.set_search_input text (Session.page s))) as [Hc Hr].
    apply Hsame; [exact Hc | exact Hr].
  - destruct (SessionFacts.filter_frame
                (set_brand_filter
                   (set_value v (brand_filter (Session.page s)))
                   (Session.page s))) as [Hc Hr].
    apply Hsame; [exact Hc | exact Hr].
  - destruct (SessionFacts.filter_frame
                (set_store_filter
                   (set_value v (store_filter (Session.page s)))
                   (Session.page s))) as [Hc Hr].
    apply Hsame; [exact Hc | exact Hr].
  - by apply Hsame.
  - rewrite Hi. rewrite bool_decide_eq_false_2 by apply not_elem_of_nil.
    split; [done |]. exists []. rewrite app_nil_r. split_and!; [done | done |].
    simpl. lia.
  - unfold Session.resume.
    destruct (Session.waiting s !! k) as [w |] eqn:Hk; cycle 1.
    { split; [done |]. exists []. rewrite app_nil_r.
      split_and!; [done | done | simpl; lia]. }
    destruct (waiting_delete _ _ _ Hk) as [Hlen Hsub].
    assert (Hs' : Session.ScrapeBody ∉ delete k (Session.waiting s)).
    { intros Hin. by apply Hs, Hsub. }
    assert (Hnoop : stopped s ∧
              ∃ extra,
                requests (Session.page s) = requests (Session.page s) ++ extra ∧
                Forall (λ r, list_request r = true) extra ∧
                (length extra + polls_waiting s ≤ polls_waiting s)%nat).
    { split; [done |]. exists []. rewrite app_nil_r.
      split_and!; [done | done | simpl; lia]. }
    destruct w as [| isPolling |]; destruct a as [a | a | a]; try exact Hnoop.
    + (* a poll gets its status *)
      rewrite decide_True in Hlen by done.
      unfold Session.poll_answered.
      destruct a as [| | sd].
      * split; [unfold stopped; simpl; by rewrite app_nil_r |].
        exists []. simpl. rewrite !app_nil_r. split_and!; [done | done |].
        unfold polls_waiting in *. simpl. lia.
      * split; [unfold stopped; simpl; by rewrite app_nil_r |].
        exists []. simpl. rewrite !app_nil_r. split_and!; [done | done |].
        unfold polls_waiting in *. simpl. lia.
      * assert (Hw : Session.ScrapeBody ∉
                     delete k (Session.waiting s) ++ [Session.GpusBody true]).
        { intros Hin. apply elem_of_app in Hin as [Hin | Hin]; [done |].
          by apply list_elem_of_singleton in Hin. }
        destruct (truthy (Frontend.is_scraping sd)).
        -- split; [done |]. exists [(now, GetGpus now)].
           split_and!; [done | by repeat constructor |].
           unfold polls_waiting in *. simpl.
           rewrite filter_app, length_app. simpl. lia.
        -- split; [unfold stopped; simpl; by rewrite Hp |].
           exists [(now, GetGpus now)]. simpl. rewrite Hp. simpl.
           split_and!; [done | by repeat constructor |].
           unfold polls_waiting in *. simpl.
           rewrite filter_app, length_app. simpl. lia.
    + (* a fetch of the list gets its answer *)
      rewrite decide_False in Hlen by done.
      destruct (SessionFacts.answered_frame isPolling a (Session.page s))
        as [Hc Hr].
      unfold controls in Hc. injection Hc as _ Hp' Hi' _.
      split; [unfold stopped; simpl; by rewrite Hp', Hi' |].
      exists []. rewrite app_nil_r. split_and!; [done | done |].
      unfold polls_waiting in *. simpl. lia.
    + (* no scrape request is waiting *)
      destruct Hs. by eapply list_elem_of_lookup_2.
Qed.

Lemma stopped_run (evs : list Session.event) :
  ∀ s : Session.session,
    stopped s → Forall (λ e, Session.quiet e = true) evs →
    stopped (Session.run evs s) ∧
    ∃ extra,
      requests (Session.page (Session.run evs s)) =
        requests (Session.page s) ++ extra ∧
      Forall (λ r, list_request r = true) extra ∧
      (length extra + polls_waiting (Session.run evs s) ≤ polls_waiting s)%nat.
Proof.
  induction evs as [| e evs IH]; intros s Hs Hq.
  - split; [done |]. exists []. rewrite app_nil_r.
    split_and!; [done | done | simpl; lia].
  - inversion Hq as [| ? ? He Hevs]; subst.
    destruct (stopped_step e s Hs He) as (Hs1 & x1 & Hr1 & Hx1 & Hl1).
    destruct (IH (Session.step e s) Hs1 Hevs) as (Hs2 & x2 & Hr2 & Hx2 & Hl2).
    change (Session.run (e :: evs) s)
      with (Session.run evs (Session.step e s)).
    split; [done |]. exists (x1 ++ x2). split_and!.
    + by rewrite Hr2, Hr1, <- app_assoc.
    + by apply Forall_app.
    + rewrite length_app. lia.
Qed.

(** The poll that finds the status idle. *)
Lemma idle_arrives (s : Session.session) (k : nat) (t : Z)
    (sd : Frontend.status_body) :
  one_poll_timer (Session.page s) →
  Session.ScrapeBody ∉ Session.waiting s →
  Session.waiting s !! k = Some Session.StatusBody →
  truthy (Frontend.is_scraping sd) = false →
  let s1 := Session.step (Session.Arrive k t (Session.OfStatus (Json sd))) s in
  stopped s1 ∧
  requests (Session.page s1) = requests (Session.page s) ++ [(t, GetGpus t)] ∧
  (polls_waiting s1 + 1 = polls_waiting s)%nat.
Proof.
  intros Ht Hs Hk Hidle. cbn [Session.step]. unfold Session.resume.
  rewrite Hk. unfold Session.poll_answered. rewrite Hidle.
  destruct (waiting_delete _ _ _ Hk) as [Hlen Hsub].
  rewrite decide_True in Hlen by done.
  pose proof (SessionFacts.clear_one_timer _ Ht) as Hc.
  split_and!.
  - unfold stopped. simpl. split_and!; [done | | ].
    + by destruct (pollInterval (Session.page s)).
    + intros Hin. apply elem_of_app in Hin as [Hin | Hin].
      * by apply Hs, Hsub.
      * by apply list_elem_of_singleton in Hin.
  - simpl. by destruct (pollInterval (Session.page s)).
  - unfold polls_waiting in *. simpl.
    rewrite filter_app, length_app. simpl. lia.
Qed.

(** C2, as the script has it.  Polling started at time [now] registers
    one timer of period 5000 milliseconds (5 seconds).  While the
    status endpoint reports a running scrape and every poll is answered
    before the next tick, each tick of the timer, the k-th at time
    [now + 5000 * k], fetches the status and, as soon as it is there,
    the list, and the timer stays registered.  The first poll that
    finds the status idle clears the timer, resets [pollInterval] and
    fetches the list once more; after that, whatever ticks and answers
    follow, nothing is sent.  In any session, with answers as late and
    in whatever order: once a poll has found the status idle no timer
    is left, so no poll starts and no status request is sent any more;
    the list is fetched once by that poll, and at most once more by
    each poll that was waiting for its status at that moment. *)
Theorem polling_until_idle (st : state) (now : Z)
    (running : list Session.exchange) (idle : Session.exchange)
    (later : list Session.event) :
  pollInterval st = None → intervals st = [] →
  Forall (λ x, reports_running (Session.answers x)) running →
  reports_idle (Session.answers idle) →
  Forall Session.in_time (running ++ [idle]) →
  Forall (λ e, Session.quiet e = true) later →
  let h := next_handle st in
  let polling := Session.at_rest (Frontend.startPolling now st) in
  let final :=
    Session.run (Session.rounds h now (running ++ [idle])) polling in
  Frontend.POLL_INTERVAL = 5 * 1000
  ∧ pollInterval (Session.page polling) = Some h
  ∧ intervals (Session.page polling) =
    [{| handle := h; period := 5000; since := now |}]
  ∧ (∀ k, (k ≤ length running)%nat →
       let during :=
         Session.run (Session.rounds h now (take k running)) polling in
       pollInterval (Session.page during) = Some h ∧
       intervals (Session.page during) =
         [{| handle := h; period := 5000; since := now |}] ∧
       Session.waiting during = [] ∧
       requests (Session.page during) =
         requests st ++ Session.poll_log now (take k running))
  ∧ requests (Session.page final) =
    requests st ++ Session.poll_log now (running ++ [idle])
  ∧ stopped final
  ∧ Session.waiting final = []
  ∧ requests (Session.page (Session.run later final)) =
    requests (Session.page final)
  ∧ (∀ (s : Session.session) (k : nat) (t : Z) (sd : Frontend.status_body)
       (evs : list Session.event),
       one_poll_timer (Session.page s) →
       Session.ScrapeBody ∉ Session.waiting s →
       Session.waiting s !! k = Some Session.StatusBody →
       truthy (Frontend.is_scraping sd) = false →
       Forall (λ e, Session.quiet e = true) evs →
       let s1 :=
         Session.step (Session.Arrive k t (Session.OfStatus (Json sd))) s in
       stopped s1 ∧
       requests (Session.page s1) = requests (Session.page s) ++ [(t, GetGpus t)] ∧
       stopped (Session.run evs s1) ∧
       ∃ extra,
         requests (Session.page (Session.run evs s1)) =
           requests (Session.page s1) ++ extra ∧
         Forall (λ r, list_request r = true) extra ∧
         (length extra < polls_waiting s)%nat).
Proof.
  intros Hnone Hempty Hrun Hidle _ Hlater h polling final.
  assert (Hpoll : timers_and_log (Session.page polling) =
            (Some h, [{| handle := h; period := 5000; since := now |}],
             Pos.succ h, requests st)).
  { unfold polling, Frontend.startPolling. simpl. by rewrite Hnone, Hempty. }
  injection Hpoll as Hp Hi Hn Hr.
  change (Frontend.startPolling now st) with (Session.page polling)
    in Hp, Hi, Hn, Hr.
  assert (Hh : h ∈ handle <$> intervals (Session.page polling)).
  { rewrite Hi. by left. }
  assert (Hduring : ∀ l, Forall (λ x, reports_running (Session.answers x)) l →
            let during := Session.run (Session.rounds h now l) polling in
            Session.waiting during = [] ∧
            timers_and_log (Session.page during) =
            (Some h, [{| handle := h; period := 5000; since := now |}],
             Pos.succ h, requests st ++ Session.poll_log now l)).
  { intros l Hl.
    destruct (rounds_running h l now polling Hl eq_refl Hh) as [Hw Ht].
    split; [done |]. by rewrite Ht, Hp, Hi, Hn, Hr. }
  assert (Hfinal : Session.waiting final = [] ∧
            timers_and_log (Session.page final) =
            (None, [], Pos.succ h,
             requests st ++ Session.poll_log now (running ++ [idle]))).
  { unfold final. rewrite rounds_snoc, run_app.
    destruct (Hduring running Hrun) as [Hw Ht].
    set (mid := Session.run (Session.rounds h now running) polling) in *.
    injection Ht as Hmp Hmi Hmn Hmr.
    destruct (round_idle h (now + 5000 * Z.of_nat (length running) + 5000)
                idle mid Hidle Hw) as [Hw' Ht'].
    - unfold one_poll_timer. rewrite Hmp, Hmi. by eexists.
    - rewrite Hmi. by left.
    - split; [done |]. rewrite Ht', Hmn, Hmr, poll_log_snoc, <- app_assoc.
      done. }
  destruct Hfinal as [Hfw Hft]. injection Hft as Hfp Hfi Hfn Hfr.
  assert (Hstop : stopped final).
  { unfold stopped. rewrite Hfw. split_and!; [done | done |].
    apply not_elem_of_nil. }
  split_and!; [done | done | done | | done | done | done | |].
  - intros k Hk during.
    assert (Htake : Forall (λ x, reports_running (Session.answers x))
                      (take k running)) by by apply Forall_take.
    destruct (Hduring (take k running) Htake) as [Hw Ht].
    injection Ht as Hdp Hdi Hdn Hdr. by fold during in Hw, Hdp, Hdi, Hdr.
  - destruct (stopped_run later final Hstop Hlater)
      as (_ & extra & Hx & _ & Hlen).
    unfold polls_waiting in Hlen at 2. rewrite Hfw in Hlen. simpl in Hlen.
    destruct extra; [| simpl in Hlen; lia]. by rewrite Hx, app_nil_r.
  - intros s k t sd evs Ht Hs Hk Hsd Hevs s1.
    destruct (idle_arrives s k t sd Ht Hs Hk Hsd) as (Hs1 & Hr1 & Hw1).
    fold s1 in Hs1, Hr1, Hw1.
    destruct (stopped_run evs s1 Hs1 Hevs) as (Hs2 & extra & Hx & Hall & Hlen).
    split_and!; [done | done | done |].
    exists extra. split_and!; [done | done | lia].
Qed.

Lemma polling_until_idle_witness :
  let busy d :=
    {| Session.answers := Sample.while_scraping;
       Session.status_after := d; Session.gpus_after := 200 |} in
  let over :=
    {| Session.answers := Sample.once_done;
       Session.status_after := 80; Session.gpus_after := 150 |} in
  let final :=
    Session.run (Session.rounds 1 0 ([busy 120; busy 3000] ++ [over]))
      (Session.at_rest (Frontend.startPolling 0 Sample.loaded)) in
  requests (Session.page final) =
    requests Sample.loaded ++
    Session.poll_log 0 ([busy 120; busy 3000] ++ [over]) ∧
  stopped final ∧
  requests
    (Session.page
       (Session.run [Session.Tick 1 20000; Session.TypeSearch "rtx";
                     Session.Tick 1 25000] final)) =
  requests (Session.page final).
Proof.
  intros busy over final.
  assert (Hrun : Forall (λ x, reports_running (Session.answers x))
                   [busy 120; busy 3000]).
  { repeat constructor; eexists; split; reflexivity. }
  assert (Hidle : reports_idle (Session.answers over)).
  { eexists; split; reflexivity. }
  assert (Htime : Forall Session.in_time ([busy 120; busy 3000] ++ [over])).
  { repeat constructor; simpl; unfold Frontend.POLL_INTERVAL; lia. }
  assert (Hquiet : Forall (λ e, Session.quiet e = true)
                     [Session.Tick 1 20000; Session.TypeSearch "rtx";
                      Session.Tick 1 25000]).
  { repeat constructor. }
  pose proof (polling_until_idle Sample.loaded 0 [busy 120; busy 3000] over
                _ eq_refl eq_refl Hrun Hidle Htime Hquiet) as H.
  cbv zeta in H. destruct H as (_ & _ & _ & _ & Hreq & Hstop & _ & Hlater & _).
  split; [exact Hreq | split; [exact Hstop | exact Hlater]].
Defined.

(** C2, as stated, fails when a status answer takes longer than the
    interval: two polls wait when the first of them finds the status
    idle, and the second one fetches the list as well. *)
Lemma overlapping_polls_refresh_twice : ¬ one_final_refresh.
Proof.
  intros H.
  specialize (H (Session.run [Session.Tick 1 5000; Session.Tick 1 10000]
                   (Session.at_rest (Frontend.startPolling 0 Sample.loaded)))
                0%nat 10100 Sample.idle_status
                [Session.Arrive 0 10200
                   (Session.OfStatus (Json Sample.idle_status))]).
  assert (Hlog : requests (Session.page (Session.run
             [Session.Arrive 0 10200 (Session.OfStatus (Json Sample.idle_status))]
             (Session.step
                (Session.Arrive 0 10100
                   (Session.OfStatus (Json Sample.idle_status)))
                (Session.run [Session.Tick 1 5000; Session.Tick 1 10000]
                   (Session.at_rest (Frontend.startPolling 0 Sample.loaded))))))
          = [(0, GetGpus 0); (5000, GetStatus); (10000, GetStatus);
             (10100, GetGpus 10100); (10200, GetGpus 10200)]).
  { reflexivity. }
  rewrite Hlog in H. discriminate H.
  - by eexists.
  - intros Hin. apply list_elem_of_In in Hin. simpl in Hin.
    by destruct Hin as [? | [? | []]].
  - reflexivity.
  - reflexivity.
  - repeat constructor.
Qed.

(** The requests of a page that loads, starts polling at time 0, polls
    twice during the scrape and once after it, each poll answered in
    time. *)
Example polling_trace :
  let busy := {| Session.answers := Sample.while_scraping;
                 Session.status_after := 100; Session.gpus_after := 200 |} in
  let over := {| Session.answers := Sample.once_done;
                 Session.status_after := 100; Session.gpus_after := 200 |} in
  requests
    (Session.page
       (Session.run
          (Session.rounds 1 0 [busy; busy; over] ++
           [Session.Tick 1 20000; Session.Tick 1 25000])
          (Session.at_rest (Frontend.startPolling 0 Sample.loaded)))) =
  [(0, GetGpus 0);
   (5000, GetStatus); (5100, GetGpus 5100);
   (10000, GetStatus); (10100, GetGpus 10100);
   (15000, GetStatus); (15100, GetGpus 15100)].
Proof. reflexivity. Qed.

End PollingFacts.

(* ===================================================================== *)
(** ** Facts about the first script *)
(* ===================================================================== *)

Module LegacyFacts.
Import Js Page Expected Behaviour.
Local Open Scope list_scope.

Lemma legacy_append_cards_state (rows : list row) (st : state) :
  fold_left Legacy.append_card rows st =
  set_gpu_grid (gpu_grid st ++ cards_of Legacy.render_card rows) st.
Proof.
  revert st. induction rows as [| r rows IH]; intros st.
  - simpl. rewrite app_nil_r. by destruct st.
  - cbn [fold_left]. rewrite IH. unfold Legacy.append_card, cards_of.
    cbn [flat_map]. destruct (Legacy.render_card r); simpl.
    + by rewrite <- app_assoc.
    + done.
Qed.

Lemma legacy_render_keeps_brand (gpus : payload) (st : state) :
  brand_filter (settle (Legacy.renderGPUs gpus st)) = brand_filter st.
Proof.
  destruct gpus as [| [| r rows]]; [done | done |].
  unfold Legacy.renderGPUs, settle. rewrite legacy_append_cards_state.
  unfold Legacy.update_last_scraped. simpl.
  destruct (allGPUs st) as [| [| [| g] ?]]; try done.
  by destruct (truthy (scraped_at g)).
Qed.

Lemma populateBrands_value (gpus : payload) (st : state) :
  value (brand_filter (settle (Legacy.populateBrands gpus st))) = "all".
Proof.
  unfold Legacy.populateBrands. destruct gpus as [| rows]; [done |].
  by destruct (Legacy.collect_brands rows []).
Qed.

(** X16: in the first script every answer to the list request other
    than [null] puts the brand dropdown back on ["all"], whatever was
    selected and whether or not the brand is still offered (the
    current script keeps the selection, C9).  A [null] body makes the
    script throw where it reads [data.length], before [allGPUs] is
    assigned and the dropdown is touched: like a request that fails on
    the way, it leaves both as they were and shows the connection
    error. *)
Theorem legacy_refresh_resets (now : Z) (st : state) :
  (∀ data,
     value (brand_filter (Legacy.fetchGPUs now (Json (Legacy.Value data)) st))
     = "all")
  ∧ legacy_fetch_failed now Unreachable st
  ∧ legacy_fetch_failed now Malformed st
  ∧ legacy_fetch_failed now (Json Legacy.Null) st.
Proof.
  split; [| done].
  intros data. unfold Legacy.fetchGPUs. cbv zeta.
  pose proof (populateBrands_value data
                (set_allGPUs data (send now (GetGpus now) st))) as Hv.
  destruct (Legacy.populateBrands data _) as [s | s]; simpl in Hv; [| done].
  pose proof (legacy_render_keeps_brand data s) as Hk.
  destruct (RenderFacts.legacy_renderGPUs_grid data s) as (s' & Hs' & _).
  rewrite Hs' in Hk |- *. simpl in Hk. by rewrite Hk.
Qed.

Example legacy_loses_the_selection :
  value (brand_filter Sample.searching) = "NVIDIA" ∧
  value (brand_filter
           (Legacy.fetchGPUs 5000 (Json (Legacy.Value (Arr Sample.catalog)))
              Sample.searching))
  = "all" ∧
  value (brand_filter
           (Legacy.fetchGPUs 5000 (Json Legacy.Null) Sample.searching))
  = "NVIDIA".
Proof. repeat split. Qed.

End LegacyFacts.

(* ===================================================================== *)
(** ** Facts about the store list and the history dialog *)
(* ===================================================================== *)

Module DialogFacts.
Import Js Page.
Local Open Scope list_scope.

Lemma append_stores_objs (ss : list Stores.store) (sel : select) :
  Stores.append_stores (Stores.StoreObj <$> ss) sel =
  ({| options := options sel ++ (Stores.store_option <$> ss);
      value := match options sel, ss with
               | [], s :: _ => toString (Stores.id s)
               | _, _ => value sel
               end |}, true).
Proof.
  revert sel. induction ss as [| s ss IH]; intros sel.
  - simpl. rewrite app_nil_r. destruct sel as [opts v]. by destruct opts.
  - cbn [fmap list_fmap Stores.append_stores]. rewrite IH. simpl.
    rewrite <- app_assoc. destruct (options sel); simpl; [done |].
    by destruct ss.
Qed.

Lemma append_stores_null (ss : list Stores.store) (rest : list Stores.item)
    (sel : select) :
  (Stores.append_stores ((Stores.StoreObj <$> ss) ++ Stores.NullItem :: rest) sel).1 =
  (Stores.append_stores (Stores.StoreObj <$> ss) sel).1.
Proof.
  revert sel. induction ss as [| s ss IH]; intros sel; [done |].
  cbn [fmap list_fmap app Stores.append_stores]. apply IH.
Qed.

Lemma trigger_requests (now : Z) (answer : fetched (Z * Frontend.scrape_body))
    (st : state) :
  scrape_store_select st ≠ "" →
  requests (Frontend.triggerScrape now answer st) =
  requests st ++ [(now, PostScrape (scrape_store_select st))].
Proof.
  intros Hsel. apply String.eqb_neq in Hsel.
  unfold Frontend.triggerScrape. rewrite Hsel. cbv zeta.
  destruct answer as [| | [status data]]; [done | done |].
  destruct (_ || _); [| done].
  unfold Frontend.startPolling. simpl. by destruct (pollInterval st).
Qed.

(** X17: [fetchSupportedStores] replaces the options of the store
    dropdown by one option per store of the answer, in the order of the
    answer, its value the identifier and its text the name and the
    state, and selects the first; a [null] in the answer ends the loop
    with the options built so far, and a request that fails leaves the
    dropdown as it was.  With an empty answer nothing is selected and
    [triggerScrape] returns at once, sending nothing; otherwise it
    sends one request, for the selected store. *)
Theorem store_dropdown (ss : list Stores.store) (rest : list Stores.item)
    (sel : select) (now : Z) (answer : fetched (Z * Frontend.scrape_body))
    (st : state) :
  let filled := Stores.fetchSupportedStores
                  (Json (Stores.Arr (Stores.StoreObj <$> ss))) sel in
  options filled = Stores.store_option <$> ss
  ∧ value filled =
    match ss with s :: _ => toString (Stores.id s) | [] => "" end
  ∧ Stores.fetchSupportedStores
      (Json (Stores.Arr ((Stores.StoreObj <$> ss) ++ Stores.NullItem :: rest)))
      sel = filled
  ∧ Stores.fetchSupportedStores Unreachable sel = sel
  ∧ Stores.fetchSupportedStores Malformed sel = sel
  ∧ (value filled = "" →
     Frontend.triggerScrape now answer (Stores.with_store_select filled st) =
     Stores.with_store_select filled st)
  ∧ (value filled ≠ "" →
     requests
       (Frontend.triggerScrape now answer (Stores.with_store_select filled st))
     = requests st ++ [(now, PostScrape (value filled))]).
Proof.
  intros filled.
  assert (Hf : filled =
               {| options := Stores.store_option <$> ss;
                  value := match ss with
                           | s :: _ => toString (Stores.id s)
                           | [] => ""
                           end |}).
  { unfold filled, Stores.fetchSupportedStores.
    rewrite append_stores_objs. simpl. done. }
  split_and!.
  - by rewrite Hf.
  - by rewrite Hf.
  - unfold filled, Stores.fetchSupportedStores. apply append_stores_null.
  - done.
  - done.
  - intros Hv. unfold Frontend.triggerScrape. simpl. by rewrite Hv.
  - intros Hv. by rewrite trigger_requests.
Qed.

Lemma store_dropdown_witness :
  let filled := Stores.fetchSupportedStores
                  (Json (Stores.Arr (Stores.StoreObj <$>
                                       [Stores.tustin; Stores.dallas])))
                  (Sample.all_only "") in
  requests (Frontend.triggerScrape 100 Unreachable
              (Stores.with_store_select filled Sample.fresh))
  = requests Sample.fresh ++ [(100, PostScrape (value filled))].
Proof.
  intros filled.
  apply (store_dropdown [Stores.tustin; Stores.dallas] [] (Sample.all_only "")).
  discriminate.
Defined.

Example stores_offered :
  Stores.fetchSupportedStores
    (Json (Stores.Arr [Stores.StoreObj Stores.tustin; Stores.NullItem;
                       Stores.StoreObj Stores.dallas]))
    (Sample.all_only "") =
  {| options := [{| opt_value := "1"; opt_text := "Tustin, CA" |}];
     value := "1" |}.
Proof. reflexivity. Qed.

(** *** The history dialog *)

Lemma map_items_entries (f : History.entry → prim) (items : list History.item)
    (l : list prim) :
  History.map_items f items = Ok l →
  ∃ entries, items = History.EntryObj <$> entries ∧ l = f <$> entries.
Proof.
  revert l. induction items as [| [| e] items IH]; intros l H; simpl in H.
  - injection H as <-. by exists [].
  - done.
  - destruct (History.map_items f items) as [l' |]; simpl in H; [| done].
    injection H as <-. destruct (IH l' eq_refl) as (entries & -> & ->).
    by exists (e :: entries).
Qed.

Lemma map_items_of_entries (f : History.entry → prim)
    (entries : list History.entry) :
  History.map_items f (History.EntryObj <$> entries) = Ok (f <$> entries).
Proof.
  induction entries as [| e entries IH]; [done |].
  cbn [fmap list_fmap History.map_items]. by rewrite IH.
Qed.

Lemma entry_objs_inj (a b : list History.entry) :
  History.EntryObj <$> a = History.EntryObj <$> b → a = b.
Proof.
  revert b. induction a as [| x a IH]; intros [| y b] H; try done.
  injection H as -> H. by rewrite (IH b H).
Qed.

(** The chart of an answer: one point per entry, in the order of the
    answer. *)
Lemma build_chart_entries (answer : fetched History.history) (c : History.chart) :
  History.build_chart answer = Ok c ↔
  ∃ entries,
    answer = Json (History.Arr (History.EntryObj <$> entries)) ∧
    c = {| History.labels := History.scraped_at <$> entries;
           History.data := History.price_usd <$> entries;
           History.destroyed := false |}.
Proof.
  split.
  - destruct answer as [| | [| items]]; try done. simpl.
    destruct (History.map_items History.scraped_at items) as [ls |] eqn:Hl;
      simpl; [| done].
    destruct (History.map_items History.price_usd items) as [ps |] eqn:Hp;
      simpl; [| done].
    intros [= <-].
    apply map_items_entries in Hl as (entries & -> & ->).
    apply map_items_entries in Hp as (entries' & Heq & ->).
    apply entry_objs_inj in Heq as <-. by exists entries.
  - intros (entries & -> & ->). simpl. by rewrite !map_items_of_entries.
Qed.

(** X18: up to its [await], [showHistory] opens the dialog under the
    title of the product and destroys the chart that was shown, so
    that nothing is drawn while the answer is awaited.  When the answer
    arrives and the canvas is free (as it is unless the answer to
    another call has drawn in between), whichever Chart.js is loaded:
    an answer that is an array of entries gives a chart with one point
    per entry, in the order of the answer, under the title the dialog
    has by then; any other answer (the request failed, the body is not
    an array or holds a [null]) draws nothing, and the current script
    leaves the dialog as it is while the first script changes the
    title to "Error loading history".  A click on the close button or
    on the backdrop hides the dialog, a click elsewhere does nothing,
    and no click touches the chart or the title. *)
Theorem history_dialog (overdraws : bool) (productId : prim)
    (modelName : string) (answer : fetched History.history)
    (dg waiting : History.dialog) :
  History.drawn waiting = None →
  let shown := History.opened productId modelName dg in
  let after := History.answered overdraws answer waiting in
  let after1 := History.answered_legacy overdraws answer waiting in
  History.display shown = "block"
  ∧ History.title shown = String.append "History: " modelName
  ∧ History.drawn shown = None
  ∧ History.asked shown = History.asked dg ++ [productId]
  ∧ History.display after = History.display waiting
  ∧ History.title after = History.title waiting
  ∧ History.display after1 = History.display waiting
  ∧ History.drawn after1 = History.drawn after
  ∧ ((∃ entries,
        answer = Json (History.Arr (History.EntryObj <$> entries)) ∧
        History.drawn after =
          Some {| History.labels := History.scraped_at <$> entries;
                  History.data := History.price_usd <$> entries;
                  History.destroyed := false |} ∧
        History.title after1 = History.title waiting)
     ∨ (History.build_chart answer = Throw ∧
        after = waiting ∧
        History.title after1 = "Error loading history"))
  ∧ (∀ t d, History.drawn (History.click t d) = History.drawn d ∧
            History.title (History.click t d) = History.title d)
  ∧ (∀ d, History.display (History.click History.OnCloseButton d) = "none" ∧
          History.display (History.click History.OnModal d) = "none" ∧
          History.click History.Elsewhere d = d).
Proof.
  intros Hfree shown after after1.
  assert (Hnone : History.drawn shown = None).
  { unfold History.drawn, shown, History.opened. simpl.
    by destruct (History.myChart dg). }
  assert (Hnew : ∀ c, History.new_chart overdraws c waiting =
            Ok {| History.display := History.display waiting;
                  History.title := History.title waiting;
                  History.myChart := Some c;
                  History.asked := History.asked waiting |}).
  { intros c. unfold History.new_chart. rewrite Hfree.
    rewrite bool_decide_eq_false_2; [done |]. by intros [? ?]. }
  unfold after, after1, History.answered, History.answered_legacy.
  destruct (History.build_chart answer) as [c |] eqn:Hc; simpl.
  - rewrite Hnew. apply build_chart_entries in Hc as (entries & -> & ->).
    split_and!; try done; [| by intros [] d].
    left. by exists entries.
  - split_and!; try done; [by right | by intros [] d].
Qed.

Lemma history_dialog_witness :
  let waiting := History.opened (PNum 1) "GeForce RTX 4090" History.closed in
  History.display waiting = "block" ∧
  History.title (History.answered false (Json (History.Arr History.two_prices))
                   waiting) = "History: GeForce RTX 4090".
Proof.
  intros waiting.
  pose proof (history_dialog false (PNum 1) "GeForce RTX 4090"
                (Json (History.Arr History.two_prices)) History.closed waiting
                eq_refl) as H.
  cbv zeta in H. destruct H as (Hd & _ & _ & _ & _ & Ht & _).
  split; [exact Hd | exact Ht].
Defined.

(** A second product asked for after the first was drawn: the chart
    of the first is destroyed at once, and a failed request draws
    nothing. *)
Example second_product_fails :
  let first :=
    History.answered true (Json (History.Arr History.two_prices))
      (History.opened (PNum 1) "GeForce RTX 4090" History.closed) in
  let second :=
    History.answered true Unreachable
      (History.opened (PNum 2) "Radeon RX 7900 XTX" first) in
  History.data <$> History.drawn first = Some [PStr "500.00"; PStr "480.00"] ∧
  History.drawn second = None ∧
  History.title second = "History: Radeon RX 7900 XTX" ∧
  History.asked second = [PNum 1; PNum 2].
Proof. repeat split. Qed.

(** Two products asked for one right after the other: the answer for
    the first arrives under the title of the second. *)
Example first_answer_under_second_title :
  let both :=
    History.opened (PNum 2) "Radeon RX 7900 XTX"
      (History.opened (PNum 1) "GeForce RTX 4090" History.closed) in
  let drawn_first :=
    History.answered false (Json (History.Arr History.two_prices)) both in
  History.title drawn_first = "History: Radeon RX 7900 XTX" ∧
  History.data <$> History.drawn drawn_first =
    Some [PStr "500.00"; PStr "480.00"].
Proof. repeat split. Qed.

End DialogFacts.

(* ===================================================================== *)
(** ** Facts about the scrape panel during polling *)
(* ===================================================================== *)

Module PanelFacts.
Import Js Page Expected Behaviour.
Local Open Scope list_scope.




End PanelFacts.
